(** * JackCompiler: the symbol table and the VM code generator

    A shallow embedding of [src/JackToVM/SymbolTable.py] and of
    [src/XMLtoVM/CompilationEngine.py], and the properties of the scope
    table and of the emitted VM code that are proved about them. *)

From stdpp Require Import gmap strings list fin_maps pretty.

Open Scope string_scope.

(** ** SymbolTable.py *)

Module SymbolTable.

(** A table entry is the Python tuple [(type, kind, index)]. *)
Record entry := Entry { e_type : string; e_kind : string; e_index : nat }.

(** The Python dict objects live in a store, addressed by position, because
    [__cur_symbol_table] is an alias of either the class-level dict or one of
    the per-subroutine dicts. *)
Record t := Mk {
  store : list (gmap string entry);
  class_level_symbol_table : nat;
  subroutine_symbol_table : gmap string nat;
  cur_symbol_table : nat;
  static_counter : nat;
  field_counter : nat;
  arg_counter : nat;
  var_counter : nat;
  if_counter : nat;
  while_counter : nat
}.

(** The dict an address denotes. *)
Definition dict_at (st : t) (a : nat) : gmap string entry :=
  default ∅ (store st !! a).

(** [d[name] = e] on the dict at address [a]. *)
Definition setitem (a : nat) (name : string) (e : entry) (st : t) : t :=
  Mk (<[a := <[name := e]> (dict_at st a)]> (store st))
     (class_level_symbol_table st) (subroutine_symbol_table st)
     (cur_symbol_table st) (static_counter st) (field_counter st)
     (arg_counter st) (var_counter st) (if_counter st) (while_counter st).

Definition set_static_counter (n : nat) (st : t) : t :=
  Mk (store st) (class_level_symbol_table st) (subroutine_symbol_table st)
     (cur_symbol_table st) n (field_counter st)
     (arg_counter st) (var_counter st) (if_counter st) (while_counter st).

Definition set_field_counter (n : nat) (st : t) : t :=
  Mk (store st) (class_level_symbol_table st) (subroutine_symbol_table st)
     (cur_symbol_table st) (static_counter st) n
     (arg_counter st) (var_counter st) (if_counter st) (while_counter st).

Definition set_arg_counter (n : nat) (st : t) : t :=
  Mk (store st) (class_level_symbol_table st) (subroutine_symbol_table st)
     (cur_symbol_table st) (static_counter st) (field_counter st)
     n (var_counter st) (if_counter st) (while_counter st).

Definition set_var_counter (n : nat) (st : t) : t :=
  Mk (store st) (class_level_symbol_table st) (subroutine_symbol_table st)
     (cur_symbol_table st) (static_counter st) (field_counter st)
     (arg_counter st) n (if_counter st) (while_counter st).

Definition set_cur_symbol_table (a : nat) (st : t) : t :=
  Mk (store st) (class_level_symbol_table st) (subroutine_symbol_table st)
     a (static_counter st) (field_counter st)
     (arg_counter st) (var_counter st) (if_counter st) (while_counter st).

(** [__init__]: the class-level dict is the object at address 0, the current
    table aliases it, no subroutine has a dict yet, all counters are 0. *)
Definition init : t :=
  Mk [∅] 0 ∅ 0 0 0 0 0 0 0.

(** [start_subroutine]: a fresh dict is stored under [name]; the four
    subroutine counters are zeroed.  The current table is not touched. *)
Definition start_subroutine (name : string) (st : t) : t :=
  Mk (store st ++ [∅]) (class_level_symbol_table st)
     (<[name := length (store st)]> (subroutine_symbol_table st))
     (cur_symbol_table st) (static_counter st) (field_counter st)
     0 0 0 0.

Definition define (name type kind : string) (st : t) : t :=
  if decide (kind = "static") then
    set_static_counter (static_counter st + 1)
      (setitem (class_level_symbol_table st) name
         (Entry type kind (static_counter st)) st)
  else if decide (kind = "field") then
    set_field_counter (field_counter st + 1)
      (setitem (class_level_symbol_table st) name
         (Entry type kind (field_counter st)) st)
  else if decide (kind = "arg") then
    set_arg_counter (arg_counter st + 1)
      (setitem (cur_symbol_table st) name
         (Entry type kind (arg_counter st)) st)
  else if decide (kind = "var") then
    set_var_counter (var_counter st + 1)
      (setitem (cur_symbol_table st) name
         (Entry type kind (var_counter st)) st)
  else st.

(** The counting loop shared by the two [..._var_count] methods. *)
Definition count_kind (kind : string) (d : gmap string entry) : nat :=
  map_fold (λ _ tpl count,
              if decide (e_kind tpl = kind) then count + 1 else count) 0 d.

Definition subroutine_level_var_count (kind : string) (st : t) : nat :=
  count_kind kind (dict_at st (cur_symbol_table st)).

Definition class_level_var_count (kind : string) (st : t) : nat :=
  count_kind kind (dict_at st (class_level_symbol_table st)).

(** The three lookups; falling off the end of the Python function returns
    [None]. *)
Definition kind_of (name : string) (st : t) : option string :=
  match dict_at st (cur_symbol_table st) !! name with
  | Some tpl => Some (e_kind tpl)
  | None =>
      match dict_at st (class_level_symbol_table st) !! name with
      | Some tpl => Some (e_kind tpl)
      | None => None
      end
  end.

Definition type_of (name : string) (st : t) : option string :=
  match dict_at st (cur_symbol_table st) !! name with
  | Some tpl => Some (e_type tpl)
  | None =>
      match dict_at st (class_level_symbol_table st) !! name with
      | Some tpl => Some (e_type tpl)
      | None => None
      end
  end.

Definition index_of (name : string) (st : t) : option nat :=
  match dict_at st (cur_symbol_table st) !! name with
  | Some tpl => Some (e_index tpl)
  | None =>
      match dict_at st (class_level_symbol_table st) !! name with
      | Some tpl => Some (e_index tpl)
      | None => None
      end
  end.

Definition get_if_counter (st : t) : nat := if_counter st.

Definition get_while_counter (st : t) : nat := while_counter st.

Definition increment_if_counter (st : t) : t :=
  Mk (store st) (class_level_symbol_table st) (subroutine_symbol_table st)
     (cur_symbol_table st) (static_counter st) (field_counter st)
     (arg_counter st) (var_counter st) (if_counter st + 1) (while_counter st).

Definition increment_while_counter (st : t) : t :=
  Mk (store st) (class_level_symbol_table st) (subroutine_symbol_table st)
     (cur_symbol_table st) (static_counter st) (field_counter st)
     (arg_counter st) (var_counter st) (if_counter st) (while_counter st + 1).

(** [set_cur_level_symbol_table]: [None] stands for the [KeyError] of
    [self.__subroutine_symbol_table[name]]. *)
Definition set_cur_level_symbol_table (name : string) (st : t) : option t :=
  if decide (name = "class") then
    Some (set_cur_symbol_table (class_level_symbol_table st) st)
  else
    match subroutine_symbol_table st !! name with
    | Some a => Some (set_cur_symbol_table a st)
    | None => None
    end.

Definition current_symbol_table_contains (name : string) (st : t) : bool :=
  bool_decide (is_Some (dict_at st (cur_symbol_table st) !! name)).

Definition class_level_symbol_table_contains (name : string) (st : t) : bool :=
  bool_decide (is_Some (dict_at st (class_level_symbol_table st) !! name)).

(** *** Vocabulary for the properties of the table *)

(** Every address held by the table denotes a dict of the store. *)
Definition wf (tbl : t) : Prop :=
  class_level_symbol_table tbl < length (store tbl)
  ∧ cur_symbol_table tbl < length (store tbl).

(** The dict a [define] of the given kind writes to, and the index it
    assigns. *)
Definition define_target (kind : string) (tbl : t) : option (nat * nat) :=
  if decide (kind = "static") then
    Some (class_level_symbol_table tbl, static_counter tbl)
  else if decide (kind = "field") then
    Some (class_level_symbol_table tbl, field_counter tbl)
  else if decide (kind = "arg") then
    Some (cur_symbol_table tbl, arg_counter tbl)
  else if decide (kind = "var") then
    Some (cur_symbol_table tbl, var_counter tbl)
  else None.

(** The table after the two calls by which [__compile_subroutine] enters a
    subroutine, [start_subroutine name] and then
    [set_cur_level_symbol_table name], for a [name] other than "class". *)
Definition entered (name : string) (tbl : t) : t :=
  set_cur_symbol_table (length (store tbl)) (start_subroutine name tbl).

(** A history of the table: definitions and subroutine entries. *)
Inductive op :=
| Define (name type kind : string)
| Enter (name : string).

Definition run_op (o : op) (tbl : t) : option t :=
  match o with
  | Define name type kind => Some (define name type kind tbl)
  | Enter name => set_cur_level_symbol_table name (start_subroutine name tbl)
  end.

Fixpoint run (ops : list op) (tbl : t) : option t :=
  match ops with
  | [] => Some tbl
  | o :: ops => run_op o tbl ≫= run ops
  end.

Definition defined_name (o : op) : option string :=
  match o with
  | Define name _ _ => Some name
  | Enter _ => None
  end.

Definition defined_names (ops : list op) : list string :=
  omap defined_name ops.

Definition is_enter (o : op) : bool :=
  match o with
  | Enter _ => true
  | Define _ _ _ => false
  end.

Definition defines (kind : string) (o : op) : bool :=
  match o with
  | Define _ _ kind' => String.eqb kind' kind
  | Enter _ => false
  end.

(** The operations since the last [Enter]. *)
Definition since_enter (ops : list op) : list op :=
  fold_left (λ acc o, if is_enter o then [] else (acc ++ [o])%list) ops [].

(** The part of a history that belongs to the partition of a kind: all of
    it for the class scope, what follows the last entry for the subroutine
    scope. *)
Definition partition_of (kind : string) (ops : list op) : list op :=
  if decide (kind = "static" ∨ kind = "field") then ops else since_enter ops.

Definition count_defines (kind : string) (ops : list op) : nat :=
  length (filter (λ o, defines kind o = true) ops).

(** The number of symbols of the kind declared earlier in its partition. *)
Definition expected_index (kind : string) (pre : list op) : nat :=
  count_defines kind (partition_of kind pre).

(** What a history establishes about the table it leads to. *)
Record inv (ops : list op) (tbl : t) : Prop := Inv {
  inv_wf : wf tbl;
  inv_cur : ∀ x, is_Some (dict_at tbl (cur_symbol_table tbl) !! x) →
                 x ∈ defined_names ops;
  inv_class : ∀ x, is_Some (dict_at tbl (class_level_symbol_table tbl) !! x) →
                   x ∈ defined_names ops;
  inv_static : static_counter tbl = count_defines "static" ops;
  inv_field : field_counter tbl = count_defines "field" ops;
  inv_arg : arg_counter tbl = count_defines "arg" (since_enter ops);
  inv_var : var_counter tbl = count_defines "var" (since_enter ops)
}.

(** Where the entry of [name] is found, by the kind it was defined with. *)
Definition found (kind name : string) (e : entry) (tbl : t) : Prop :=
  if decide (kind = "static" ∨ kind = "field") then
    dict_at tbl (class_level_symbol_table tbl) !! name = Some e
    ∧ (cur_symbol_table tbl = class_level_symbol_table tbl
       ∨ dict_at tbl (cur_symbol_table tbl) !! name = None)
  else
    dict_at tbl (cur_symbol_table tbl) !! name = Some e.

(** The class-level dict holds [static] and [field] symbols only. *)
Definition class_scoped (tbl : t) : Prop :=
  ∀ x e, dict_at tbl (class_level_symbol_table tbl) !! x = Some e →
         e_kind e = "static" ∨ e_kind e = "field".

(** The table as the engine has it inside a subroutine: the current dict
    holds [arg] and [var] symbols only, the class-level dict [static] and
    [field] symbols only. *)
Definition scoped (tbl : t) : Prop :=
  (∀ x e, dict_at tbl (cur_symbol_table tbl) !! x = Some e →
          e_kind e = "arg" ∨ e_kind e = "var")
  ∧ class_scoped tbl.

(** The number of symbols of a kind in a dict. *)
Definition symbols_of_kind (kind : string) (d : gmap string entry) : nat :=
  size (filter (λ kv, e_kind kv.2 = kind) d).

(** The table while the engine is inside a subroutine entered from [tbl0]:
    the current dict is not the class-level one and holds [arg] and [var]
    symbols only; the class-level dict is the one of [tbl0]. *)
Definition in_subroutine (tbl0 tbl : t) : Prop :=
  wf tbl
  ∧ class_level_symbol_table tbl = class_level_symbol_table tbl0
  ∧ cur_symbol_table tbl ≠ class_level_symbol_table tbl
  ∧ dict_at tbl (class_level_symbol_table tbl)
    = dict_at tbl0 (class_level_symbol_table tbl0)
  ∧ (∀ x e, dict_at tbl (cur_symbol_table tbl) !! x = Some e →
            e_kind e = "arg" ∨ e_kind e = "var").

End SymbolTable.

(** ** CompilationEngine.py (the VM code generator) *)

Module CompilationEngine.

(** A token is the pair [(type, value)] handed out by the tokenizer. *)
Abbreviation token := (string * string)%type.

(** What the engine passes to the VM writer as an index: an [int], the text
    of a token, or [None]. *)
Inductive operand :=
| OInt (n : nat)
| OStr (s : string)
| ONone.

(** The calls received by the VM writer, in order. *)
Inductive vm_command :=
| write_push (segment : string) (index : operand)
| write_pop (segment : string) (index : operand)
| write_arithmetic (command : string)
| write_label (label : string)
| write_goto (label : string)
| write_if (label : string)
| write_call (name : string) (n_args : nat)
| write_function (name : string) (n_locals : nat)
| write_return.

Record state := State {
  input_tokenizer : list token;
  output_vm_writer : list vm_command;
  symbol_table : SymbolTable.t;
  class_name : string
}.

Inductive error := IndexError | KeyError | OutOfFuel.

Inductive result (A : Type) :=
| Ok (a : A) (s : state)
| Raise (e : error).
Arguments Ok {A} a s.
Arguments Raise {A} e.

Definition M (A : Type) : Type := state → result A.

Definition ret {A} (a : A) : M A := λ s, Ok a s.

Definition bind {A B} (m : M A) (k : A → M B) : M B :=
  λ s, match m s with
       | Ok a s' => k a s'
       | Raise e => Raise e
       end.

Notation "'let*' x ':=' m 'in' k" := (bind m (λ x, k))
  (at level 10, x name, m at level 100, k at level 200, only parsing).
Notation "m1 ';;;' m2" := (bind m1 (λ _, m2))
  (at level 100, m2 at level 200, right associativity, only parsing).

(** *** Class constants *)

Definition UNARY_OP_DICT : list (string * string) :=
  [("-", "neg"); ("~", "not"); ("^", "shiftleft"); ("#", "shiftright")].
Definition CALL_BINARY_OP_DICT : list (string * string) :=
  [("*", "Math.multiply"); ("/", "Math.divide")].
Definition ARITHMETIC_BINARY_OP_DICT : list (string * string) :=
  [("+", "add"); ("-", "sub"); ("&", "and"); ("|", "or"); ("<", "lt");
   (">", "gt"); ("=", "eq")].
Definition KEYWORD_CONSTANT : list string :=
  ["true"; "false"; "null"; "this"].
Definition VAR_DICT1 : list (string * string) :=
  [("var", "local"); ("arg", "argument")].
Definition VAR_DICT2 : list (string * string) :=
  [("field", "this"); ("static", "static")].
Definition ARGS : nat := 2.

(** [x in s] for a set (or the keys of a dict) of strings. *)
Definition mem (x : string) (s : list string) : bool :=
  existsb (String.eqb x) s.

Definition keys (d : list (string * string)) : list string := map fst d.

(** [d[k]], with [None] when [k] is not a key. *)
Fixpoint getitem (d : list (string * string)) (k : string) : option string :=
  match d with
  | [] => None
  | (k', v) :: d' => if String.eqb k k' then Some v else getitem d' k
  end.

(** [str.format] on an [int] and on a possibly-[None] string. *)
Definition format_int (n : nat) : string := pretty n.
Definition format_opt (o : option string) : string := default "None" o.

(** *** Token source and instruction sink *)

(** [tokens.pop(0)] raises [IndexError] on the empty list. *)
Definition advance : M string := λ s,
  match input_tokenizer s with
  | [] => Raise IndexError
  | tok :: rest =>
      Ok tok.2 (State rest (output_vm_writer s) (symbol_table s) (class_name s))
  end.

Definition next_token_tuple : M token := λ s,
  match input_tokenizer s with
  | [] => Raise IndexError
  | tok :: _ => Ok tok s
  end.

Definition next_token_type_in (types_set : list string) : M bool :=
  let* tok := next_token_tuple in ret (mem tok.1 types_set).

Definition next_token_value_in (values_set : list string) : M bool :=
  let* tok := next_token_tuple in ret (mem tok.2 values_set).

Definition emit (c : vm_command) : M unit := λ s,
  Ok tt (State (input_tokenizer s) (output_vm_writer s ++ [c])
               (symbol_table s) (class_name s)).

(** Reading from and updating the symbol table. *)
Definition table {A} (f : SymbolTable.t → A) : M A := λ s,
  Ok (f (symbol_table s)) s.

Definition update_table (f : SymbolTable.t → SymbolTable.t) : M unit := λ s,
  Ok tt (State (input_tokenizer s) (output_vm_writer s)
               (f (symbol_table s)) (class_name s)).

Definition get_class_name : M string := λ s, Ok (class_name s) s.

Definition set_class_name (name : string) : M unit := λ s,
  Ok tt (State (input_tokenizer s) (output_vm_writer s) (symbol_table s) name).

Definition raise {A} (e : error) : M A := λ _, Raise e.

Definition operand_of (o : option nat) : operand :=
  match o with
  | Some n => OInt n
  | None => ONone
  end.

(** *** Helpers that do not recurse *)

Definition write_pop_or_push (name : string)
    (method : string → operand → vm_command) : M unit :=
  let* kind := table (SymbolTable.kind_of name) in
  let* here := table (SymbolTable.current_symbol_table_contains name) in
  if here then
    match kind ≫= getitem VAR_DICT1 with
    | Some segment =>
        let* index := table (SymbolTable.index_of name) in
        emit (method segment (operand_of index))
    | None => ret tt
    end
  else
    match kind ≫= getitem VAR_DICT2 with
    | Some segment =>
        let* index := table (SymbolTable.index_of name) in
        emit (method segment (operand_of index))
    | None => ret tt
    end.

Definition write_pop_name (name : string) : M unit :=
  write_pop_or_push name write_pop.

Definition write_push_name (name : string) : M unit :=
  write_pop_or_push name write_push.

(** The [for char in string] loop of a string constant. *)
Fixpoint append_chars (s : string) : M unit :=
  match s with
  | EmptyString => ret tt
  | String char s' =>
      emit (write_push "constant" (OInt (Ascii.nat_of_ascii char))) ;;;
      emit (write_call "String.appendChar" ARGS) ;;;
      append_chars s'
  end.

Definition write_integer_string_keyword_constant : M unit :=
  let* is_int := next_token_type_in ["integerConstant"] in
  if is_int then
    let* number := advance in
    emit (write_push "constant" (OStr number))
  else
    let* is_string := next_token_type_in ["stringConstant"] in
    if is_string then
      let* string := advance in
      emit (write_push "constant" (OInt (String.length string))) ;;;
      emit (write_call "String.new" 1) ;;;
      append_chars string
    else
      let* is_keyword := next_token_value_in KEYWORD_CONSTANT in
      if is_keyword then
        let* keyword_constant := advance in
        if String.eqb keyword_constant "this" then
          emit (write_push "pointer" (OInt 0))
        else
          emit (write_push "constant" (OInt 0)) ;;;
          if String.eqb keyword_constant "true" then
            emit (write_arithmetic "not")
          else ret tt
      else ret tt.

Definition write_pointer_update (function_type : string) : M unit :=
  if String.eqb function_type "constructor" then
    let* n_args := table (SymbolTable.class_level_var_count "field") in
    emit (write_push "constant" (OInt n_args)) ;;;
    emit (write_call "Memory.alloc" 1) ;;;
    emit (write_pop "pointer" (OInt 0))
  else if String.eqb function_type "method" then
    emit (write_push "argument" (OInt 0)) ;;;
    emit (write_pop "pointer" (OInt 0))
  else ret tt.

Definition write_precise_subroutine_name (name : string)
  : M (nat * string) :=
  advance ;;;
  let* sub_name := advance in
  let* in_cur := table (SymbolTable.current_symbol_table_contains name) in
  let* in_class :=
    table (SymbolTable.class_level_symbol_table_contains name) in
  if in_cur || in_class then
    write_push_name name ;;;
    let* type := table (SymbolTable.type_of name) in
    ret (1, format_opt type ++ "." ++ sub_name)
  else
    ret (0, name ++ "." ++ sub_name).


(** [a or b] evaluates [b] only when [a] is false. *)
Definition or_else (a b : M bool) : M bool :=
  let* x := a in if x then ret true else b.

(** The keys of [__statements_dict]. *)
Definition statements_dict_keys : list string :=
  ["do"; "let"; "while"; "return"; "if"].

(** *** The recursive productions

    Python recursion and [while] loops are bounded by [fuel]; every call
    spends one unit. *)

#[warning="-non-full-mutual"] Fixpoint compile_statements (fuel : nat) : M unit :=
  match fuel with
  | 0 => raise OutOfFuel
  | S fuel =>
      let* more := next_token_value_in statements_dict_keys in
      if more then
        let* tok := next_token_tuple in
        (if String.eqb tok.2 "do" then compile_do fuel
         else if String.eqb tok.2 "let" then compile_let fuel
         else if String.eqb tok.2 "while" then compile_while fuel
         else if String.eqb tok.2 "return" then compile_return fuel
         else if String.eqb tok.2 "if" then compile_if fuel
         else raise KeyError) ;;;
        compile_statements fuel
      else ret tt
  end

with compile_do (fuel : nat) : M unit :=
  match fuel with
  | 0 => raise OutOfFuel
  | S fuel =>
      advance ;;;
      compile_subroutine_call fuel ;;;
      emit (write_pop "temp" (OInt 0)) ;;;
      advance ;;;
      ret tt
  end

with compile_let (fuel : nat) : M unit :=
  match fuel with
  | 0 => raise OutOfFuel
  | S fuel =>
      advance ;;;
      let* name := advance in
      let* is_array := write_left_square_bracket fuel name in
      advance ;;;
      compile_expression fuel ;;;
      (if is_array : bool then
         emit (write_pop "temp" (OInt 0)) ;;;
         emit (write_pop "pointer" (OInt 1)) ;;;
         emit (write_push "temp" (OInt 0)) ;;;
         emit (write_pop "that" (OInt 0))
       else write_pop_name name) ;;;
      advance ;;;
      ret tt
  end

with compile_while (fuel : nat) : M unit :=
  match fuel with
  | 0 => raise OutOfFuel
  | S fuel =>
      let* while_counter := table SymbolTable.get_while_counter in
      update_table SymbolTable.increment_while_counter ;;;
      let start_label := "WHILE_START" ++ format_int while_counter in
      let end_label := "WHILE_END" ++ format_int while_counter in
      emit (write_label start_label) ;;;
      advance ;;;
      advance ;;;
      compile_expression fuel ;;;
      emit (write_arithmetic "not") ;;;
      emit (write_if end_label) ;;;
      advance ;;;
      advance ;;;
      compile_statements fuel ;;;
      emit (write_goto start_label) ;;;
      emit (write_label end_label) ;;;
      advance ;;;
      ret tt
  end

with compile_return (fuel : nat) : M unit :=
  match fuel with
  | 0 => raise OutOfFuel
  | S fuel =>
      advance ;;;
      let* redundant_return := compile_return_while fuel true in
      (if redundant_return : bool then
         emit (write_push "constant" (OInt 0))
       else ret tt) ;;;
      emit write_return ;;;
      advance ;;;
      ret tt
  end

with compile_return_while (fuel : nat) (redundant_return : bool) : M bool :=
  match fuel with
  | 0 => raise OutOfFuel
  | S fuel =>
      let* more :=
        or_else
          (next_token_type_in
             ["integerConstant"; "stringConstant"; "identifier"])
          (next_token_value_in
             ("(" :: KEYWORD_CONSTANT ++ keys UNARY_OP_DICT)) in
      if more then
        compile_expression fuel ;;;
        compile_return_while fuel false
      else ret redundant_return
  end

with compile_if (fuel : nat) : M unit :=
  match fuel with
  | 0 => raise OutOfFuel
  | S fuel =>
      advance ;;;
      advance ;;;
      compile_expression fuel ;;;
      advance ;;;
      let* if_counter := table SymbolTable.get_if_counter in
      update_table SymbolTable.increment_if_counter ;;;
      let if_true_label := "IF_START" ++ format_int if_counter in
      let if_false_label := "ELSE" ++ format_int if_counter in
      emit (write_if if_true_label) ;;;
      emit (write_goto if_false_label) ;;;
      emit (write_label if_true_label) ;;;
      advance ;;;
      compile_statements fuel ;;;
      advance ;;;
      write_if_else fuel if_counter if_false_label
  end

with write_if_else (fuel : nat) (if_counter : nat) (if_false_label : string)
  : M unit :=
  match fuel with
  | 0 => raise OutOfFuel
  | S fuel =>
      let if_end_label := "IF_END" ++ format_int if_counter in
      let* has_else := next_token_value_in ["else"] in
      if has_else then
        emit (write_goto if_end_label) ;;;
        emit (write_label if_false_label) ;;;
        advance ;;;
        advance ;;;
        compile_statements fuel ;;;
        advance ;;;
        emit (write_label if_end_label)
      else
        emit (write_label if_false_label)
  end

with compile_expression (fuel : nat) : M unit :=
  match fuel with
  | 0 => raise OutOfFuel
  | S fuel =>
      compile_term fuel ;;;
      compile_expression_while fuel
  end

with compile_expression_while (fuel : nat) : M unit :=
  match fuel with
  | 0 => raise OutOfFuel
  | S fuel =>
      let* more :=
        next_token_value_in
          (keys CALL_BINARY_OP_DICT ++ keys ARITHMETIC_BINARY_OP_DICT) in
      if more then
        let* op := advance in
        compile_term fuel ;;;
        (if mem op (keys CALL_BINARY_OP_DICT) then
           match getitem CALL_BINARY_OP_DICT op with
           | Some routine => emit (write_call routine ARGS)
           | None => raise KeyError
           end
         else if mem op (keys ARITHMETIC_BINARY_OP_DICT) then
           match getitem ARITHMETIC_BINARY_OP_DICT op with
           | Some command => emit (write_arithmetic command)
           | None => raise KeyError
           end
         else ret tt) ;;;
        compile_expression_while fuel
      else ret tt
  end

with compile_term (fuel : nat) : M unit :=
  match fuel with
  | 0 => raise OutOfFuel
  | S fuel =>
      let* is_constant :=
        or_else (next_token_type_in ["integerConstant"; "stringConstant"])
                (next_token_value_in KEYWORD_CONSTANT) in
      if is_constant then write_integer_string_keyword_constant
      else
        let* is_identifier := next_token_type_in ["identifier"] in
        if is_identifier then write_identifier_term fuel
        else
          let* is_unary := next_token_value_in (keys UNARY_OP_DICT) in
          if is_unary then
            let* op := advance in
            compile_term fuel ;;;
            match getitem UNARY_OP_DICT op with
            | Some command => emit (write_arithmetic command)
            | None => raise KeyError
            end
          else
            let* is_paren := next_token_value_in ["("] in
            if is_paren then
              advance ;;;
              compile_expression fuel ;;;
              advance ;;;
              ret tt
            else ret tt
  end

with compile_expression_list (fuel : nat) : M nat :=
  match fuel with
  | 0 => raise OutOfFuel
  | S fuel =>
      let* nonempty :=
        or_else
          (next_token_type_in
             ["integerConstant"; "stringConstant"; "identifier"])
          (next_token_value_in
             ("(" :: KEYWORD_CONSTANT ++ keys UNARY_OP_DICT)) in
      let* args_counter :=
        (if nonempty then compile_expression fuel ;;; ret 1 else ret 0) in
      compile_expression_list_while fuel args_counter
  end

with compile_expression_list_while (fuel : nat) (args_counter : nat) : M nat :=
  match fuel with
  | 0 => raise OutOfFuel
  | S fuel =>
      let* more := next_token_value_in [","] in
      if more then
        advance ;;;
        compile_expression fuel ;;;
        compile_expression_list_while fuel (args_counter + 1)
      else ret args_counter
  end

with compile_subroutine_call (fuel : nat) : M unit :=
  match fuel with
  | 0 => raise OutOfFuel
  | S fuel =>
      let* name := advance in
      let* qualified := next_token_value_in ["."] in
      let* target :=
        (if qualified then write_precise_subroutine_name name
         else
           emit (write_push "pointer" (OInt 0)) ;;;
           let* cls := get_class_name in
           ret (1, cls ++ "." ++ name)) in
      advance ;;;
      let* n := compile_expression_list fuel in
      emit (write_call target.2 (target.1 + n)) ;;;
      advance ;;;
      ret tt
  end

with write_identifier_term (fuel : nat) : M unit :=
  match fuel with
  | 0 => raise OutOfFuel
  | S fuel =>
      let* name := advance in
      let* is_array := write_left_square_bracket fuel name in
      let* is_call := next_token_value_in ["("] in
      if is_call then
        emit (write_push "pointer" (OInt 0)) ;;;
        advance ;;;
        let* n := compile_expression_list fuel in
        advance ;;;
        let* cls := get_class_name in
        emit (write_call (cls ++ "." ++ name) (1 + n))
      else write_period_and_array_end fuel is_array name
  end

with write_period_and_array_end (fuel : nat) (is_array : bool) (name : string)
  : M unit :=
  match fuel with
  | 0 => raise OutOfFuel
  | S fuel =>
      let* qualified := next_token_value_in ["."] in
      if qualified then
        let* target := write_precise_subroutine_name name in
        advance ;;;
        let* n := compile_expression_list fuel in
        advance ;;;
        emit (write_call target.2 (target.1 + n))
      else if is_array then
        emit (write_pop "pointer" (OInt 1)) ;;;
        emit (write_push "that" (OInt 0))
      else write_push_name name
  end

with write_left_square_bracket (fuel : nat) (name : string) : M bool :=
  match fuel with
  | 0 => raise OutOfFuel
  | S fuel =>
      let* bracket := next_token_value_in ["["] in
      if bracket then
        advance ;;;
        compile_expression fuel ;;;
        advance ;;;
        write_push_name name ;;;
        emit (write_arithmetic "add") ;;;
        ret true
      else ret false
  end.


(** *** Declarations *)

Definition symbol_table_define (name type kind : string) : M unit :=
  update_table (SymbolTable.define name type kind).

Definition symbol_table_set_cur_level (name : string) : M unit := λ s,
  match SymbolTable.set_cur_level_symbol_table name (symbol_table s) with
  | Some tbl =>
      Ok tt (State (input_tokenizer s) (output_vm_writer s) tbl (class_name s))
  | None => Raise KeyError
  end.

(** The [while] loop shared, word for word, by [__compile_class_var_dec] and
    [__compile_var_dec]. *)
Fixpoint compile_var_dec_while (fuel : nat) (type kind : string) : M unit :=
  match fuel with
  | 0 => raise OutOfFuel
  | S fuel =>
      let* more := next_token_value_in [","] in
      if more then
        advance ;;;
        let* name := advance in
        symbol_table_define name type kind ;;;
        compile_var_dec_while fuel type kind
      else ret tt
  end.

Definition compile_class_var_dec (fuel : nat) : M unit :=
  let* kind := advance in
  let* type := advance in
  let* name := advance in
  symbol_table_define name type kind ;;;
  compile_var_dec_while fuel type kind ;;;
  advance ;;;
  ret tt.

Definition compile_var_dec (fuel : nat) : M unit :=
  let* kind := advance in
  let* type := advance in
  let* name := advance in
  symbol_table_define name type kind ;;;
  compile_var_dec_while fuel type kind ;;;
  advance ;;;
  ret tt.

Fixpoint compile_parameter_list_while (fuel : nat) : M unit :=
  match fuel with
  | 0 => raise OutOfFuel
  | S fuel =>
      let* close := next_token_value_in [")"] in
      if negb close then
        let* type := advance in
        let* name := advance in
        symbol_table_define name type "arg" ;;;
        let* comma := next_token_value_in [","] in
        (if comma then advance ;;; ret tt else ret tt) ;;;
        compile_parameter_list_while fuel
      else ret tt
  end.

Definition compile_parameter_list (fuel : nat) (function_type : string)
  : M unit :=
  (if String.eqb function_type "method" then
     symbol_table_define "this" "self" "arg"
   else ret tt) ;;;
  compile_parameter_list_while fuel.

Fixpoint compile_subroutine_body_while (fuel : nat) : M unit :=
  match fuel with
  | 0 => raise OutOfFuel
  | S fuel =>
      let* more := next_token_value_in ["var"] in
      if more then
        compile_var_dec fuel ;;;
        compile_subroutine_body_while fuel
      else ret tt
  end.

Definition compile_subroutine_body (fuel : nat)
    (function_type cur_name : string) : M unit :=
  advance ;;;
  compile_subroutine_body_while fuel ;;;
  let* n_locals := table (SymbolTable.subroutine_level_var_count "var") in
  emit (write_function cur_name n_locals) ;;;
  write_pointer_update function_type ;;;
  compile_statements fuel ;;;
  advance ;;;
  symbol_table_set_cur_level "class".

Definition compile_subroutine (fuel : nat) : M unit :=
  let* function_type := advance in
  advance ;;;
  let* sub_name := advance in
  let* cls := get_class_name in
  let cur_name := cls ++ "." ++ sub_name in
  update_table (SymbolTable.start_subroutine cur_name) ;;;
  symbol_table_set_cur_level cur_name ;;;
  advance ;;;
  compile_parameter_list fuel function_type ;;;
  advance ;;;
  compile_subroutine_body fuel function_type cur_name.

Fixpoint compile_class_var_decs (fuel : nat) : M unit :=
  match fuel with
  | 0 => raise OutOfFuel
  | S fuel =>
      let* more := next_token_value_in ["static"; "field"] in
      if more then
        compile_class_var_dec fuel ;;;
        compile_class_var_decs fuel
      else ret tt
  end.

Fixpoint compile_subroutines (fuel : nat) : M unit :=
  match fuel with
  | 0 => raise OutOfFuel
  | S fuel =>
      let* more :=
        next_token_value_in ["constructor"; "method"; "function"] in
      if more then
        compile_subroutine fuel ;;;
        compile_subroutines fuel
      else ret tt
  end.

Definition compile_class (fuel : nat) : M unit :=
  advance ;;;
  let* name := advance in
  set_class_name name ;;;
  advance ;;;
  compile_class_var_decs fuel ;;;
  compile_subroutines fuel ;;;
  advance ;;;
  ret tt.

(** A compilation starts from the token list, an empty output, a fresh
    symbol table and the empty class name of [__init__]. *)
Definition new (tokens : list token) : state :=
  State tokens [] SymbolTable.init "".

End CompilationEngine.

(** ** The Jack grammar

    The syntax the engine recognises, as given in the class comment of
    [JackTokenizer], the token list that spells a phrase, and the VM code a
    phrase stands for.  The engine itself never builds a tree; these
    definitions are what its runs are compared with. *)

Module Jack.

Import CompilationEngine.

Inductive term :=
| IntegerConstant (value : string)
| StringConstant (value : string)
| KeywordConstant (value : string)
| VarName (name : string)
| ArrayEntry (name : string) (index : expression)
| Call (c : subroutine_call)
| Parens (e : expression)
| Unary (op : string) (t : term)
with expression :=
| Expression (t : term) (rest : op_terms)
with op_terms :=
| NoOp
| OpTerm (op : string) (t : term) (rest : op_terms)
with subroutine_call :=
| Unqualified (name : string) (args : expression_list)
| Qualified (prefix sub_name : string) (args : expression_list)
with expression_list :=
| NoArgs
| Args (e : expression) (more : expression_list).

Inductive statement :=
| LetStatement (name : string) (e : expression)
| LetArrayStatement (name : string) (index e : expression)
| IfStatement (condition : expression) (body : statements)
| IfElseStatement (condition : expression) (body else_body : statements)
| WhileStatement (condition : expression) (body : statements)
| DoStatement (c : subroutine_call)
| ReturnStatement (e : option expression)
with statements :=
| NoStatement
| Statements (s : statement) (more : statements).

(** [var type name (, name)* ;] *)
Record var_dec := VarDec {
  vd_type : string;
  vd_name : string;
  vd_more : list string
}.

(** [kind return_type name ( parameters ) { locals body }], a parameter
    being the pair [(type, name)]. *)
Record subroutine_dec := SubroutineDec {
  sd_kind : string;
  sd_return_type : string;
  sd_name : string;
  sd_parameters : list (string * string);
  sd_locals : list var_dec;
  sd_body : statements
}.

(** *** Tokens *)

Definition KEYWORDS : list string :=
  ["class"; "constructor"; "function"; "method"; "field"; "static"; "var";
   "int"; "char"; "boolean"; "void"; "true"; "false"; "null"; "this"; "let";
   "do"; "if"; "else"; "while"; "return"].

Definition symbol (s : string) : token := ("symbol", s).
Definition keyword (s : string) : token := ("keyword", s).
Definition identifier (s : string) : token := ("identifier", s).

(** A word in a type position is a keyword ([int], [void], ...) or a class
    name. *)
Definition word (s : string) : token :=
  if mem s KEYWORDS then keyword s else identifier s.

Fixpoint term_tokens (t : term) : list token :=
  match t with
  | IntegerConstant v => [("integerConstant", v)]
  | StringConstant v => [("stringConstant", v)]
  | KeywordConstant v => [keyword v]
  | VarName x => [identifier x]
  | ArrayEntry x i =>
      identifier x :: symbol "[" :: expression_tokens i ++ [symbol "]"]
  | Call c => call_tokens c
  | Parens e => symbol "(" :: expression_tokens e ++ [symbol ")"]
  | Unary op t => symbol op :: term_tokens t
  end
with expression_tokens (e : expression) : list token :=
  match e with
  | Expression t rest => term_tokens t ++ op_terms_tokens rest
  end
with op_terms_tokens (r : op_terms) : list token :=
  match r with
  | NoOp => []
  | OpTerm op t rest => symbol op :: term_tokens t ++ op_terms_tokens rest
  end
with call_tokens (c : subroutine_call) : list token :=
  match c with
  | Unqualified name args =>
      identifier name :: symbol "(" :: args_tokens args ++ [symbol ")"]
  | Qualified x sub_name args =>
      identifier x :: symbol "." :: identifier sub_name :: symbol "("
        :: args_tokens args ++ [symbol ")"]
  end
with args_tokens (a : expression_list) : list token :=
  match a with
  | NoArgs => []
  | Args e more => expression_tokens e ++ more_args_tokens more
  end
with more_args_tokens (a : expression_list) : list token :=
  match a with
  | NoArgs => []
  | Args e more => symbol "," :: expression_tokens e ++ more_args_tokens more
  end.

Fixpoint statement_tokens (s : statement) : list token :=
  match s with
  | LetStatement x e =>
      keyword "let" :: identifier x :: symbol "="
        :: expression_tokens e ++ [symbol ";"]
  | LetArrayStatement x i e =>
      keyword "let" :: identifier x :: symbol "["
        :: expression_tokens i
        ++ symbol "]" :: symbol "=" :: expression_tokens e ++ [symbol ";"]
  | IfStatement c body =>
      keyword "if" :: symbol "(" :: expression_tokens c
        ++ symbol ")" :: symbol "{" :: statements_tokens body
        ++ [symbol "}"]
  | IfElseStatement c body else_body =>
      keyword "if" :: symbol "(" :: expression_tokens c
        ++ symbol ")" :: symbol "{" :: statements_tokens body
        ++ symbol "}" :: keyword "else" :: symbol "{"
        :: statements_tokens else_body ++ [symbol "}"]
  | WhileStatement c body =>
      keyword "while" :: symbol "(" :: expression_tokens c
        ++ symbol ")" :: symbol "{" :: statements_tokens body
        ++ [symbol "}"]
  | DoStatement c => keyword "do" :: call_tokens c ++ [symbol ";"]
  | ReturnStatement None => [keyword "return"; symbol ";"]
  | ReturnStatement (Some e) =>
      keyword "return" :: expression_tokens e ++ [symbol ";"]
  end
with statements_tokens (ss : statements) : list token :=
  match ss with
  | NoStatement => []
  | Statements s more => statement_tokens s ++ statements_tokens more
  end.

Fixpoint more_names_tokens (names : list string) : list token :=
  match names with
  | [] => []
  | x :: names => symbol "," :: identifier x :: more_names_tokens names
  end.

Definition var_dec_tokens (d : var_dec) : list token :=
  keyword "var" :: word (vd_type d) :: identifier (vd_name d)
    :: more_names_tokens (vd_more d) ++ [symbol ";"].

Fixpoint parameters_tokens (ps : list (string * string)) : list token :=
  match ps with
  | [] => []
  | [(type, name)] => [word type; identifier name]
  | (type, name) :: ps =>
      word type :: identifier name :: symbol "," :: parameters_tokens ps
  end.

Definition subroutine_tokens (d : subroutine_dec) : list token :=
  keyword (sd_kind d) :: word (sd_return_type d) :: identifier (sd_name d)
    :: symbol "(" :: parameters_tokens (sd_parameters d)
    ++ symbol ")" :: symbol "{"
    :: concat (map var_dec_tokens (sd_locals d))
    ++ statements_tokens (sd_body d) ++ [symbol "}"].


(** *** The code of a phrase

    What the VM writer receives for a phrase, by recursion on its syntax.
    The symbol table [tbl] resolves the names; [cls] is the name of the
    class being compiled. *)

(** A variable access: a subroutine-scope name goes to [local] or
    [argument], a class-scope name to [this] or [static]; a name that does
    not resolve yields no command. *)
Definition name_code (method : string → operand → vm_command)
    (tbl : SymbolTable.t) (name : string) : list vm_command :=
  if SymbolTable.current_symbol_table_contains name tbl then
    match SymbolTable.kind_of name tbl ≫= getitem VAR_DICT1 with
    | Some segment =>
        [method segment (operand_of (SymbolTable.index_of name tbl))]
    | None => []
    end
  else
    match SymbolTable.kind_of name tbl ≫= getitem VAR_DICT2 with
    | Some segment =>
        [method segment (operand_of (SymbolTable.index_of name tbl))]
    | None => []
    end.

Fixpoint chars_code (s : string) : list vm_command :=
  match s with
  | EmptyString => []
  | String char s' =>
      write_push "constant" (OInt (Ascii.nat_of_ascii char))
        :: write_call "String.appendChar" 2 :: chars_code s'
  end.

Definition keyword_code (value : string) : list vm_command :=
  if String.eqb value "this" then [write_push "pointer" (OInt 0)]
  else if String.eqb value "true" then
    [write_push "constant" (OInt 0); write_arithmetic "not"]
  else [write_push "constant" (OInt 0)].

Definition unary_code (op : string) : list vm_command :=
  match getitem UNARY_OP_DICT op with
  | Some command => [write_arithmetic command]
  | None => []
  end.

(** A binary operator is one arithmetic command, except [*] and [/], which
    are calls of two arguments. *)
Definition op_code (op : string) : list vm_command :=
  match getitem CALL_BINARY_OP_DICT op with
  | Some routine => [write_call routine 2]
  | None =>
      match getitem ARITHMETIC_BINARY_OP_DICT op with
      | Some command => [write_arithmetic command]
      | None => []
      end
  end.

Fixpoint args_count (a : expression_list) : nat :=
  match a with
  | NoArgs => 0
  | Args _ more => S (args_count more)
  end.

Section Code.

Variable cls : string.

Section Expressions.

Variable tbl : SymbolTable.t.

Fixpoint term_code (t : term) : list vm_command :=
  match t with
  | IntegerConstant v => [write_push "constant" (OStr v)]
  | StringConstant v =>
      write_push "constant" (OInt (String.length v))
        :: write_call "String.new" 1 :: chars_code v
  | KeywordConstant v => keyword_code v
  | VarName x => name_code write_push tbl x
  | ArrayEntry x i =>
      expression_code i ++ name_code write_push tbl x
        ++ [write_arithmetic "add"; write_pop "pointer" (OInt 1);
            write_push "that" (OInt 0)]
  | Call c => call_code c
  | Parens e => expression_code e
  | Unary op t => term_code t ++ unary_code op
  end
with expression_code (e : expression) : list vm_command :=
  match e with
  | Expression t rest => term_code t ++ op_terms_code rest
  end
with op_terms_code (r : op_terms) : list vm_command :=
  match r with
  | NoOp => []
  | OpTerm op t rest => term_code t ++ op_code op ++ op_terms_code rest
  end
with call_code (c : subroutine_call) : list vm_command :=
  match c with
  | Unqualified name args =>
      write_push "pointer" (OInt 0) :: args_code args
        ++ [write_call (cls ++ "." ++ name) (1 + args_count args)]
  | Qualified x sub_name args =>
      if SymbolTable.current_symbol_table_contains x tbl
         || SymbolTable.class_level_symbol_table_contains x tbl
      then
        name_code write_push tbl x ++ args_code args
          ++ [write_call (format_opt (SymbolTable.type_of x tbl)
                            ++ "." ++ sub_name)
                         (1 + args_count args)]
      else
        args_code args
          ++ [write_call (x ++ "." ++ sub_name) (0 + args_count args)]
  end
with args_code (a : expression_list) : list vm_command :=
  match a with
  | NoArgs => []
  | Args e more => expression_code e ++ args_code more
  end.

End Expressions.

(** Statements consume the label counters of the table, so their code comes
    with the table they leave behind. *)
Fixpoint statement_code (s : statement) (tbl : SymbolTable.t)
  : list vm_command * SymbolTable.t :=
  match s with
  | LetStatement x e =>
      ((expression_code tbl e ++ name_code write_pop tbl x)%list, tbl)
  | LetArrayStatement x i e =>
      ((expression_code tbl i ++ name_code write_push tbl x
          ++ write_arithmetic "add" :: expression_code tbl e
          ++ [write_pop "temp" (OInt 0); write_pop "pointer" (OInt 1);
              write_push "temp" (OInt 0); write_pop "that" (OInt 0)])%list,
       tbl)
  | IfStatement c body =>
      let n := format_int (SymbolTable.get_if_counter tbl) in
      let (body_code, tbl') :=
        statements_code body (SymbolTable.increment_if_counter tbl) in
      ((expression_code tbl c
          ++ write_if ("IF_START" ++ n) :: write_goto ("ELSE" ++ n)
          :: write_label ("IF_START" ++ n) :: body_code
          ++ [write_label ("ELSE" ++ n)])%list,
       tbl')
  | IfElseStatement c body else_body =>
      let n := format_int (SymbolTable.get_if_counter tbl) in
      let (body_code, tbl') :=
        statements_code body (SymbolTable.increment_if_counter tbl) in
      let (else_code, tbl'') := statements_code else_body tbl' in
      ((expression_code tbl c
          ++ write_if ("IF_START" ++ n) :: write_goto ("ELSE" ++ n)
          :: write_label ("IF_START" ++ n) :: body_code
          ++ write_goto ("IF_END" ++ n) :: write_label ("ELSE" ++ n)
          :: else_code ++ [write_label ("IF_END" ++ n)])%list,
       tbl'')
  | WhileStatement c body =>
      let n := format_int (SymbolTable.get_while_counter tbl) in
      let tbl1 := SymbolTable.increment_while_counter tbl in
      let (body_code, tbl') := statements_code body tbl1 in
      (write_label ("WHILE_START" ++ n) :: expression_code tbl1 c
         ++ write_arithmetic "not" :: write_if ("WHILE_END" ++ n)
         :: body_code
         ++ [write_goto ("WHILE_START" ++ n); write_label ("WHILE_END" ++ n)],
       tbl')
  | DoStatement c =>
      ((call_code tbl c ++ [write_pop "temp" (OInt 0)])%list, tbl)
  | ReturnStatement None =>
      ([write_push "constant" (OInt 0); write_return], tbl)
  | ReturnStatement (Some e) =>
      ((expression_code tbl e ++ [write_return])%list, tbl)
  end
with statements_code (ss : statements) (tbl : SymbolTable.t)
  : list vm_command * SymbolTable.t :=
  match ss with
  | NoStatement => ([], tbl)
  | Statements s more =>
      let (code, tbl') := statement_code s tbl in
      let (more_code, tbl'') := statements_code more tbl' in
      ((code ++ more_code)%list, tbl'')
  end.

End Code.

(** The labels a piece of code places. *)
Definition label_of (c : vm_command) : option string :=
  match c with
  | write_label l => Some l
  | _ => None
  end.

Definition labels (code : list vm_command) : list string :=
  omap label_of code.

(** The number of [if] and of [while] statements of a phrase, at any depth. *)
Fixpoint count_if (s : statement) : nat :=
  match s with
  | IfStatement _ body => 1 + count_ifs body
  | IfElseStatement _ body else_body =>
      1 + count_ifs body + count_ifs else_body
  | WhileStatement _ body => count_ifs body
  | _ => 0
  end
with count_ifs (ss : statements) : nat :=
  match ss with
  | NoStatement => 0
  | Statements s more => count_if s + count_ifs more
  end.

Fixpoint count_while (s : statement) : nat :=
  match s with
  | IfStatement _ body => count_whiles body
  | IfElseStatement _ body else_body =>
      count_whiles body + count_whiles else_body
  | WhileStatement _ body => 1 + count_whiles body
  | _ => 0
  end
with count_whiles (ss : statements) : nat :=
  match ss with
  | NoStatement => 0
  | Statements s more => count_while s + count_whiles more
  end.

(** *** The input contract

    An identifier token never carries a keyword constant; keyword constants
    and operators are the ones of the grammar. *)
Definition is_name (x : string) : bool := negb (mem x KEYWORD_CONSTANT).

Fixpoint term_ok (t : term) : bool :=
  match t with
  | IntegerConstant _ | StringConstant _ => true
  | KeywordConstant v => mem v KEYWORD_CONSTANT
  | VarName x => is_name x
  | ArrayEntry x i => is_name x && expression_ok i
  | Call c => call_ok c
  | Parens e => expression_ok e
  | Unary op t => mem op (keys UNARY_OP_DICT) && term_ok t
  end
with expression_ok (e : expression) : bool :=
  match e with
  | Expression t rest => term_ok t && op_terms_ok rest
  end
with op_terms_ok (r : op_terms) : bool :=
  match r with
  | NoOp => true
  | OpTerm op t rest =>
      mem op (keys CALL_BINARY_OP_DICT ++ keys ARITHMETIC_BINARY_OP_DICT)
      && term_ok t && op_terms_ok rest
  end
with call_ok (c : subroutine_call) : bool :=
  match c with
  | Unqualified name args => is_name name && args_ok args
  | Qualified x sub_name args => is_name x && args_ok args
  end
with args_ok (a : expression_list) : bool :=
  match a with
  | NoArgs => true
  | Args e more => expression_ok e && args_ok more
  end.

Fixpoint statement_ok (s : statement) : bool :=
  match s with
  | LetStatement _ e => expression_ok e
  | LetArrayStatement _ i e => expression_ok i && expression_ok e
  | IfStatement c body => expression_ok c && statements_ok body
  | IfElseStatement c body else_body =>
      expression_ok c && statements_ok body && statements_ok else_body
  | WhileStatement c body => expression_ok c && statements_ok body
  | DoStatement c => call_ok c
  | ReturnStatement None => true
  | ReturnStatement (Some e) => expression_ok e
  end
with statements_ok (ss : statements) : bool :=
  match ss with
  | NoStatement => true
  | Statements s more => statement_ok s && statements_ok more
  end.

(** *** The table and the code of a subroutine *)

Definition declare_receiver (kind : string) (tbl : SymbolTable.t)
  : SymbolTable.t :=
  if String.eqb kind "method" then SymbolTable.define "this" "self" "arg" tbl
  else tbl.

Definition declare_parameters (ps : list (string * string))
    (tbl : SymbolTable.t) : SymbolTable.t :=
  fold_left (λ t p, SymbolTable.define p.2 p.1 "arg" t) ps tbl.

Definition declare_var_dec (d : var_dec) (tbl : SymbolTable.t)
  : SymbolTable.t :=
  fold_left (λ t x, SymbolTable.define x (vd_type d) "var" t) (vd_more d)
    (SymbolTable.define (vd_name d) (vd_type d) "var" tbl).

Definition declare_locals (ds : list var_dec) (tbl : SymbolTable.t)
  : SymbolTable.t :=
  fold_left (λ t d, declare_var_dec d t) ds tbl.

(** The table once the parameter list is parsed, and once the local
    variables are declared. *)
Definition parameters_table (cls : string) (d : subroutine_dec)
    (tbl : SymbolTable.t) : SymbolTable.t :=
  declare_parameters (sd_parameters d)
    (declare_receiver (sd_kind d)
       (SymbolTable.entered (cls ++ "." ++ sd_name d) tbl)).

Definition body_table (cls : string) (d : subroutine_dec)
    (tbl : SymbolTable.t) : SymbolTable.t :=
  declare_locals (sd_locals d) (parameters_table cls d tbl).

(** What follows the [function] command, by the category of the
    subroutine. *)
Definition prologue_code (kind : string) (tbl : SymbolTable.t)
  : list vm_command :=
  if String.eqb kind "constructor" then
    [write_push "constant"
       (OInt (SymbolTable.class_level_var_count "field" tbl));
     write_call "Memory.alloc" 1; write_pop "pointer" (OInt 0)]
  else if String.eqb kind "method" then
    [write_push "argument" (OInt 0); write_pop "pointer" (OInt 0)]
  else [].

Definition subroutine_code (cls : string) (d : subroutine_dec)
    (tbl : SymbolTable.t) : list vm_command :=
  let body := body_table cls d tbl in
  write_function (cls ++ "." ++ sd_name d)
    (SymbolTable.subroutine_level_var_count "var" body)
    :: (prologue_code (sd_kind d) body
        ++ (statements_code cls (sd_body d) body).1)%list.

(** The table a subroutine leaves behind: the class-level dict is current
    again. *)
Definition subroutine_table (cls : string) (d : subroutine_dec)
    (tbl : SymbolTable.t) : SymbolTable.t :=
  let tbl' := (statements_code cls (sd_body d) (body_table cls d tbl)).2 in
  SymbolTable.set_cur_symbol_table
    (SymbolTable.class_level_symbol_table tbl') tbl'.

(** No parameter type is spelled [)]. *)
Definition parameters_ok (ps : list (string * string)) : bool :=
  forallb (λ p, negb (mem p.1 [")"])) ps.

(** The arguments and the operator-term pairs of an expression, as lists. *)
Fixpoint args_list (a : expression_list) : list expression :=
  match a with
  | NoArgs => []
  | Args e more => e :: args_list more
  end.

Fixpoint op_terms_list (r : op_terms) : list (string * term) :=
  match r with
  | NoOp => []
  | OpTerm op t rest => (op, t) :: op_terms_list rest
  end.

Fixpoint op_terms_of (l : list (string * term)) : op_terms :=
  match l with
  | [] => NoOp
  | (op, t) :: l => OpTerm op t (op_terms_of l)
  end.

(** *** Segments and labels *)

(** The segment of a kind: [var] is [local], [arg] is [argument], [field] is
    [this] and [static] is [static]. *)
Definition segment_of (kind : string) : option string :=
  if String.eqb kind "var" then Some "local"
  else if String.eqb kind "arg" then Some "argument"
  else if String.eqb kind "field" then Some "this"
  else if String.eqb kind "static" then Some "static"
  else None.

(** A label is a prefix and the value of the counter it was made from. *)
Inductive label_kind := IfStart | IfElse | IfEnd | WhileStart | WhileEnd.

Definition label_prefix (k : label_kind) : string :=
  match k with
  | IfStart => "IF_START"
  | IfElse => "ELSE"
  | IfEnd => "IF_END"
  | WhileStart => "WHILE_START"
  | WhileEnd => "WHILE_END"
  end.

Definition label_name (l : label_kind * nat) : string :=
  label_prefix l.1 ++ format_int l.2.

Definition is_if_label (k : label_kind) : bool :=
  match k with
  | IfStart | IfElse | IfEnd => true
  | WhileStart | WhileEnd => false
  end.

Fixpoint statement_labels (s : statement) (i w : nat)
  : list (label_kind * nat) :=
  match s with
  | IfStatement _ body =>
      (IfStart, i) :: statements_labels body (S i) w ++ [(IfElse, i)]
  | IfElseStatement _ body else_body =>
      (IfStart, i) :: statements_labels body (S i) w
        ++ (IfElse, i)
        :: statements_labels else_body
             (S i + count_ifs body)%nat (w + count_whiles body)%nat
        ++ [(IfEnd, i)]
  | WhileStatement _ body =>
      (WhileStart, w) :: statements_labels body i (S w) ++ [(WhileEnd, w)]
  | _ => []
  end
with statements_labels (ss : statements) (i w : nat)
  : list (label_kind * nat) :=
  match ss with
  | NoStatement => []
  | Statements s more =>
      (statement_labels s i w
         ++ statements_labels more
              (i + count_if s)%nat (w + count_while s)%nat)%list
  end.


(** *** Runs of the engine

    The engine run on the tokens of a phrase, with enough fuel, consumes
    exactly these tokens and sends the code of the phrase to the writer.
    The token [(ty, v)] that follows must not continue the phrase. *)

Definition term_follow (v : string) : Prop :=
  mem v ["["] = false ∧ mem v ["("] = false ∧ mem v ["."] = false.

Definition expression_follow (v : string) : Prop :=
  term_follow v
  ∧ mem v (keys CALL_BINARY_OP_DICT ++ keys ARITHMETIC_BINARY_OP_DICT) = false.

Definition statements_follow (v : string) : Prop :=
  mem v statements_dict_keys = false ∧ mem v ["else"] = false.

(** The test by which [__compile_return] and [__compile_expression_list]
    decide that an expression starts. *)
Definition starts_expression : M bool :=
  or_else
    (next_token_type_in ["integerConstant"; "stringConstant"; "identifier"])
    (next_token_value_in ("(" :: KEYWORD_CONSTANT ++ keys UNARY_OP_DICT)).

(** The production a statement is compiled by. *)
Definition handler (s : statement) : nat → M unit :=
  match s with
  | LetStatement _ _ | LetArrayStatement _ _ _ => compile_let
  | IfStatement _ _ | IfElseStatement _ _ _ => compile_if
  | WhileStatement _ _ => compile_while
  | DoStatement _ => compile_do
  | ReturnStatement _ => compile_return
  end.

Definition term_runs (t : term) : Prop :=
  term_ok t = true →
  ∃ n, ∀ fuel ty v rest out tbl cls,
    (n ≤ fuel)%nat → term_follow v →
    compile_term fuel
      (State (term_tokens t ++ (ty, v) :: rest) out tbl cls)
    = Ok tt (State ((ty, v) :: rest) (out ++ term_code cls tbl t) tbl cls).

Definition expression_runs (e : expression) : Prop :=
  expression_ok e = true →
  ∃ n, ∀ fuel ty v rest out tbl cls,
    (n ≤ fuel)%nat → expression_follow v →
    compile_expression fuel
      (State (expression_tokens e ++ (ty, v) :: rest) out tbl cls)
    = Ok tt (State ((ty, v) :: rest)
               (out ++ expression_code cls tbl e) tbl cls).

Definition op_terms_run (r : op_terms) : Prop :=
  op_terms_ok r = true →
  ∃ n, ∀ fuel ty v rest out tbl cls,
    (n ≤ fuel)%nat → expression_follow v →
    compile_expression_while fuel
      (State (op_terms_tokens r ++ (ty, v) :: rest) out tbl cls)
    = Ok tt (State ((ty, v) :: rest)
               (out ++ op_terms_code cls tbl r) tbl cls).

Definition call_runs (c : subroutine_call) : Prop :=
  call_ok c = true →
  ∃ n, ∀ fuel rest out tbl cls,
    (n ≤ fuel)%nat →
    compile_subroutine_call fuel
      (State (call_tokens c ++ rest) out tbl cls)
    = Ok tt (State rest (out ++ call_code cls tbl c) tbl cls)
    ∧ compile_term fuel (State (call_tokens c ++ rest) out tbl cls)
      = Ok tt (State rest (out ++ call_code cls tbl c) tbl cls).

Definition args_run (a : expression_list) : Prop :=
  args_ok a = true →
  ∃ n, ∀ fuel rest out tbl cls,
    (n ≤ fuel)%nat →
    compile_expression_list fuel
      (State (args_tokens a ++ ("symbol", ")") :: rest) out tbl cls)
    = Ok (args_count a)
         (State (("symbol", ")") :: rest)
            (out ++ args_code cls tbl a) tbl cls)
    ∧ ∀ k, compile_expression_list_while fuel k
             (State (more_args_tokens a ++ ("symbol", ")") :: rest)
                out tbl cls)
           = Ok (k + args_count a)%nat
                (State (("symbol", ")") :: rest)
                   (out ++ args_code cls tbl a) tbl cls).

Definition statement_runs (s : statement) : Prop :=
  statement_ok s = true →
  ∃ n, ∀ fuel ty v rest out tbl cls,
    (n ≤ fuel)%nat → mem v ["else"] = false →
    handler s fuel
      (State (statement_tokens s ++ (ty, v) :: rest) out tbl cls)
    = Ok tt (State ((ty, v) :: rest)
               (out ++ (statement_code cls s tbl).1)
               (statement_code cls s tbl).2 cls).

Definition statements_run (ss : statements) : Prop :=
  statements_ok ss = true →
  ∃ n, ∀ fuel ty v rest out tbl cls,
    (n ≤ fuel)%nat → statements_follow v →
    compile_statements fuel
      (State (statements_tokens ss ++ (ty, v) :: rest) out tbl cls)
    = Ok tt (State ((ty, v) :: rest)
               (out ++ (statements_code cls ss tbl).1)
               (statements_code cls ss tbl).2 cls).

Scheme term_mut := Induction for term Sort Prop
with expression_mut := Induction for expression Sort Prop
with op_terms_mut := Induction for op_terms Sort Prop
with call_mut := Induction for subroutine_call Sort Prop
with args_mut := Induction for expression_list Sort Prop.

Combined Scheme syntax_mutind
  from term_mut, expression_mut, op_terms_mut, call_mut, args_mut.

Scheme statement_mut := Induction for statement Sort Prop
with statements_mut := Induction for statements Sort Prop.

Combined Scheme statements_mutind from statement_mut, statements_mut.

(** *** Examples *)

(** An example: inside [method void run(int n) { var Game g; }] of a class
    [Main] with a field [game]. *)
Definition example_table : SymbolTable.t :=
  body_table "Main"
    (SubroutineDec "method" "void" "run" [("int", "n")]
       [VarDec "Game" "g" []] NoStatement)
    (SymbolTable.define "game" "Game" "field" SymbolTable.init).

(** [if (a) { while (b) { if (c) { } else { } } } while (d) { }] *)
Definition example_statements : statements :=
  let var x := Expression (VarName x) NoOp in
  Statements
    (IfStatement (var "a")
       (Statements
          (WhileStatement (var "b")
             (Statements
                (IfElseStatement (var "c") NoStatement NoStatement)
                NoStatement))
          NoStatement))
    (Statements (WhileStatement (var "d") NoStatement) NoStatement).

(** [constructor Point new(int ax, int ay) { let x = ax; let y = ay;
    return this; }] in a class with the fields [x] and [y]. *)
Definition example_constructor : subroutine_dec :=
  SubroutineDec "constructor" "Point" "new" [("int", "ax"); ("int", "ay")] []
    (Statements (LetStatement "x" (Expression (VarName "ax") NoOp))
       (Statements (LetStatement "y" (Expression (VarName "ay") NoOp))
          (Statements
             (ReturnStatement (Some (Expression (KeywordConstant "this") NoOp)))
             NoStatement))).

Definition example_class_table : SymbolTable.t :=
  SymbolTable.define "y" "int" "field"
    (SymbolTable.define "x" "int" "field" SymbolTable.init).

(** [method int scale(int k, Point other) { return k; }] *)
Definition example_method : subroutine_dec :=
  SubroutineDec "method" "int" "scale" [("int", "k"); ("Point", "other")] []
    (Statements
       (ReturnStatement (Some (Expression (VarName "other") NoOp)))
       NoStatement).

End Jack.

(** ** Classes

    The syntax of a whole class, the tokens that spell it and the code the
    engine is to emit for it. *)

Module JackClass.

Import CompilationEngine Jack.

(** [kind type name (, name)* ;] with [kind] one of [static] and [field]. *)
Record class_var_dec := ClassVarDec {
  cvd_kind : string;
  cvd_type : string;
  cvd_name : string;
  cvd_more : list string
}.

(** [class name { class_var_dec* subroutine_dec* }] *)
Record class_dec := ClassDec {
  cd_name : string;
  cd_vars : list class_var_dec;
  cd_subroutines : list subroutine_dec
}.

Definition class_var_dec_tokens (d : class_var_dec) : list token :=
  keyword (cvd_kind d) :: word (cvd_type d) :: identifier (cvd_name d)
    :: (more_names_tokens (cvd_more d) ++ [symbol ";"])%list.

Definition class_tokens (c : class_dec) : list token :=
  keyword "class" :: identifier (cd_name c) :: symbol "{"
    :: (concat (map class_var_dec_tokens (cd_vars c))
        ++ concat (map subroutine_tokens (cd_subroutines c))
        ++ [symbol "}"])%list.

(** The names a declaration list declares, each with its type, in
    declaration order. *)
Definition var_dec_names (d : var_dec) : list (string * string) :=
  (vd_type d, vd_name d) :: map (λ x, (vd_type d, x)) (vd_more d).

Definition local_names (ds : list var_dec) : list (string * string) :=
  concat (map var_dec_names ds).

Definition class_var_dec_names (d : class_var_dec)
  : list (string * string * string) :=
  (cvd_kind d, cvd_type d, cvd_name d)
    :: map (λ x, (cvd_kind d, cvd_type d, x)) (cvd_more d).

Definition class_var_names (ds : list class_var_dec)
  : list (string * string * string) :=
  concat (map class_var_dec_names ds).

(** How many of the declared names have the kind [k]. *)
Definition count_kind_names (k : string)
    (defs : list (string * string * string)) : nat :=
  length (filter (λ p, p.1.1 = k) defs).

(** The table after the class-level declarations. *)
Definition declare_class_var_dec (d : class_var_dec) (tbl : SymbolTable.t)
  : SymbolTable.t :=
  fold_left (λ t x, SymbolTable.define x (cvd_type d) (cvd_kind d) t)
    (cvd_more d)
    (SymbolTable.define (cvd_name d) (cvd_type d) (cvd_kind d) tbl).

Definition declare_class_vars (ds : list class_var_dec) (tbl : SymbolTable.t)
  : SymbolTable.t :=
  fold_left (λ t d, declare_class_var_dec d t) ds tbl.

(** The code of the subroutines of a class, in order; every subroutine is
    compiled in the table its predecessor leaves behind. *)
Fixpoint subroutines_code (cls : string) (ds : list subroutine_dec)
    (tbl : SymbolTable.t) : list vm_command * SymbolTable.t :=
  match ds with
  | [] => ([], tbl)
  | d :: ds =>
      let (more, tbl') := subroutines_code cls ds (subroutine_table cls d tbl) in
      ((subroutine_code cls d tbl ++ more)%list, tbl')
  end.

Definition class_code (c : class_dec) (tbl : SymbolTable.t)
  : list vm_command * SymbolTable.t :=
  subroutines_code (cd_name c) (cd_subroutines c)
    (declare_class_vars (cd_vars c) tbl).

(** The input contract of a class: the declarations start with the keywords
    the loops of [compile_class] test for, and the subroutines are
    grammatical. *)
Definition subroutine_ok (d : subroutine_dec) : bool :=
  mem (sd_kind d) ["constructor"; "method"; "function"]
  && parameters_ok (sd_parameters d) && statements_ok (sd_body d).

Definition class_ok (c : class_dec) : bool :=
  forallb (λ d, mem (cvd_kind d) ["static"; "field"]) (cd_vars c)
  && forallb subroutine_ok (cd_subroutines c).

(** Two tables in which every lookup gives the same answer and every
    definition gets the same index. *)
Definition lookup_equiv (tbl tbl' : SymbolTable.t) : Prop :=
  SymbolTable.wf tbl ∧ SymbolTable.wf tbl'
  ∧ SymbolTable.dict_at tbl (SymbolTable.cur_symbol_table tbl)
    = SymbolTable.dict_at tbl' (SymbolTable.cur_symbol_table tbl')
  ∧ SymbolTable.dict_at tbl (SymbolTable.class_level_symbol_table tbl)
    = SymbolTable.dict_at tbl' (SymbolTable.class_level_symbol_table tbl')
  ∧ (SymbolTable.cur_symbol_table tbl = SymbolTable.class_level_symbol_table tbl
     ↔ SymbolTable.cur_symbol_table tbl'
       = SymbolTable.class_level_symbol_table tbl')
  ∧ SymbolTable.static_counter tbl = SymbolTable.static_counter tbl'
  ∧ SymbolTable.field_counter tbl = SymbolTable.field_counter tbl'
  ∧ SymbolTable.arg_counter tbl = SymbolTable.arg_counter tbl'
  ∧ SymbolTable.var_counter tbl = SymbolTable.var_counter tbl'
  ∧ SymbolTable.if_counter tbl = SymbolTable.if_counter tbl'
  ∧ SymbolTable.while_counter tbl = SymbolTable.while_counter tbl'.

(** Two tables with the same class scope: the same class-level symbols and
    the same [static] and [field] counters. *)
Definition class_equiv (tbl tbl' : SymbolTable.t) : Prop :=
  SymbolTable.wf tbl ∧ SymbolTable.wf tbl'
  ∧ SymbolTable.dict_at tbl (SymbolTable.class_level_symbol_table tbl)
    = SymbolTable.dict_at tbl' (SymbolTable.class_level_symbol_table tbl')
  ∧ SymbolTable.static_counter tbl = SymbolTable.static_counter tbl'
  ∧ SymbolTable.field_counter tbl = SymbolTable.field_counter tbl'.

(** The targets of the jumps of a piece of code. *)
Definition target_of (c : vm_command) : option string :=
  match c with
  | write_goto l | write_if l => Some l
  | _ => None
  end.

Definition targets (code : list vm_command) : list string :=
  omap target_of code.

(** [function int sum(int a, int b) { var int s, t; var boolean f;
      let s = a + b; return s; }] *)
Definition example_function : subroutine_dec :=
  SubroutineDec "function" "int" "sum" [("int", "a"); ("int", "b")]
    [VarDec "int" "s" ["t"]; VarDec "boolean" "f" []]
    (Statements
       (LetStatement "s"
          (Expression (VarName "a") (OpTerm "+" (VarName "b") NoOp)))
       (Statements
          (ReturnStatement (Some (Expression (VarName "s") NoOp)))
          NoStatement)).

(** [function void run() { ... }] with the statements of
    [example_statements]. *)
Definition example_procedure : subroutine_dec :=
  SubroutineDec "function" "void" "run" [] [] example_statements.

(** [class Point { field int x, y; static int count;
      constructor Point new(int ax, int ay) { ... }
      method int scale(int k, Point other) { ... } }] *)
Definition example_class : class_dec :=
  ClassDec "Point"
    [ClassVarDec "field" "int" "x" ["y"]; ClassVarDec "static" "int" "count" []]
    [example_constructor; example_method].

End JackClass.

(** ** Assertions on the runs of the engine *)

Module Hoare.

Import CompilationEngine.

(** When [m], started in a state that satisfies [P], returns normally, its
    value and final state satisfy [Q]. *)
Definition hoare {A} (P : state → Prop) (m : M A) (Q : A → state → Prop)
  : Prop :=
  ∀ s a s', P s → m s = Ok a s' → Q a s'.

(** The output only grows and the input is only consumed. *)
Definition appends (s s' : state) : Prop :=
  (∃ code, output_vm_writer s' = (output_vm_writer s ++ code)%list)
  ∧ (∃ toks, input_tokenizer s = (toks ++ input_tokenizer s')%list).

(** What an expression leaves as it was: the symbol table and the class
    name. *)
Definition expression_frame (s s' : state) : Prop :=
  appends s s'
  ∧ symbol_table s' = symbol_table s
  ∧ class_name s' = class_name s.

(** Two tables that differ at most in the label counters, which have not
    decreased. *)
Definition same_scopes (tbl tbl' : SymbolTable.t) : Prop :=
  SymbolTable.store tbl' = SymbolTable.store tbl
  ∧ SymbolTable.class_level_symbol_table tbl'
    = SymbolTable.class_level_symbol_table tbl
  ∧ SymbolTable.subroutine_symbol_table tbl'
    = SymbolTable.subroutine_symbol_table tbl
  ∧ SymbolTable.cur_symbol_table tbl' = SymbolTable.cur_symbol_table tbl
  ∧ SymbolTable.static_counter tbl' = SymbolTable.static_counter tbl
  ∧ SymbolTable.field_counter tbl' = SymbolTable.field_counter tbl
  ∧ SymbolTable.arg_counter tbl' = SymbolTable.arg_counter tbl
  ∧ SymbolTable.var_counter tbl' = SymbolTable.var_counter tbl
  ∧ (SymbolTable.if_counter tbl ≤ SymbolTable.if_counter tbl')%nat
  ∧ (SymbolTable.while_counter tbl ≤ SymbolTable.while_counter tbl')%nat.

Definition statement_frame (s s' : state) : Prop :=
  appends s s'
  ∧ same_scopes (symbol_table s) (symbol_table s')
  ∧ class_name s' = class_name s.

(** [m], started in [s], returns normally with a value and a state that
    satisfy [Q], or it raises [IndexError]: it neither raises [KeyError]
    nor runs out of fuel. *)
Definition wp {A} (m : M A) (Q : A → state → Prop) (s : state) : Prop :=
  match m s with
  | Ok a s' => Q a s'
  | Raise e => e = IndexError
  end.

(** The number of tokens left. *)
Definition len (s : state) : nat := length (input_tokenizer s).

(** The test by which the engine decides that an expression starts, on the
    type and the value of the next token. *)
Definition starts (s : state) : Prop :=
  ∃ ty v rest,
    input_tokenizer s = (ty, v) :: rest
    ∧ (mem ty ["integerConstant"; "stringConstant"; "identifier"] = true
       ∨ mem v ("(" :: KEYWORD_CONSTANT ++ keys UNARY_OP_DICT) = true).

(** What a production does to the input: it consumes tokens, at least one
    ([consumes]), or at least one when an expression starts
    ([consumes_start]). *)
Definition shrinks (s : state) {A} (_ : A) (s' : state) : Prop :=
  (len s' ≤ len s)%nat.

Definition consumes (s : state) {A} (_ : A) (s' : state) : Prop :=
  (len s' < len s)%nat.

Definition consumes_start (s : state) {A} (_ : A) (s' : state) : Prop :=
  (len s' ≤ len s)%nat ∧ (starts s → (len s' < len s)%nat).

(** The next token exists and its value is none of [values]. *)
Definition stops_before (values : list string) (s : state) : Prop :=
  ∃ tok rest, input_tokenizer s = tok :: rest ∧ mem tok.2 values = false.

(** [m] keeps the relation [R] between the state it starts in and the state
    it returns in. *)
Definition keeps {A} (R : state → state → Prop) (m : M A) : Prop :=
  ∀ s a s', m s = Ok a s' → R s s'.

End Hoare.

(** * Properties *)

Open Scope nat_scope.
Open Scope list_scope.

(** ** The symbol table *)

(** Decide the equalities between kinds that a goal tests. *)
Ltac str_decide :=
  repeat match goal with
  | |- context [decide ?P] =>
      first
        [ rewrite (decide_True (P:=P)) by (first [done | by left | by right])
        | rewrite (decide_False (P:=P)) by (first [done | by intros [?|?]]) ]
  | H : context [decide ?P] |- _ =>
      first
        [ rewrite (decide_True (P:=P)) in H
            by (first [done | by left | by right])
        | rewrite (decide_False (P:=P)) in H
            by (first [done | by intros [?|?]]) ]
  end.

Section SymbolTableFacts.

Import SymbolTable.

Lemma dict_at_setitem a b x e tbl :
  a < length (store tbl) →
  dict_at (setitem a x e tbl) b
  = if decide (a = b) then <[x := e]> (dict_at tbl a) else dict_at tbl b.
Proof.
  intros Ha. unfold dict_at, setitem. cbn [store].
  case_decide as Hab.
  - subst b. by rewrite list_lookup_insert_eq.
  - by rewrite list_lookup_insert_ne.
Qed.

(** The engine names a subroutine [Class.name], never "class". *)
Lemma qualified_name_not_class cls sub : cls +:+ "." +:+ sub ≠ "class".
Proof.
  intros H.
  destruct cls as [|c1 [|c2 [|c3 [|c4 [|c5 [|c6 cls]]]]]]; discriminate H.
Qed.

Lemma wf_init : wf init.
Proof. split; cbn; lia. Qed.

Lemma wf_setitem a x e tbl : wf tbl → wf (setitem a x e tbl).
Proof. intros [? ?]. split; cbn; by rewrite length_insert. Qed.

Lemma wf_define x ty k tbl : wf tbl → wf (define x ty k tbl).
Proof.
  intros H. unfold define.
  repeat case_decide; try done; by apply wf_setitem.
Qed.

Lemma wf_entered name tbl : wf tbl → wf (entered name tbl).
Proof. intros [? ?]. split; cbn; rewrite length_app; cbn; lia. Qed.

Lemma set_cur_level_entered cls sub tbl :
  set_cur_level_symbol_table (cls +:+ "." +:+ sub)
    (start_subroutine (cls +:+ "." +:+ sub) tbl)
  = Some (entered (cls +:+ "." +:+ sub) tbl).
Proof.
  unfold set_cur_level_symbol_table.
  rewrite decide_False by apply qualified_name_not_class.
  cbn [start_subroutine subroutine_symbol_table].
  by rewrite lookup_insert_eq.
Qed.

Lemma dict_at_entered_new name tbl :
  dict_at (entered name tbl) (cur_symbol_table (entered name tbl)) = ∅.
Proof. unfold dict_at. cbn. by rewrite lookup_app_r, Nat.sub_diag. Qed.

Lemma dict_at_entered_old name tbl a :
  a < length (store tbl) → dict_at (entered name tbl) a = dict_at tbl a.
Proof. intros Ha. unfold dict_at. cbn. by rewrite lookup_app_l. Qed.

Lemma run_op_enter name tbl :
  run_op (Enter name) tbl
  = Some (set_cur_symbol_table
            (if decide (name = "class") then class_level_symbol_table tbl
             else length (store tbl))
            (start_subroutine name tbl)).
Proof.
  cbn [run_op]. unfold set_cur_level_symbol_table.
  case_decide; [done|].
  cbn [start_subroutine subroutine_symbol_table].
  by rewrite lookup_insert_eq.
Qed.

Lemma wf_run_op o tbl tbl' : wf tbl → run_op o tbl = Some tbl' → wf tbl'.
Proof.
  intros [H1 H2]. destruct o as [x ty k|name].
  - intros [= <-]. by apply wf_define.
  - rewrite run_op_enter. intros [= <-].
    split; cbn; rewrite length_app; cbn; [lia|]. case_decide; lia.
Qed.

Lemma dict_at_define x ty k tbl a :
  wf tbl →
  dict_at (define x ty k tbl) a
  = match define_target k tbl with
    | Some (b, i) =>
        if decide (b = a) then <[x := Entry ty k i]> (dict_at tbl b)
        else dict_at tbl a
    | None => dict_at tbl a
    end.
Proof.
  intros [H1 H2]. unfold define, define_target.
  repeat case_decide; try done.
  all: match goal with
       | |- context [dict_at (_ (setitem ?b ?y ?e ?t)) ?c] =>
           change (dict_at (_ (setitem b y e t)) c)
             with (dict_at (setitem b y e t) c)
       end.
  all: rewrite dict_at_setitem by done; by repeat case_decide.
Qed.

Lemma define_addresses x ty k tbl :
  cur_symbol_table (define x ty k tbl) = cur_symbol_table tbl
  ∧ class_level_symbol_table (define x ty k tbl)
    = class_level_symbol_table tbl.
Proof. unfold define. by repeat case_decide. Qed.

Lemma dict_at_define_cases x ty k tbl a :
  wf tbl →
  dict_at (define x ty k tbl) a = dict_at tbl a
  ∨ ∃ e, dict_at (define x ty k tbl) a = <[x := e]> (dict_at tbl a).
Proof.
  intros Hwf. rewrite dict_at_define by done.
  destruct (define_target k tbl) as [[b i]|]; [|by left].
  case_decide; [subst; right; by eexists|by left].
Qed.

(** *** Histories *)

Lemma run_app ops1 ops2 tbl :
  run (ops1 ++ ops2) tbl = run ops1 tbl ≫= run ops2.
Proof.
  revert tbl. induction ops1 as [|o ops1 IH]; intros tbl; cbn; [done|].
  destruct (run_op o tbl); cbn; [apply IH|done].
Qed.

Lemma run_total ops tbl : is_Some (run ops tbl).
Proof.
  revert tbl. induction ops as [|o ops IH]; intros tbl; cbn; [done|].
  destruct o as [x ty k|name]; [cbn; apply IH|].
  rewrite run_op_enter. cbn. apply IH.
Qed.

Lemma since_enter_snoc ops o :
  since_enter (ops ++ [o])
  = if is_enter o then [] else since_enter ops ++ [o].
Proof. unfold since_enter. by rewrite fold_left_app. Qed.

Lemma count_defines_snoc kind ops o :
  count_defines kind (ops ++ [o])
  = count_defines kind ops + (if defines kind o then 1 else 0).
Proof.
  unfold count_defines. rewrite filter_app, length_app. f_equal.
  rewrite filter_cons, filter_nil. destruct (defines kind o); case_decide; done.
Qed.

Lemma defined_names_snoc ops o :
  defined_names (ops ++ [o])
  = defined_names ops
    ++ match defined_name o with Some x => [x] | None => [] end.
Proof. unfold defined_names. rewrite omap_app. f_equal. Qed.

Lemma inv_init : inv [] init.
Proof.
  split; try done; try apply wf_init.
  all: intros x; unfold dict_at; cbn; rewrite lookup_empty; by intros [? ?].
Qed.

Lemma inv_step ops tbl o tbl' :
  inv ops tbl → run_op o tbl = Some tbl' → inv (ops ++ [o]) tbl'.
Proof.
  intros [Hwf Hcur Hclass Hs Hf Ha Hv] Hrun.
  pose proof (wf_run_op _ _ _ Hwf Hrun) as Hwf'.
  destruct o as [x ty k|name].
  - cbn [run_op] in Hrun. injection Hrun as <-.
    destruct (define_addresses x ty k tbl) as [Hcurs Hcls].
    assert (Hdom : ∀ a y, is_Some (dict_at (define x ty k tbl) a !! y) →
                     y = x ∨ is_Some (dict_at tbl a !! y)).
    { intros a y. destruct (dict_at_define_cases x ty k tbl a Hwf)
        as [->|[e ->]]; [by right|].
      rewrite lookup_insert. case_decide; [by left; subst|by right]. }
    split; try done.
    + intros y. rewrite Hcurs, defined_names_snoc. cbn.
      intros [->|Hy]%Hdom; apply elem_of_app; [right; by left|left; auto].
    + intros y. rewrite Hcls, defined_names_snoc. cbn.
      intros [->|Hy]%Hdom; apply elem_of_app; [right; by left|left; auto].
    + rewrite count_defines_snoc. cbn [defines]. unfold define.
      destruct (String.eqb_spec k "static");
        repeat case_decide; subst; try done; cbn; lia.
    + rewrite count_defines_snoc. cbn [defines]. unfold define.
      destruct (String.eqb_spec k "field");
        repeat case_decide; subst; try done; cbn; lia.
    + rewrite since_enter_snoc. cbn [is_enter].
      rewrite count_defines_snoc. cbn [defines]. unfold define.
      destruct (String.eqb_spec k "arg");
        repeat case_decide; subst; try done; cbn; lia.
    + rewrite since_enter_snoc. cbn [is_enter].
      rewrite count_defines_snoc. cbn [defines]. unfold define.
      destruct (String.eqb_spec k "var");
        repeat case_decide; subst; try done; cbn; lia.
  - rewrite run_op_enter in Hrun. injection Hrun as <-.
    destruct Hwf as [Hw1 Hw2].
    split; try done.
    + intros y. cbn [cur_symbol_table set_cur_symbol_table].
      rewrite defined_names_snoc. cbn. rewrite app_nil_r.
      case_decide.
      * intros Hy. apply Hclass. revert Hy.
        unfold dict_at. cbn. by rewrite lookup_app_l.
      * unfold dict_at. cbn. rewrite lookup_app_r, Nat.sub_diag by lia. cbn.
        rewrite lookup_empty. by intros [? ?].
    + intros y. rewrite defined_names_snoc. cbn. rewrite app_nil_r.
      intros Hy. apply Hclass. revert Hy.
      unfold dict_at. cbn. by rewrite lookup_app_l.
    + rewrite count_defines_snoc. cbn. lia.
    + rewrite count_defines_snoc. cbn. lia.
    + by rewrite since_enter_snoc.
    + by rewrite since_enter_snoc.
Qed.

Lemma inv_run ops tbl : run ops init = Some tbl → inv ops tbl.
Proof.
  revert tbl. induction ops as [|o ops IH] using rev_ind; intros tbl.
  - intros [= <-]. apply inv_init.
  - rewrite run_app. destruct (run ops init) as [tbl0|] eqn:E; [|done].
    cbn. destruct (run_op o tbl0) as [tbl1|] eqn:E1; [|done].
    cbn. intros [= <-]. eapply inv_step; eauto.
Qed.

Lemma found_lookups kind name e tbl :
  found kind name e tbl →
  index_of name tbl = Some (e_index e)
  ∧ kind_of name tbl = Some (e_kind e)
  ∧ type_of name tbl = Some (e_type e).
Proof.
  unfold found, index_of, kind_of, type_of. case_decide.
  - intros [Hc [Heq|Hn]].
    + rewrite Heq. by rewrite Hc.
    + by rewrite Hn, Hc.
  - by intros ->.
Qed.

Lemma found_step kind name e o tbl tbl' :
  wf tbl → found kind name e tbl →
  defined_name o ≠ Some name →
  (¬ (kind = "static" ∨ kind = "field") → is_enter o = false) →
  run_op o tbl = Some tbl' → found kind name e tbl'.
Proof.
  intros Hwf Hf Hne Hent Hrun. destruct o as [x ty k|nm].
  - cbn in Hrun, Hne. injection Hrun as <-.
    assert (x ≠ name) by congruence.
    destruct (define_addresses x ty k tbl) as [Hcurs Hcls].
    assert (Hsame : ∀ a, dict_at (define x ty k tbl) a !! name
                         = dict_at tbl a !! name).
    { intros a. destruct (dict_at_define_cases x ty k tbl a Hwf)
        as [->|[e' ->]]; [done|]. by rewrite lookup_insert_ne. }
    unfold found in *. rewrite Hcurs, Hcls, !Hsame. done.
  - rewrite run_op_enter in Hrun. injection Hrun as <-.
    unfold found in *. case_decide; [|by specialize (Hent ltac:(done))].
    destruct Hwf as [Hw1 Hw2]. destruct Hf as [Hc _].
    cbn [class_level_symbol_table cur_symbol_table set_cur_symbol_table
         start_subroutine].
    split.
    + rewrite <- Hc. unfold dict_at. cbn. by rewrite lookup_app_l.
    + case_decide; [by left|right].
      unfold dict_at. cbn. rewrite lookup_app_r, Nat.sub_diag by lia. done.
Qed.

Lemma found_run kind name e ops tbl :
  wf tbl → found kind name e tbl →
  name ∉ defined_names ops →
  (¬ (kind = "static" ∨ kind = "field") → existsb is_enter ops = false) →
  ∃ tbl', run ops tbl = Some tbl' ∧ found kind name e tbl'.
Proof.
  revert tbl. induction ops as [|o ops IH]; intros tbl Hwf Hf Hn Hent.
  - by exists tbl.
  - cbn [run]. destruct (run_op o tbl) as [tbl1|] eqn:E.
    2:{ destruct o; [done|]. by rewrite run_op_enter in E. }
    cbn. apply IH.
    + eapply wf_run_op; eauto.
    + eapply found_step; eauto.
      * intros Ho. apply Hn. unfold defined_names. cbn. rewrite Ho. by left.
      * intros Hk. specialize (Hent Hk). cbn in Hent.
        by apply orb_false_elim in Hent as [? ?].
    + intros Hin. apply Hn. unfold defined_names in *. cbn.
      destruct (defined_name o); [by right|done].
    + intros Hk. specialize (Hent Hk). cbn in Hent.
      by apply orb_false_elim in Hent as [? ?].
Qed.

Lemma found_define name ty kind tbl :
  wf tbl →
  kind ∈ ["static"; "field"; "arg"; "var"] →
  (cur_symbol_table tbl = class_level_symbol_table tbl
   ∨ dict_at tbl (cur_symbol_table tbl) !! name = None) →
  ∃ b i, define_target kind tbl = Some (b, i)
         ∧ found kind name (Entry ty kind i) (define name ty kind tbl).
Proof.
  intros Hwf Hk Hcur.
  destruct (define_addresses name ty kind tbl) as [Hc1 Hc2].
  unfold found. rewrite Hc1, Hc2, !dict_at_define by done.
  unfold define_target.
  repeat (apply elem_of_cons in Hk as [->|Hk]);
    [..|by apply elem_of_nil in Hk].
  all: str_decide; eexists _, _; (split; [reflexivity|]).
  all: rewrite ?lookup_insert_eq; try done.
  all: split; [done|].
  all: destruct Hcur as [Heq|Hnone]; [by left|].
  all: destruct (decide (cur_symbol_table tbl = class_level_symbol_table tbl));
    [by left|right].
  all: by rewrite decide_False by done.
Qed.

(** *** Entering a subroutine *)

(** C4. Entering a subroutine resets the [arg], [var], [if] and [while]
    counters to 0 and leaves the subroutine scope without symbols, whatever
    the table was before: [start_subroutine] zeroes the counters and stores
    an empty dict under the name, and once [__compile_subroutine] has made
    that dict current (the name it passes is [Class.name]) no name is in the
    current scope. *)
Theorem enter_subroutine_resets (tbl : t) (name cls sub : string) :
  (arg_counter (start_subroutine name tbl) = 0
   ∧ var_counter (start_subroutine name tbl) = 0
   ∧ get_if_counter (start_subroutine name tbl) = 0
   ∧ get_while_counter (start_subroutine name tbl) = 0
   ∧ ∃ a, subroutine_symbol_table (start_subroutine name tbl) !! name = Some a
          ∧ dict_at (start_subroutine name tbl) a = ∅)
  ∧ ∃ tbl',
      set_cur_level_symbol_table (cls +:+ "." +:+ sub)
        (start_subroutine (cls +:+ "." +:+ sub) tbl) = Some tbl'
      ∧ arg_counter tbl' = 0 ∧ var_counter tbl' = 0
      ∧ get_if_counter tbl' = 0 ∧ get_while_counter tbl' = 0
      ∧ dict_at tbl' (cur_symbol_table tbl') = ∅
      ∧ (∀ x, current_symbol_table_contains x tbl' = false)
      ∧ (∀ kind, subroutine_level_var_count kind tbl' = 0).
Proof.
  split.
  - repeat split. exists (length (store tbl)). split.
    + cbn. by rewrite lookup_insert_eq.
    + unfold dict_at. cbn. by rewrite lookup_app_r, Nat.sub_diag.
  - exists (entered (cls +:+ "." +:+ sub) tbl).
    split; [apply set_cur_level_entered|].
    pose proof (dict_at_entered_new (cls +:+ "." +:+ sub) tbl) as Hd.
    repeat split; try done.
    + intros x. unfold current_symbol_table_contains. rewrite Hd.
      apply bool_decide_eq_false. rewrite lookup_empty. by intros [? ?].
    + intros kind. unfold subroutine_level_var_count, count_kind.
      rewrite Hd. apply map_fold_empty.
Qed.

(** *** Indices *)

(** C5. In a history of definitions with pairwise distinct names, started
    from a new table, a symbol of one of the four kinds gets as index the
    number of symbols of its kind declared before it in its partition (the
    whole history for [static] and [field], the part since the last
    subroutine entry for [arg] and [var]), so the indices of a partition are
    0, 1, 2, ... in declaration order; and [index_of] returns that index
    after any continuation [post] of the history, as long as, for [arg] and
    [var], no other subroutine is entered. *)
Theorem define_indices (pre post : list op) (name type kind : string) :
  NoDup (defined_names (pre ++ Define name type kind :: post)) →
  kind ∈ ["static"; "field"; "arg"; "var"] →
  (kind = "arg" ∨ kind = "var" → existsb is_enter post = false) →
  ∃ tbl,
    run (pre ++ Define name type kind :: post) init = Some tbl
    ∧ index_of name tbl = Some (expected_index kind pre)
    ∧ kind_of name tbl = Some kind
    ∧ type_of name tbl = Some type.
Proof.
  intros Hnd Hk Hpost.
  unfold defined_names in Hnd. rewrite omap_app in Hnd. cbn in Hnd.
  apply NoDup_app in Hnd as (_ & Hpre & Hnd').
  apply NoDup_cons in Hnd' as [Hpost' _].
  assert (Hnpre : name ∉ defined_names pre).
  { intros Hin. apply (Hpre _ Hin). by left. }
  destruct (run_total pre init) as [t1 Ht1].
  pose proof (inv_run _ _ Ht1) as [Hwf Hcur Hclass Hs Hf Ha Hv].
  destruct (found_define name type kind t1 Hwf Hk) as (b & i & Htgt & Hfound).
  { right. destruct (dict_at t1 (cur_symbol_table t1) !! name) eqn:E; [|done].
    exfalso. apply Hnpre, Hcur. by rewrite E. }
  destruct (found_run kind name _ post _ (wf_define name type kind _ Hwf)
              Hfound Hpost') as (tbl & Hrun & Hfinal).
  { intros Hnc. apply Hpost.
    repeat (apply elem_of_cons in Hk as [->|Hk]);
      [exfalso; apply Hnc; by left | exfalso; apply Hnc; by right
      | by left | by right | by apply elem_of_nil in Hk]. }
  exists tbl. split.
  { rewrite run_app, Ht1. cbn. exact Hrun. }
  apply found_lookups in Hfinal as (Hi & Hkd & Hty). cbn in Hi, Hkd, Hty.
  rewrite Hi, Hkd, Hty. repeat split. f_equal.
  unfold expected_index, partition_of. unfold define_target in Htgt.
  repeat (apply elem_of_cons in Hk as [->|Hk]);
    [..|by apply elem_of_nil in Hk];
    str_decide; injection Htgt as _ <-; congruence.
Qed.

Lemma define_indices_witness :
  ∃ tbl,
    run ([Define "size" "int" "field"; Enter "List.get";
          Define "this" "self" "arg"]
         ++ Define "i" "int" "arg"
            :: [Define "node" "Node" "var"; Define "count" "int" "static"])
        init = Some tbl
    ∧ index_of "i" tbl = Some 1
    ∧ kind_of "i" tbl = Some "arg"
    ∧ type_of "i" tbl = Some "int".
Proof.
  apply (define_indices
           [Define "size" "int" "field"; Enter "List.get";
            Define "this" "self" "arg"]
           [Define "node" "Node" "var"; Define "count" "int" "static"]
           "i" "int" "arg").
  - apply (bool_decide_unpack _). vm_compute. exact I.
  - apply (bool_decide_unpack _). vm_compute. exact I.
  - intros _. reflexivity.
Defined.

(** *** Shadowing *)

(** C6. When a name is defined both in the current subroutine scope and in
    the class scope, [kind_of], [type_of] and [index_of] return the fields
    of the subroutine-scope entry. *)
Theorem subroutine_scope_shadows (tbl : t) (name : string)
    (e_sub e_cls : entry) :
  dict_at tbl (cur_symbol_table tbl) !! name = Some e_sub →
  dict_at tbl (class_level_symbol_table tbl) !! name = Some e_cls →
  kind_of name tbl = Some (e_kind e_sub)
  ∧ type_of name tbl = Some (e_type e_sub)
  ∧ index_of name tbl = Some (e_index e_sub).
Proof.
  intros Hs _. unfold kind_of, type_of, index_of. by rewrite Hs.
Qed.

Lemma subroutine_scope_shadows_witness :
  let tbl :=
    define "x" "boolean" "var"
      (define "n" "int" "arg"
         (entered "Foo.bar"
            (define "x" "int" "field" (define "y" "int" "field" init)))) in
  kind_of "x" tbl = Some "var"
  ∧ type_of "x" tbl = Some "boolean"
  ∧ index_of "x" tbl = Some 0.
Proof.
  intros tbl.
  apply (subroutine_scope_shadows tbl "x"
           (Entry "boolean" "var" 0) (Entry "int" "field" 1)).
  - vm_compute. reflexivity.
  - vm_compute. reflexivity.
Defined.

End SymbolTableFacts.

(** ** The engine *)

Import SymbolTable CompilationEngine Jack.

Arguments mem : simpl never.
Arguments getitem : simpl never.
Arguments keys : simpl never.
Arguments KEYWORD_CONSTANT : simpl never.
Arguments ARGS : simpl never.
Arguments write_push_name : simpl never.
Arguments write_pop_name : simpl never.
Arguments write_pop_or_push : simpl never.
Arguments write_integer_string_keyword_constant : simpl never.
Arguments write_precise_subroutine_name : simpl never.
Arguments write_pointer_update : simpl never.

(** Membership and equality tests on token values: closed ones are
    computed, the others are settled by a hypothesis. *)
Ltac eval_mem :=
  repeat match goal with
  | |- context [mem ?a ?l] =>
      let b := eval vm_compute in (mem a l) in
      match b with
      | true => change (mem a l) with true
      | false => change (mem a l) with false
      end
  | |- context [String.eqb ?a ?l] =>
      let b := eval vm_compute in (String.eqb a l) in
      match b with
      | true => change (String.eqb a l) with true
      | false => change (String.eqb a l) with false
      end
  | H : mem ?a ?l1 = _ |- context [mem ?a ?l2] =>
      change (mem a l2) with (mem a l1); rewrite H
  | H : String.eqb ?a ?l = _ |- context [String.eqb ?a ?l] => rewrite H
  end.

Ltac unfold_fuel f :=
  match goal with
  | |- context [f (S ?n)] =>
      let t := eval simpl in (f (S n)) in change (f (S n)) with t
  | |- context [f ?n] =>
      is_var n; destruct n as [|n]; [lia|];
      let t := eval simpl in (f (S n)) in change (f (S n)) with t
  end;
  cbv beta.

Ltac norm := rewrite <- ?app_assoc; cbn [app].

Ltac step :=
  repeat (progress (
    cbv beta iota zeta delta
      [bind ret or_else next_token_type_in next_token_value_in
       next_token_tuple advance emit table update_table get_class_name
       set_class_name symbol_table_define
       raise input_tokenizer output_vm_writer symbol_table class_name
       fst snd negb symbol keyword identifier];
    eval_mem; norm)).


Lemma write_pop_or_push_run name method toks out tbl cls :
  write_pop_or_push name method (State toks out tbl cls)
  = Ok tt (State toks (out ++ name_code method tbl name) tbl cls).
Proof.
  unfold write_pop_or_push, name_code. step.
  destruct (SymbolTable.current_symbol_table_contains name tbl);
    [destruct (SymbolTable.kind_of name tbl ≫= getitem VAR_DICT1)
    |destruct (SymbolTable.kind_of name tbl ≫= getitem VAR_DICT2)];
    step; rewrite ?app_nil_r; reflexivity.
Qed.


Lemma append_chars_run s toks out tbl cls :
  append_chars s (State toks out tbl cls)
  = Ok tt (State toks (out ++ chars_code s) tbl cls).
Proof.
  revert out. induction s as [|c s IH]; intros out; cbn [append_chars chars_code].
  - step. by rewrite app_nil_r.
  - step. rewrite IH. by norm.
Qed.

Lemma write_precise_subroutine_name_run name t1 v1 t2 sub_name rest out tbl cls :
  write_precise_subroutine_name name
    (State ((t1, v1) :: (t2, sub_name) :: rest) out tbl cls)
  = if SymbolTable.current_symbol_table_contains name tbl
       || SymbolTable.class_level_symbol_table_contains name tbl
    then Ok (1, format_opt (SymbolTable.type_of name tbl) +:+ "." +:+ sub_name)
            (State rest (out ++ name_code write_push tbl name) tbl cls)
    else Ok (0, name +:+ "." +:+ sub_name) (State rest out tbl cls).
Proof.
  unfold write_precise_subroutine_name. step.
  destruct (_ || _); step; [|reflexivity].
  unfold write_push_name. rewrite write_pop_or_push_run. reflexivity.
Qed.

Lemma expression_follow_term v : expression_follow v → term_follow v.
Proof. by intros []. Qed.

Ltac split_ok :=
  repeat match goal with
  | H : _ && _ = true |- _ => apply andb_prop in H; destruct H
  | H : is_name _ = true |- _ => apply negb_true_iff in H
  | H : term_follow _ |- _ => destruct H as (? & ? & ?)
  | H : expression_follow _ |- _ => destruct H as [? ?]
  end.

Lemma term_int_runs v : term_runs (IntegerConstant v).
Proof.
  intros _. exists 1. intros fuel ty w rest out tbl cls Hle Hf.
  unfold_fuel compile_term. cbn [term_tokens term_code app]. step.
  unfold write_integer_string_keyword_constant. step. reflexivity.
Qed.

Lemma term_string_runs v : term_runs (StringConstant v).
Proof.
  intros _. exists 1. intros fuel ty w rest out tbl cls Hle Hf.
  unfold_fuel compile_term. cbn [term_tokens term_code app]. step.
  unfold write_integer_string_keyword_constant. step.
  rewrite append_chars_run. by norm.
Qed.

Lemma term_keyword_runs v : term_runs (KeywordConstant v).
Proof.
  intros Hv. cbn [term_ok] in Hv.
  exists 1. intros fuel ty w rest out tbl cls Hle Hf.
  unfold_fuel compile_term. cbn [term_tokens term_code app]. step.
  unfold write_integer_string_keyword_constant, keyword_code. step.
  destruct (String.eqb v "this"); step; [reflexivity|].
  destruct (String.eqb v "true"); step; by norm.
Qed.

Lemma bind_ok {A B} (m : M A) (k : A → M B) s a s' :
  m s = Ok a s' → bind m k s = k a s'.
Proof. unfold bind. by intros ->. Qed.

Lemma mem_In x l : mem x l = true ↔ In x l.
Proof.
  unfold mem. rewrite existsb_exists. split.
  - intros (y & Hy & Heq). apply String.eqb_eq in Heq. by subst.
  - intros Hx. exists x. split; [done|]. apply String.eqb_refl.
Qed.

Ltac cases_mem H :=
  apply mem_In in H; cbv in H;
  repeat (destruct H as [<-|H]); [..|destruct H].

Lemma op_emit_run op toks out tbl cls :
  mem op (keys CALL_BINARY_OP_DICT ++ keys ARITHMETIC_BINARY_OP_DICT) = true →
  (if mem op (keys CALL_BINARY_OP_DICT)
   then match getitem CALL_BINARY_OP_DICT op with
        | Some routine => emit (write_call routine ARGS)
        | None => raise KeyError
        end
   else if mem op (keys ARITHMETIC_BINARY_OP_DICT)
        then match getitem ARITHMETIC_BINARY_OP_DICT op with
             | Some command => emit (write_arithmetic command)
             | None => raise KeyError
             end
        else ret tt) (State toks out tbl cls)
  = Ok tt (State toks (out ++ op_code op) tbl cls).
Proof. intros H. cases_mem H; reflexivity. Qed.

Lemma unary_emit_run op toks out tbl cls :
  mem op (keys UNARY_OP_DICT) = true →
  match getitem UNARY_OP_DICT op with
  | Some command => emit (write_arithmetic command)
  | None => raise KeyError
  end (State toks out tbl cls)
  = Ok tt (State toks (out ++ unary_code op) tbl cls).
Proof. intros H. cases_mem H; reflexivity. Qed.

Lemma unary_not_constant op :
  mem op (keys UNARY_OP_DICT) = true → mem op KEYWORD_CONSTANT = false.
Proof. intros H. cases_mem H; reflexivity. Qed.

Lemma op_term_follow op :
  mem op (keys CALL_BINARY_OP_DICT ++ keys ARITHMETIC_BINARY_OP_DICT) = true →
  term_follow op.
Proof. intros H. cases_mem H; repeat split. Qed.

Lemma close_follow : expression_follow ")".
Proof. repeat split. Qed.
Lemma comma_follow : expression_follow ",".
Proof. repeat split. Qed.
Lemma bracket_follow : expression_follow "]".
Proof. repeat split. Qed.
Lemma semicolon_follow : expression_follow ";".
Proof. repeat split. Qed.

(** The token after the first term of an expression. *)
Lemma op_terms_head r ty v rest :
  op_terms_ok r = true → expression_follow v →
  ∃ ty' v' rest',
    op_terms_tokens r ++ (ty, v) :: rest = (ty', v') :: rest'
    ∧ term_follow v'.
Proof.
  intros Hr Hv. destruct r as [|op t r]; cbn [op_terms_tokens app].
  - exists ty, v, rest. split; [done|]. by apply expression_follow_term.
  - cbn [op_terms_ok] in Hr. split_ok.
    eexists _, op, _. split; [reflexivity|]. by apply op_term_follow.
Qed.

Lemma more_args_head a rest :
  ∃ v rest',
    more_args_tokens a ++ ("symbol", ")") :: rest = ("symbol", v) :: rest'
    ∧ expression_follow v.
Proof.
  destruct a as [|e a]; cbn [more_args_tokens app].
  - eexists _, _. split; [reflexivity|]. apply close_follow.
  - eexists _, _. split; [reflexivity|]. apply comma_follow.
Qed.

Lemma starts_expression_run e rest out tbl cls :
  expression_ok e = true →
  starts_expression (State (expression_tokens e ++ rest) out tbl cls)
  = Ok true (State (expression_tokens e ++ rest) out tbl cls).
Proof.
  destruct e as [t r]. cbn [expression_ok expression_tokens]. intros H.
  split_ok. unfold starts_expression.
  destruct t; cbn [term_tokens call_tokens app]; step; try reflexivity.
  - cbn [term_ok] in *. cases_mem H; reflexivity.
  - destruct c; reflexivity.
  - cbn [term_ok] in *. split_ok. cases_mem H; reflexivity.
Qed.

Ltac side :=
  first [lia | assumption | apply close_follow | apply comma_follow
        | apply bracket_follow | apply semicolon_follow
        | apply expression_follow_term; assumption ].

Theorem syntax_runs :
  (∀ t, term_runs t) ∧ (∀ e, expression_runs e) ∧ (∀ r, op_terms_run r)
  ∧ (∀ c, call_runs c) ∧ (∀ a, args_run a).
Proof.
  apply syntax_mutind.
  - apply term_int_runs.
  - apply term_string_runs.
  - apply term_keyword_runs.
  - (* VarName *)
    intros x Hx. cbn [term_ok] in Hx. split_ok.
    exists 3. intros fuel ty v rest out tbl cls Hle Hf. split_ok.
    unfold_fuel compile_term. cbn [term_tokens term_code app]. step.
    unfold_fuel write_identifier_term. step.
    unfold_fuel write_left_square_bracket. step.
    unfold_fuel write_period_and_array_end. step.
    unfold write_push_name. by rewrite write_pop_or_push_run.
  - (* ArrayEntry *)
    intros x i IH Hok. cbn [term_ok] in Hok. split_ok.
    destruct (IH ltac:(done)) as [n Hn].
    exists (3 + n). intros fuel ty v rest out tbl cls Hle Hf. split_ok.
    unfold_fuel compile_term. cbn [term_tokens term_code app]. step.
    unfold_fuel write_identifier_term. step.
    unfold_fuel write_left_square_bracket. step. norm.
    rewrite Hn by side. step.
    unfold write_push_name. rewrite write_pop_or_push_run. step.
    unfold_fuel write_period_and_array_end. step. by norm.
  - (* Call *)
    intros c IH Hok. cbn [term_ok] in Hok.
    destruct (IH Hok) as [n Hn].
    exists n. intros fuel ty v rest out tbl cls Hle Hf.
    cbn [term_tokens term_code]. by apply Hn.
  - (* Parens *)
    intros e IH Hok. cbn [term_ok] in Hok.
    destruct (IH Hok) as [n Hn].
    exists (1 + n). intros fuel ty v rest out tbl cls Hle Hf.
    unfold_fuel compile_term. cbn [term_tokens term_code app]. step. norm.
    rewrite Hn by side. step. reflexivity.
  - (* Unary *)
    intros op t IH Hok. cbn [term_ok] in Hok. split_ok.
    destruct (IH ltac:(done)) as [n Hn].
    pose proof (unary_not_constant op ltac:(done)).
    exists (1 + n). intros fuel ty v rest out tbl cls Hle Hf.
    unfold_fuel compile_term. cbn [term_tokens term_code app]. step.
    rewrite Hn by side. rewrite unary_emit_run by done. by norm.
  - (* Expression *)
    intros t IHt r IHr Hok. cbn [expression_ok] in Hok. split_ok.
    destruct (IHt ltac:(done)) as [n1 Hn1].
    destruct (IHr ltac:(done)) as [n2 Hn2].
    exists (1 + n1 + n2). intros fuel ty v rest out tbl cls Hle Hf.
    unfold_fuel compile_expression.
    cbn [expression_tokens expression_code]. step. norm.
    destruct (op_terms_head r ty v rest) as (ty' & v' & rest' & Heq & Hv');
      [done..|].
    rewrite Heq, Hn1 by side. rewrite <- Heq. rewrite Hn2 by side.
    by norm.
  - (* NoOp *)
    intros _. exists 1. intros fuel ty v rest out tbl cls Hle Hf. split_ok.
    unfold_fuel compile_expression_while.
    cbn [op_terms_tokens op_terms_code app]. step. by rewrite app_nil_r.
  - (* OpTerm *)
    intros op t IHt r IHr Hok. cbn [op_terms_ok] in Hok. split_ok.
    destruct (IHt ltac:(done)) as [n1 Hn1].
    destruct (IHr ltac:(done)) as [n2 Hn2].
    exists (1 + n1 + n2). intros fuel ty v rest out tbl cls Hle Hf.
    unfold_fuel compile_expression_while.
    cbn [op_terms_tokens op_terms_code app]. step. norm.
    destruct (op_terms_head r ty v rest) as (ty' & v' & rest' & Heq & Hv');
      [done..|].
    rewrite Heq, Hn1 by side. rewrite <- Heq.
    rewrite op_emit_run by done. rewrite Hn2 by side. by norm.
  - (* Unqualified *)
    intros name a IH Hok. cbn [call_ok] in Hok. split_ok.
    destruct (IH ltac:(done)) as [n Hn].
    exists (3 + n). intros fuel rest out tbl cls Hle.
    cbn [call_tokens call_code app]. split.
    + unfold_fuel compile_subroutine_call. step.
      destruct (Hn fuel rest (out ++ [write_push "pointer" (OInt 0)]) tbl cls)
        as [-> _]; [lia|].
      step. by norm.
    + unfold_fuel compile_term. step.
      unfold_fuel write_identifier_term. step.
      unfold_fuel write_left_square_bracket. step.
      destruct (Hn (S fuel) rest (out ++ [write_push "pointer" (OInt 0)]) tbl cls)
        as [-> _]; [lia|].
      step. by norm.
  - (* Qualified *)
    intros x sub_name a IH Hok. cbn [call_ok] in Hok. split_ok.
    destruct (IH ltac:(done)) as [n Hn].
    exists (3 + n). intros fuel rest out tbl cls Hle.
    cbn [call_tokens call_code app]. split.
    + unfold_fuel compile_subroutine_call. step.
      rewrite write_precise_subroutine_name_run.
      destruct (_ || _); step.
      * destruct (Hn fuel rest (out ++ name_code write_push tbl x) tbl cls)
          as [-> _]; [lia|].
        step. by norm.
      * destruct (Hn fuel rest out tbl cls) as [-> _]; [lia|].
        step. by norm.
    + unfold_fuel compile_term. step.
      unfold_fuel write_identifier_term. step.
      unfold_fuel write_left_square_bracket. step.
      unfold_fuel write_period_and_array_end. step.
      rewrite write_precise_subroutine_name_run.
      destruct (_ || _); step.
      * destruct (Hn fuel rest (out ++ name_code write_push tbl x) tbl cls)
          as [-> _]; [lia|].
        step. by norm.
      * destruct (Hn fuel rest out tbl cls) as [-> _]; [lia|].
        step. by norm.
  - (* NoArgs *)
    intros _. exists 2. intros fuel rest out tbl cls Hle.
    cbn [args_tokens more_args_tokens args_code args_count app]. split.
    + unfold_fuel compile_expression_list. fold starts_expression. step.
      unfold_fuel compile_expression_list_while. step. by rewrite app_nil_r.
    + intros k. unfold_fuel compile_expression_list_while. step.
      by rewrite app_nil_r, Nat.add_0_r.
  - (* Args *)
    intros e IHe a IHa Hok. cbn [args_ok] in Hok. split_ok.
    destruct (IHe ltac:(done)) as [n1 Hn1].
    destruct (IHa ltac:(done)) as [n2 Hn2].
    exists (1 + n1 + n2). intros fuel rest out tbl cls Hle.
    cbn [args_tokens more_args_tokens args_code args_count app].
    destruct (more_args_head a rest) as (v' & rest' & Heq & Hv'). split.
    + unfold_fuel compile_expression_list. norm. fold starts_expression.
      erewrite bind_ok by (by apply starts_expression_run).
      step.
      rewrite Heq, Hn1 by side. rewrite <- Heq.
      destruct (Hn2 fuel rest (out ++ expression_code cls tbl e) tbl cls)
        as [_ ->]; [lia|].
      by norm.
    + intros k. unfold_fuel compile_expression_list_while. step. norm.
      rewrite Heq, Hn1 by side. rewrite <- Heq.
      destruct (Hn2 fuel rest (out ++ expression_code cls tbl e) tbl cls)
        as [_ ->]; [lia|].
      norm. f_equal. lia.
Qed.

Lemma brace_follow : statements_follow "}".
Proof. split; reflexivity. Qed.

(** A statement begins with its keyword. *)
Lemma statement_head s :
  ∃ v rest,
    statement_tokens s = ("keyword", v) :: rest
    ∧ mem v statements_dict_keys = true
    ∧ mem v ["else"] = false
    ∧ ∀ fuel,
        (if String.eqb v "do" then compile_do fuel
         else if String.eqb v "let" then compile_let fuel
         else if String.eqb v "while" then compile_while fuel
         else if String.eqb v "return" then compile_return fuel
         else if String.eqb v "if" then compile_if fuel
         else raise KeyError) = handler s fuel.
Proof.
  destruct s as [| | | | | |[e|]]; cbn [statement_tokens];
    eexists _, _; (split; [reflexivity|]); repeat split.
Qed.

Lemma statements_head ss ty v rest :
  statements_follow v →
  ∃ ty' v' rest',
    statements_tokens ss ++ (ty, v) :: rest = (ty', v') :: rest'
    ∧ mem v' ["else"] = false.
Proof.
  intros [H1 H2]. destruct ss as [|s ss]; cbn [statements_tokens app].
  - by eexists _, _, _.
  - destruct (statement_head s) as (w & r & -> & _ & Hw & _).
    norm. by eexists _, _, _.
Qed.

Lemma starts_expression_semicolon rest out tbl cls :
  starts_expression (State (("symbol", ";") :: rest) out tbl cls)
  = Ok false (State (("symbol", ";") :: rest) out tbl cls).
Proof. reflexivity. Qed.

Theorem statements_all_run :
  (∀ s, statement_runs s) ∧ (∀ ss, statements_run ss).
Proof.
  destruct syntax_runs as (_ & Hexpr & _ & Hcall & _).
  apply statements_mutind.
  - (* let *)
    intros x e Hok. cbn [statement_ok] in Hok.
    destruct (Hexpr e Hok) as [n Hn].
    exists (2 + n). intros fuel ty v rest out tbl cls Hle Hv.
    cbn [handler statement_tokens statement_code fst snd app].
    unfold_fuel compile_let. step.
    unfold_fuel write_left_square_bracket. step.
    rewrite Hn by side. step.
    unfold write_pop_name. rewrite write_pop_or_push_run. step. done.
  - (* let array *)
    intros x i e Hok. cbn [statement_ok] in Hok. split_ok.
    destruct (Hexpr i ltac:(done)) as [n1 Hn1].
    destruct (Hexpr e ltac:(done)) as [n2 Hn2].
    exists (2 + n1 + n2). intros fuel ty v rest out tbl cls Hle Hv.
    cbn [handler statement_tokens statement_code fst snd app].
    unfold_fuel compile_let. step.
    unfold_fuel write_left_square_bracket. step.
    rewrite Hn1 by side. step.
    unfold write_push_name. rewrite write_pop_or_push_run. step.
    rewrite Hn2 by side. step. done.
  - (* if *)
    intros c body IH Hok. cbn [statement_ok] in Hok. split_ok.
    destruct (Hexpr c ltac:(done)) as [n1 Hn1].
    destruct (IH ltac:(done)) as [n2 Hn2].
    exists (2 + n1 + n2). intros fuel ty v rest out tbl cls Hle Hv.
    cbn [handler statement_tokens statement_code app].
    unfold_fuel compile_if. step.
    rewrite Hn1 by side. step.
    rewrite Hn2 by first [lia | apply brace_follow]. step.
    unfold_fuel write_if_else. step.
    destruct (statements_code _ _ _). cbn [fst snd]. by norm.
  - (* if else *)
    intros c body IH1 else_body IH2 Hok. cbn [statement_ok] in Hok. split_ok.
    destruct (Hexpr c ltac:(done)) as [n1 Hn1].
    destruct (IH1 ltac:(done)) as [n2 Hn2].
    destruct (IH2 ltac:(done)) as [n3 Hn3].
    exists (2 + n1 + n2 + n3). intros fuel ty v rest out tbl cls Hle Hv.
    cbn [handler statement_tokens statement_code app].
    unfold_fuel compile_if. step.
    rewrite Hn1 by side. step.
    rewrite Hn2 by first [lia | apply brace_follow]. step.
    unfold_fuel write_if_else. step.
    rewrite Hn3 by first [lia | apply brace_follow]. step.
    destruct (statements_code _ body _). cbn [fst snd].
    destruct (statements_code _ else_body _). cbn [fst snd]. by norm.
  - (* while *)
    intros c body IH Hok. cbn [statement_ok] in Hok. split_ok.
    destruct (Hexpr c ltac:(done)) as [n1 Hn1].
    destruct (IH ltac:(done)) as [n2 Hn2].
    exists (1 + n1 + n2). intros fuel ty v rest out tbl cls Hle Hv.
    cbn [handler statement_tokens statement_code app].
    unfold_fuel compile_while. step.
    rewrite Hn1 by side. step.
    rewrite Hn2 by first [lia | apply brace_follow]. step.
    destruct (statements_code _ _ _). cbn [fst snd]. by norm.
  - (* do *)
    intros c Hok. cbn [statement_ok] in Hok.
    destruct (Hcall c Hok) as [n Hn].
    exists (1 + n). intros fuel ty v rest out tbl cls Hle Hv.
    cbn [handler statement_tokens statement_code fst snd app].
    unfold_fuel compile_do. step.
    destruct (Hn fuel (("symbol", ";") :: (ty, v) :: rest) out tbl cls)
      as [-> _]; [lia|].
    step. done.
  - (* return *)
    intros [e|] Hok; cbn [statement_ok] in Hok.
    + destruct (Hexpr e Hok) as [n Hn].
      exists (3 + n). intros fuel ty v rest out tbl cls Hle Hv.
      cbn [handler statement_tokens statement_code fst snd app].
      unfold_fuel compile_return. step.
      unfold_fuel compile_return_while. fold starts_expression.
      erewrite bind_ok by (by apply starts_expression_run).
      step. rewrite Hn by side. step.
      unfold_fuel compile_return_while. fold starts_expression.
      erewrite bind_ok by apply starts_expression_semicolon.
      step. done.
    + exists 2. intros fuel ty v rest out tbl cls Hle Hv.
      cbn [handler statement_tokens statement_code fst snd app].
      unfold_fuel compile_return. step.
      unfold_fuel compile_return_while. fold starts_expression.
      erewrite bind_ok by apply starts_expression_semicolon.
      step. done.
  - (* no statement *)
    intros _. exists 1. intros fuel ty v rest out tbl cls Hle [Hv1 Hv2].
    cbn [statements_tokens statements_code fst snd app].
    unfold_fuel compile_statements. step. by rewrite app_nil_r.
  - (* sequence *)
    intros s IHs ss IHss Hok. cbn [statements_ok] in Hok. split_ok.
    destruct (IHs ltac:(done)) as [n1 Hn1].
    destruct (IHss ltac:(done)) as [n2 Hn2].
    exists (1 + n1 + n2). intros fuel ty v rest out tbl cls Hle Hv.
    cbn [statements_tokens statements_code app].
    destruct (statements_head ss ty v rest Hv)
      as (ty' & v' & rest' & Heq & Hv').
    destruct (statement_head s) as (w & r & Hs & Hw1 & Hw2 & Hh).
    unfold_fuel compile_statements. norm. rewrite Hs. step.
    unfold raise in Hh. rewrite Hh.
    match goal with
    | |- context [("keyword", w) :: r ++ ?X] =>
        change (("keyword", w) :: r ++ X) with ((("keyword", w) :: r) ++ X)
    end.
    rewrite <- Hs. rewrite Heq. rewrite Hn1 by side.
    rewrite <- Heq. rewrite Hn2 by side.
    destruct (statement_code _ _ _). cbn [fst snd].
    destruct (statements_code _ _ _). cbn [fst snd]. by norm.
Qed.

(** *** Declarations and subroutines *)

Lemma word_value s : ∃ ty, word s = (ty, s).
Proof. unfold word. destruct (mem s KEYWORDS); by eexists. Qed.

Lemma var_dec_while_runs names :
  ∀ fuel type kind ty v rest out tbl cls,
    length names < fuel → mem v [","] = false →
    compile_var_dec_while fuel type kind
      (State (more_names_tokens names ++ (ty, v) :: rest) out tbl cls)
    = Ok tt (State ((ty, v) :: rest) out
               (fold_left (λ t x, define x type kind t) names tbl) cls).
Proof.
  induction names as [|x names IH];
    intros fuel type kind ty v rest out tbl cls Hle Hv;
    cbn [more_names_tokens fold_left app length] in *.
  - unfold_fuel compile_var_dec_while. step. done.
  - unfold_fuel compile_var_dec_while. step.
    rewrite IH by (first [lia|done]). done.
Qed.

Lemma var_dec_runs d fuel rest out tbl cls :
  length (vd_more d) < fuel →
  compile_var_dec fuel (State (var_dec_tokens d ++ rest) out tbl cls)
  = Ok tt (State rest out (declare_var_dec d tbl) cls).
Proof.
  intros Hle. unfold compile_var_dec, var_dec_tokens, declare_var_dec.
  destruct (word_value (vd_type d)) as [ty ->]. step.
  rewrite var_dec_while_runs by (first [lia|done]). step. done.
Qed.

Lemma var_dec_peek d rest out tbl cls :
  next_token_value_in ["var"] (State (var_dec_tokens d ++ rest) out tbl cls)
  = Ok true (State (var_dec_tokens d ++ rest) out tbl cls).
Proof. reflexivity. Qed.

Lemma locals_run ds :
  ∃ n, ∀ fuel ty v rest out tbl cls,
    n ≤ fuel → mem v ["var"] = false →
    compile_subroutine_body_while fuel
      (State (concat (map var_dec_tokens ds) ++ (ty, v) :: rest) out tbl cls)
    = Ok tt (State ((ty, v) :: rest) out (declare_locals ds tbl) cls).
Proof.
  induction ds as [|d ds [n IH]].
  - exists 1. intros fuel ty v rest out tbl cls Hle Hv.
    cbn [map concat app declare_locals fold_left].
    unfold_fuel compile_subroutine_body_while. step. done.
  - exists (2 + n + length (vd_more d)).
    intros fuel ty v rest out tbl cls Hle Hv.
    cbn [map concat declare_locals fold_left].
    unfold_fuel compile_subroutine_body_while.
    rewrite <- app_assoc.
    erewrite bind_ok by apply var_dec_peek.
    cbv beta iota.
    erewrite bind_ok by (apply var_dec_runs; lia).
    rewrite IH by (first [lia|done]). done.
Qed.

Lemma parameters_run ps :
  parameters_ok ps = true →
  ∀ fuel rest out tbl cls,
    length ps < fuel →
    compile_parameter_list_while fuel
      (State (parameters_tokens ps ++ ("symbol", ")") :: rest) out tbl cls)
    = Ok tt (State (("symbol", ")") :: rest) out
               (declare_parameters ps tbl) cls).
Proof.
  induction ps as [|[type name] ps IH]; intros Hok fuel rest out tbl cls Hle;
    cbn [length] in Hle.
  - cbn [parameters_tokens app declare_parameters fold_left].
    unfold_fuel compile_parameter_list_while. step. done.
  - cbn [parameters_ok forallb fst] in Hok. split_ok.
    match goal with H : negb _ = true |- _ => apply negb_true_iff in H end.
    destruct (word_value type) as [ty Hty].
    unfold_fuel compile_parameter_list_while.
    destruct ps as [|p ps].
    + cbn [parameters_tokens app declare_parameters fold_left].
      rewrite Hty. step.
      unfold_fuel compile_parameter_list_while. step. done.
    + change (parameters_tokens ((type, name) :: p :: ps))
        with (word type :: identifier name :: symbol ","
                :: parameters_tokens (p :: ps)).
      rewrite Hty. step.
      rewrite (IH ltac:(done)) by (cbn [length] in *; lia). done.
Qed.

Lemma write_pointer_update_run kind toks out tbl cls :
  write_pointer_update kind (State toks out tbl cls)
  = Ok tt (State toks (out ++ prologue_code kind tbl) tbl cls).
Proof.
  unfold write_pointer_update, prologue_code.
  destruct (String.eqb kind "constructor"); step; [done|].
  destruct (String.eqb kind "method"); step; [done|].
  by rewrite app_nil_r.
Qed.

Lemma body_head ss rest :
  ∃ ty v rest',
    statements_tokens ss ++ ("symbol", "}") :: rest = (ty, v) :: rest'
    ∧ mem v ["var"] = false.
Proof.
  destruct ss as [|s ss]; cbn [statements_tokens app].
  - by eexists _, _, _.
  - destruct (statement_head s) as (w & r & -> & Hw & _).
    norm. eexists _, _, _. split; [done|].
    cases_mem Hw; reflexivity.
Qed.

Theorem subroutine_runs d :
  parameters_ok (sd_parameters d) = true →
  statements_ok (sd_body d) = true →
  ∃ n, ∀ fuel rest out tbl cls,
    n ≤ fuel →
    compile_subroutine fuel
      (State (subroutine_tokens d ++ rest) out tbl cls)
    = Ok tt (State rest (out ++ subroutine_code cls d tbl)
               (subroutine_table cls d tbl) cls).
Proof.
  intros Hps Hss.
  destruct (locals_run (sd_locals d)) as [n1 Hn1].
  destruct statements_all_run as [_ Hstmts].
  destruct (Hstmts (sd_body d) Hss) as [n2 Hn2].
  exists (1 + length (sd_parameters d) + n1 + n2).
  intros fuel rest out tbl cls Hle.
  unfold compile_subroutine, subroutine_tokens, compile_parameter_list.
  unfold subroutine_code, subroutine_table, body_table, parameters_table,
    declare_receiver.
  destruct (word_value (sd_return_type d)) as [ty ->].
  destruct (String.eqb (sd_kind d) "method") eqn:Hkind.
  all: step.
  all: unfold symbol_table_set_cur_level; cbn [symbol_table].
  all: rewrite set_cur_level_entered; step.
  all: rewrite parameters_run by (first [done|lia]).
  all: step; unfold compile_subroutine_body; step.
  all: destruct (body_head (sd_body d) rest)
         as (ty' & v' & rest' & Heq & Hv').
  all: rewrite Heq, Hn1 by (first [lia|done]); rewrite <- Heq.
  all: step; rewrite write_pointer_update_run.
  all: rewrite Hn2 by (first [lia | apply brace_follow]).
  all: step; unfold symbol_table_set_cur_level; cbn [symbol_table].
  all: unfold set_cur_level_symbol_table; rewrite decide_True by done.
  all: by norm.
Qed.

(** *** The table of a subroutine body *)

Lemma count_kind_symbols kind d : count_kind kind d = symbols_of_kind kind d.
Proof.
  unfold count_kind, symbols_of_kind.
  apply (map_fold_weak_ind (λ r m, r = size (filter (λ kv, e_kind kv.2 = kind) m))).
  - by rewrite map_filter_empty, map_size_empty.
  - intros i x m r Hi ->. case_decide.
    + rewrite map_filter_insert_True by done.
      rewrite map_size_insert_None; [lia|].
      by rewrite map_lookup_filter_None; left.
    + rewrite map_filter_insert_False by done.
      by rewrite delete_id.
Qed.

Lemma in_subroutine_entered name tbl :
  wf tbl → in_subroutine tbl (entered name tbl).
Proof.
  intros Hwf. pose proof Hwf as [H1 H2]. split; [by apply wf_entered|].
  split; [done|]. split; [cbn; lia|]. split.
  - by apply dict_at_entered_old.
  - intros x e. rewrite dict_at_entered_new. by rewrite lookup_empty.
Qed.

Lemma in_subroutine_define tbl0 tbl x ty k :
  k = "arg" ∨ k = "var" →
  in_subroutine tbl0 tbl → in_subroutine tbl0 (define x ty k tbl).
Proof.
  intros Hk (Hwf & Hc & Hne & Hd & Hkinds).
  destruct (define_addresses x ty k tbl) as [Hcur Hcls].
  split; [by apply wf_define|]. rewrite Hcur, Hcls.
  split; [done|]. split; [done|].
  rewrite !dict_at_define by done.
  assert (Htgt : ∃ i, define_target k tbl = Some (cur_symbol_table tbl, i)).
  { unfold define_target. destruct Hk as [-> | ->]; str_decide; by eexists. }
  destruct Htgt as [i ->]. rewrite decide_False by done.
  rewrite decide_True by done. split; [done|].
  intros y e. rewrite lookup_insert. case_decide.
  - intros [= <-]. done.
  - apply Hkinds.
Qed.

Lemma in_subroutine_parameters tbl0 ps tbl :
  in_subroutine tbl0 tbl → in_subroutine tbl0 (declare_parameters ps tbl).
Proof.
  revert tbl. induction ps as [|p ps IH]; intros tbl H; [done|].
  cbn. apply IH. apply in_subroutine_define; [by left|done].
Qed.

Lemma in_subroutine_var_dec tbl0 d tbl :
  in_subroutine tbl0 tbl → in_subroutine tbl0 (declare_var_dec d tbl).
Proof.
  intros H. unfold declare_var_dec.
  assert (H' : in_subroutine tbl0 (define (vd_name d) (vd_type d) "var" tbl))
    by (apply in_subroutine_define; [by right|done]).
  revert H'. generalize (define (vd_name d) (vd_type d) "var" tbl).
  induction (vd_more d) as [|x xs IH]; intros t Ht; [done|].
  cbn. apply IH. apply in_subroutine_define; [by right|done].
Qed.

Lemma in_subroutine_locals tbl0 ds tbl :
  in_subroutine tbl0 tbl → in_subroutine tbl0 (declare_locals ds tbl).
Proof.
  revert tbl. induction ds as [|d ds IH]; intros tbl H; [done|].
  cbn. apply IH. by apply in_subroutine_var_dec.
Qed.

Lemma in_subroutine_body cls d tbl :
  wf tbl → in_subroutine tbl (body_table cls d tbl).
Proof.
  intros Hwf. unfold body_table, parameters_table.
  apply in_subroutine_locals, in_subroutine_parameters.
  unfold declare_receiver. destruct (String.eqb _ _).
  - apply in_subroutine_define; [by left|]. by apply in_subroutine_entered.
  - by apply in_subroutine_entered.
Qed.

Lemma body_table_scoped cls d tbl :
  wf tbl → class_scoped tbl → scoped (body_table cls d tbl).
Proof.
  intros Hwf Hcs.
  destruct (in_subroutine_body cls d tbl Hwf) as (_ & Hc & _ & Hd & Hk).
  split; [done|]. unfold class_scoped. rewrite Hd. apply Hcs.
Qed.

Lemma name_code_resolved method tbl x kind :
  scoped tbl → kind_of x tbl = Some kind →
  ∃ seg i,
    segment_of kind = Some seg ∧ index_of x tbl = Some i
    ∧ name_code method tbl x = [method seg (OInt i)].
Proof.
  intros [Hcur Hcls]. unfold kind_of, index_of, name_code,
    current_symbol_table_contains, kind_of, index_of.
  destruct (dict_at tbl (cur_symbol_table tbl) !! x) as [e|] eqn:E.
  - intros [= <-]. rewrite bool_decide_eq_true_2 by done.
    destruct (Hcur _ _ E) as [-> | ->]; by eexists _, _.
  - rewrite bool_decide_eq_false_2 by (by intros [? ?]).
    destruct (dict_at tbl (class_level_symbol_table tbl) !! x) as [e|] eqn:E';
      [|done].
    intros [= <-]. destruct (Hcls _ _ E') as [-> | ->]; by eexists _, _.
Qed.

Lemma name_code_unknown method tbl x :
  current_symbol_table_contains x tbl = false →
  class_level_symbol_table_contains x tbl = false →
  kind_of x tbl = None ∧ type_of x tbl = None ∧ index_of x tbl = None
  ∧ name_code method tbl x = [].
Proof.
  unfold current_symbol_table_contains, class_level_symbol_table_contains,
    name_code, current_symbol_table_contains, kind_of, type_of, index_of.
  intros H1%bool_decide_eq_false H2%bool_decide_eq_false.
  destruct (dict_at tbl (cur_symbol_table tbl) !! x); [by destruct H1|].
  destruct (dict_at tbl (class_level_symbol_table tbl) !! x);
    [by destruct H2|].
  rewrite bool_decide_eq_false_2 by (by intros [? ?]). done.
Qed.

(** *** Parameters *)

Lemma lookup_cur tbl x e :
  dict_at tbl (cur_symbol_table tbl) !! x = Some e →
  kind_of x tbl = Some (e_kind e) ∧ type_of x tbl = Some (e_type e)
  ∧ index_of x tbl = Some (e_index e).
Proof. intros H. unfold kind_of, type_of, index_of. by rewrite H. Qed.

Lemma define_arg x ty tbl :
  wf tbl →
  dict_at (define x ty "arg" tbl) (cur_symbol_table tbl)
  = <[x := Entry ty "arg" (arg_counter tbl)]>
      (dict_at tbl (cur_symbol_table tbl))
  ∧ arg_counter (define x ty "arg" tbl) = arg_counter tbl + 1.
Proof.
  intros Hwf. rewrite dict_at_define by done. unfold define_target, define.
  str_decide. done.
Qed.

Lemma parameters_lookup ps :
  ∀ tbl, wf tbl → NoDup ps.*2 →
    cur_symbol_table (declare_parameters ps tbl) = cur_symbol_table tbl
    ∧ (∀ i ty nm, ps !! i = Some (ty, nm) →
         dict_at (declare_parameters ps tbl) (cur_symbol_table tbl) !! nm
         = Some (Entry ty "arg" (arg_counter tbl + i)))
    ∧ (∀ x, x ∉ ps.*2 →
         dict_at (declare_parameters ps tbl) (cur_symbol_table tbl) !! x
         = dict_at tbl (cur_symbol_table tbl) !! x).
Proof.
  induction ps as [|[ty0 nm0] ps IH]; intros tbl Hwf Hnd.
  - split; [done|]. split; [|done].
    intros i ty nm Hi. by rewrite lookup_nil in Hi.
  - cbn in Hnd. apply NoDup_cons in Hnd as [Hnm0 Hnd].
    cbn [declare_parameters fold_left fst snd].
    destruct (define_addresses nm0 ty0 "arg" tbl) as [Hcur _].
    destruct (define_arg nm0 ty0 tbl Hwf) as [Hd Hc].
    destruct (IH (define nm0 ty0 "arg" tbl) (wf_define _ _ _ _ Hwf) Hnd)
      as (IH1 & IH2 & IH3).
    fold (declare_parameters ps (define nm0 ty0 "arg" tbl)).
    rewrite Hcur in *. split; [done|]. split.
    + intros [|i] ty nm Hi; cbn in Hi.
      * injection Hi as <- <-. rewrite IH3 by done.
        rewrite Hd, lookup_insert_eq. do 2 f_equal. lia.
      * rewrite (IH2 _ _ _ Hi). do 2 f_equal. lia.
    + intros x Hx. cbn in Hx. apply not_elem_of_cons in Hx as [Hx1 Hx2].
      rewrite IH3 by done. rewrite Hd. by rewrite lookup_insert_ne.
Qed.

(** *** Labels *)

#[global] Instance label_name_inj : Inj (=) (=) label_name.
Proof.
  intros [k1 n1] [k2 n2]. unfold label_name. cbn [fst snd].
  destruct k1, k2; cbn; intros H; try discriminate H.
  all: repeat (injection H as H).
  all: change (pretty n1 = pretty n2) in H; apply (inj pretty) in H.
  all: by subst.
Qed.

Lemma labels_app c1 c2 : labels (c1 ++ c2) = labels c1 ++ labels c2.
Proof. apply omap_app. Qed.

Lemma labels_name_code_push tbl x : labels (name_code write_push tbl x) = [].
Proof.
  unfold name_code.
  destruct (current_symbol_table_contains x tbl);
    by destruct (kind_of x tbl ≫= _).
Qed.

Lemma labels_name_code_pop tbl x : labels (name_code write_pop tbl x) = [].
Proof.
  unfold name_code.
  destruct (current_symbol_table_contains x tbl);
    by destruct (kind_of x tbl ≫= _).
Qed.

Lemma labels_chars_code s : labels (chars_code s) = [].
Proof. induction s; [done|]. cbn. apply IHs. Qed.

Lemma labels_op_code op : labels (op_code op) = [].
Proof.
  unfold op_code. destruct (getitem CALL_BINARY_OP_DICT op); [done|].
  by destruct (getitem ARITHMETIC_BINARY_OP_DICT op).
Qed.

Lemma labels_unary_code op : labels (unary_code op) = [].
Proof. unfold unary_code. by destruct (getitem UNARY_OP_DICT op). Qed.

Lemma labels_keyword_code v : labels (keyword_code v) = [].
Proof.
  unfold keyword_code. destruct (String.eqb v "this"); [done|].
  by destruct (String.eqb v "true").
Qed.

Lemma labels_cons c code :
  labels (c :: code)
  = match label_of c with
    | Some l => l :: labels code
    | None => labels code
    end.
Proof. reflexivity. Qed.

Lemma labels_nil : labels [] = [].
Proof. reflexivity. Qed.

Ltac no_labels :=
  repeat (progress (rewrite ?labels_app, ?labels_cons, ?labels_nil;
                    cbn [label_of]));
  rewrite ?labels_name_code_push, ?labels_name_code_pop, ?labels_chars_code,
    ?labels_op_code, ?labels_unary_code, ?labels_keyword_code;
  repeat match goal with H : labels _ = [] |- _ => rewrite H end;
  try done.

Lemma labels_syntax cls tbl :
  (∀ t, labels (term_code cls tbl t) = [])
  ∧ (∀ e, labels (expression_code cls tbl e) = [])
  ∧ (∀ r, labels (op_terms_code cls tbl r) = [])
  ∧ (∀ c, labels (call_code cls tbl c) = [])
  ∧ (∀ a, labels (args_code cls tbl a) = []).
Proof.
  apply syntax_mutind; intros; simpl; try (by no_labels).
  destruct (_ || _); by no_labels.
Qed.

(** The code and the table of the compound statements, without the
    pattern-matching lets. *)
Lemma if_code cls c body tbl :
  statement_code cls (IfStatement c body) tbl
  = (let n := format_int (get_if_counter tbl) in
     let r := statements_code cls body (increment_if_counter tbl) in
     (expression_code cls tbl c
        ++ write_if ("IF_START" +:+ n) :: write_goto ("ELSE" +:+ n)
        :: write_label ("IF_START" +:+ n) :: r.1
        ++ [write_label ("ELSE" +:+ n)], r.2)).
Proof. simpl. by destruct (statements_code _ _ _). Qed.

Lemma if_else_code cls c body else_body tbl :
  statement_code cls (IfElseStatement c body else_body) tbl
  = (let n := format_int (get_if_counter tbl) in
     let r := statements_code cls body (increment_if_counter tbl) in
     let r' := statements_code cls else_body r.2 in
     (expression_code cls tbl c
        ++ write_if ("IF_START" +:+ n) :: write_goto ("ELSE" +:+ n)
        :: write_label ("IF_START" +:+ n) :: r.1
        ++ write_goto ("IF_END" +:+ n) :: write_label ("ELSE" +:+ n)
        :: r'.1 ++ [write_label ("IF_END" +:+ n)], r'.2)).
Proof.
  simpl. destruct (statements_code _ body _). cbn [snd].
  by destruct (statements_code _ else_body _).
Qed.

Lemma while_code cls c body tbl :
  statement_code cls (WhileStatement c body) tbl
  = (let n := format_int (get_while_counter tbl) in
     let tbl1 := increment_while_counter tbl in
     let r := statements_code cls body tbl1 in
     (write_label ("WHILE_START" +:+ n) :: expression_code cls tbl1 c
        ++ write_arithmetic "not" :: write_if ("WHILE_END" +:+ n) :: r.1
        ++ [write_goto ("WHILE_START" +:+ n);
            write_label ("WHILE_END" +:+ n)], r.2)).
Proof. simpl. by destruct (statements_code _ _ _). Qed.

Lemma statements_cons_code cls s ss tbl :
  statements_code cls (Statements s ss) tbl
  = (let r := statement_code cls s tbl in
     let r' := statements_code cls ss r.2 in
     (r.1 ++ r'.1, r'.2)).
Proof.
  simpl. destruct (statement_code _ _ _). cbn [snd].
  by destruct (statements_code _ _ _).
Qed.

Lemma statement_counters cls :
  (∀ s tbl,
     if_counter (statement_code cls s tbl).2 = if_counter tbl + count_if s
     ∧ while_counter (statement_code cls s tbl).2
       = while_counter tbl + count_while s)
  ∧ (∀ ss tbl,
       if_counter (statements_code cls ss tbl).2
       = if_counter tbl + count_ifs ss
       ∧ while_counter (statements_code cls ss tbl).2
         = while_counter tbl + count_whiles ss).
Proof.
  apply statements_mutind.
  - intros; cbn; lia.
  - intros; cbn; lia.
  - intros c body IH tbl. rewrite if_code. cbn [snd count_if count_while].
    destruct (IH (increment_if_counter tbl)) as [-> ->]. cbn. lia.
  - intros c body IH1 else_body IH2 tbl. rewrite if_else_code.
    cbn [snd count_if count_while].
    destruct (IH2 (statements_code cls body (increment_if_counter tbl)).2)
      as [-> ->].
    destruct (IH1 (increment_if_counter tbl)) as [-> ->]. cbn. lia.
  - intros c body IH tbl. rewrite while_code. cbn [snd count_if count_while].
    destruct (IH (increment_while_counter tbl)) as [-> ->]. cbn. lia.
  - intros; cbn; lia.
  - intros [e|] tbl; cbn; lia.
  - intros; cbn; lia.
  - intros s IHs ss IHss tbl. rewrite statements_cons_code.
    cbn [snd count_ifs count_whiles].
    destruct (IHss (statement_code cls s tbl).2) as [-> ->].
    destruct (IHs tbl) as [-> ->]. lia.
Qed.

Lemma statement_labels_code cls :
  (∀ s tbl,
     labels (statement_code cls s tbl).1
     = label_name <$> statement_labels s (if_counter tbl) (while_counter tbl))
  ∧ (∀ ss tbl,
       labels (statements_code cls ss tbl).1
       = label_name
           <$> statements_labels ss (if_counter tbl) (while_counter tbl)).
Proof.
  destruct (statement_counters cls) as [Hc Hcs].
  pose proof (λ tbl, proj1 (proj2 (labels_syntax cls tbl))) as Hexpr.
  pose proof (λ tbl, proj1 (proj2 (proj2 (proj2 (labels_syntax cls tbl)))))
    as Hcall.
  apply statements_mutind.
  - intros x e tbl. cbn [statement_code fst statement_labels].
    by rewrite labels_app, Hexpr, labels_name_code_pop.
  - intros x i e tbl. cbn [statement_code fst statement_labels].
    rewrite !labels_app, labels_cons, !labels_app, !Hexpr,
      labels_name_code_push. done.
  - intros c body IH tbl. rewrite if_code.
    cbn [fst statement_labels fmap list_fmap].
    rewrite labels_app, Hexpr, !labels_cons. cbn [label_of app].
    rewrite labels_app, IH. cbn [if_counter while_counter increment_if_counter].
    rewrite fmap_app. by rewrite Nat.add_1_r.
  - intros c body IH1 else_body IH2 tbl. rewrite if_else_code.
    cbn [fst statement_labels fmap list_fmap].
    rewrite labels_app, Hexpr, !labels_cons. cbn [label_of app].
    rewrite labels_app, IH1, !labels_cons. cbn [label_of].
    rewrite labels_app, IH2.
    destruct (Hcs body (increment_if_counter tbl)) as [-> ->].
    cbn [if_counter while_counter increment_if_counter].
    rewrite !fmap_app. cbn [fmap list_fmap]. rewrite !fmap_app.
    by rewrite Nat.add_1_r.
  - intros c body IH tbl. rewrite while_code.
    cbn [fst statement_labels fmap list_fmap].
    rewrite labels_cons. cbn [label_of].
    rewrite labels_app, Hexpr, !labels_cons. cbn [label_of app].
    rewrite labels_app, IH.
    cbn [if_counter while_counter increment_while_counter].
    rewrite fmap_app. by rewrite Nat.add_1_r.
  - intros c tbl. cbn [statement_code fst statement_labels].
    by rewrite labels_app, Hcall.
  - intros [e|] tbl; cbn [statement_code fst statement_labels]; [|done].
    by rewrite labels_app, Hexpr.
  - done.
  - intros s IHs ss IHss tbl. rewrite statements_cons_code.
    cbn [fst statements_labels]. rewrite labels_app, IHs, IHss.
    destruct (Hc s tbl) as [-> ->]. by rewrite fmap_app.
Qed.

Lemma statement_labels_range :
  (∀ s i w k n, (k, n) ∈ statement_labels s i w →
     if is_if_label k then i ≤ n < i + count_if s
     else w ≤ n < w + count_while s)
  ∧ (∀ ss i w k n, (k, n) ∈ statements_labels ss i w →
       if is_if_label k then i ≤ n < i + count_ifs ss
       else w ≤ n < w + count_whiles ss).
Proof.
  apply statements_mutind;
    try (intros; cbn [statement_labels statements_labels] in *;
         match goal with H : _ ∈ [] |- _ => by apply elem_of_nil in H end).
  - intros c body IH i w k n. cbn [statement_labels count_if count_while].
    rewrite elem_of_cons, elem_of_app, list_elem_of_singleton.
    intros [[= -> ->]|[H%IH|[= -> ->]]]; cbn; [lia| |lia].
    destruct (is_if_label k); lia.
  - intros c body IH1 else_body IH2 i w k n.
    cbn [statement_labels count_if count_while].
    rewrite elem_of_cons, elem_of_app, elem_of_cons, elem_of_app,
      list_elem_of_singleton.
    intros [[= -> ->]|[H%IH1|[[= -> ->]|[H%IH2|[= -> ->]]]]]; cbn; try lia.
    all: destruct (is_if_label k); lia.
  - intros c body IH i w k n. cbn [statement_labels count_if count_while].
    rewrite elem_of_cons, elem_of_app, list_elem_of_singleton.
    intros [[= -> ->]|[H%IH|[= -> ->]]]; cbn; [lia| |lia].
    destruct (is_if_label k); lia.
  - intros s IHs ss IHss i w k n. cbn [statements_labels count_ifs count_whiles].
    rewrite elem_of_app. intros [H%IHs|H%IHss]; destruct (is_if_label k); lia.
Qed.

Lemma statement_labels_NoDup :
  (∀ s i w, NoDup (statement_labels s i w))
  ∧ (∀ ss i w, NoDup (statements_labels ss i w)).
Proof.
  destruct statement_labels_range as [Hr Hrs].
  apply statements_mutind;
    try (intros; cbn [statement_labels statements_labels]; by apply NoDup_nil_2).
  - intros c body IH i w. cbn [statement_labels].
    apply NoDup_cons. split.
    + rewrite elem_of_app, list_elem_of_singleton.
      intros [H%Hrs|[=]]. cbn in H. lia.
    + apply NoDup_app. split; [apply IH|]. split; [|apply NoDup_singleton].
      intros [k n] H [= -> ->]%list_elem_of_singleton.
      apply Hrs in H. cbn in H. lia.
  - intros c body IH1 else_body IH2 i w. cbn [statement_labels].
    apply NoDup_cons. split.
    + rewrite elem_of_app, elem_of_cons, elem_of_app, list_elem_of_singleton.
      intros [H%Hrs|[[=]|[H%Hrs|[=]]]]; cbn in H; lia.
    + apply NoDup_app. split; [apply IH1|]. split.
      * intros [k n] H1%Hrs.
        rewrite elem_of_cons, elem_of_app, list_elem_of_singleton.
        intros [[= -> ->]|[H2%Hrs|[= -> ->]]]; cbn in *; try lia.
        destruct (is_if_label k); lia.
      * apply NoDup_cons. split.
        -- rewrite elem_of_app, list_elem_of_singleton.
           intros [H%Hrs|[=]]. cbn in H. lia.
        -- apply NoDup_app. split; [apply IH2|].
           split; [|apply NoDup_singleton].
           intros [k n] H [= -> ->]%list_elem_of_singleton.
      apply Hrs in H. cbn in H. lia.
  - intros c body IH i w. cbn [statement_labels].
    apply NoDup_cons. split.
    + rewrite elem_of_app, list_elem_of_singleton.
      intros [H%Hrs|[=]]. cbn in H. lia.
    + apply NoDup_app. split; [apply IH|]. split; [|apply NoDup_singleton].
      intros [k n] H [= -> ->]%list_elem_of_singleton.
      apply Hrs in H. cbn in H. lia.
  - intros s IHs ss IHss i w. cbn [statements_labels].
    apply NoDup_app. split; [apply IHs|]. split; [|apply IHss].
    intros [k n] H1%Hr H2%Hrs. destruct (is_if_label k); lia.
Qed.

Lemma statement_labels_complete :
  (∀ s i w n,
     (i ≤ n < i + count_if s → (IfStart, n) ∈ statement_labels s i w)
     ∧ (w ≤ n < w + count_while s → (WhileStart, n) ∈ statement_labels s i w))
  ∧ (∀ ss i w n,
       (i ≤ n < i + count_ifs ss → (IfStart, n) ∈ statements_labels ss i w)
       ∧ (w ≤ n < w + count_whiles ss →
          (WhileStart, n) ∈ statements_labels ss i w)).
Proof.
  apply statements_mutind;
    try (intros; cbn [count_if count_while count_ifs count_whiles];
         split; intros; lia).
  - intros c body IH i w n. cbn [statement_labels count_if count_while].
    split; intros H; rewrite elem_of_cons, elem_of_app.
    + destruct (decide (n = i)) as [->|]; [by left|].
      right; left. apply IH. lia.
    + right; left. by apply IH.
  - intros c body IH1 else_body IH2 i w n.
    cbn [statement_labels count_if count_while].
    split; intros H;
      rewrite elem_of_cons, elem_of_app, elem_of_cons, elem_of_app.
    + destruct (decide (n = i)) as [->|]; [by left|]. right.
      destruct (decide (n < S i + count_ifs body)).
      * left. apply IH1. lia.
      * right; right; left. apply IH2. lia.
    + right. destruct (decide (n < w + count_whiles body)).
      * left. apply IH1. lia.
      * right; right; left. apply IH2. lia.
  - intros c body IH i w n. cbn [statement_labels count_if count_while].
    split; intros H; rewrite elem_of_cons, elem_of_app.
    + right; left. by apply IH.
    + destruct (decide (n = w)) as [->|]; [by left|].
      right; left. apply IH. lia.
  - intros s IHs ss IHss i w n.
    cbn [statements_labels count_ifs count_whiles].
    split; intros H; rewrite elem_of_app.
    + destruct (decide (n < i + count_if s)).
      * left. apply IHs. lia.
      * right. apply IHss. lia.
    + destruct (decide (n < w + count_while s)).
      * left. apply IHs. lia.
      * right. apply IHss. lia.
Qed.

(** ** The claims about the engine *)

(** *** Calls *)

Lemma args_code_concat cls tbl a :
  args_code cls tbl a = concat (expression_code cls tbl <$> args_list a)
  ∧ args_count a = length (args_list a).
Proof.
  induction a as [|e a [IH1 IH2]]; [done|].
  simpl. by rewrite IH1, IH2.
Qed.

Lemma args_ok_each a e :
  args_ok a = true → e ∈ args_list a → expression_ok e = true.
Proof.
  induction a as [|e' a IH]; simpl; [by intros _ ?%elem_of_nil|].
  intros [H1 H2]%andb_prop [->|H]%elem_of_cons; auto.
Qed.

Lemma kind_of_contains x tbl kind :
  kind_of x tbl = Some kind →
  current_symbol_table_contains x tbl
  || class_level_symbol_table_contains x tbl = true.
Proof.
  unfold kind_of, current_symbol_table_contains,
    class_level_symbol_table_contains.
  destruct (dict_at tbl (cur_symbol_table tbl) !! x);
    [by rewrite bool_decide_eq_true_2|].
  destruct (dict_at tbl (class_level_symbol_table tbl) !! x); [|done].
  intros _. rewrite (bool_decide_eq_true_2 (is_Some (Some _))) by done.
  apply orb_true_r.
Qed.

Lemma call_code_unqualified cls tbl name args :
  call_code cls tbl (Unqualified name args)
  = write_push "pointer" (OInt 0) :: args_code cls tbl args
      ++ [write_call (cls +:+ "." +:+ name) (1 + args_count args)].
Proof. reflexivity. Qed.

Lemma call_code_qualified cls tbl x sub_name args :
  call_code cls tbl (Qualified x sub_name args)
  = if current_symbol_table_contains x tbl
       || class_level_symbol_table_contains x tbl
    then name_code write_push tbl x ++ args_code cls tbl args
           ++ [write_call (format_opt (type_of x tbl) +:+ "." +:+ sub_name)
                 (1 + args_count args)]
    else args_code cls tbl args
           ++ [write_call (x +:+ "." +:+ sub_name) (args_count args)].
Proof. reflexivity. Qed.

(** C1. A subroutine call, compiled as a [do] statement or as a term:
    (i) [name(e1, ..., ek)] emits [push pointer 0], the code of the k
    arguments in order, and [call Class.name k+1], where [Class] is the
    current class; (ii) [x.sub(e1, ..., ek)], for a name [x] of the
    subroutine scope or of the class scope, emits the push of the segment and
    index of [x], the arguments, and [call T.sub k+1], where [T] is the type
    of [x]; (iii) [C.sub(e1, ..., ek)], for a name [C] of neither scope,
    emits the arguments and [call C.sub k], with no receiver pushed.  The
    code of an argument is what the engine emits for that expression. *)
Theorem subroutine_call_code (cls : string) (tbl : SymbolTable.t)
    (name x sub_name : string) (args : expression_list) :
  is_name name = true → is_name x = true → args_ok args = true →
  (∀ e, e ∈ args_list args → expression_runs e)
  ∧ ∃ n, ∀ production fuel rest out,
      production = compile_subroutine_call ∨ production = compile_term →
      n ≤ fuel →
      let code := concat (expression_code cls tbl <$> args_list args) in
      let k := length (args_list args) in
      production fuel
        (State (call_tokens (Unqualified name args) ++ rest) out tbl cls)
      = Ok tt (State rest
                 (out ++ write_push "pointer" (OInt 0) :: code
                      ++ [write_call (cls +:+ "." +:+ name) (k + 1)])
                 tbl cls)
      ∧ (∀ kind type,
           scoped tbl → kind_of x tbl = Some kind →
           type_of x tbl = Some type →
           ∃ segment index,
             segment_of kind = Some segment ∧ index_of x tbl = Some index
             ∧ production fuel
                 (State (call_tokens (Qualified x sub_name args) ++ rest)
                    out tbl cls)
               = Ok tt (State rest
                          (out ++ write_push segment (OInt index) :: code
                               ++ [write_call (type +:+ "." +:+ sub_name)
                                     (k + 1)])
                          tbl cls))
      ∧ (current_symbol_table_contains x tbl = false →
         class_level_symbol_table_contains x tbl = false →
         production fuel
           (State (call_tokens (Qualified x sub_name args) ++ rest)
              out tbl cls)
         = Ok tt (State rest
                    (out ++ code ++ [write_call (x +:+ "." +:+ sub_name) k])
                    tbl cls)).
Proof.
  intros Hname Hx Hargs.
  destruct syntax_runs as (_ & Hexpr & _ & Hcall & _).
  split; [intros e _; apply Hexpr|].
  destruct (Hcall (Unqualified name args)) as [n1 Hn1];
    [by cbn; rewrite Hname|].
  destruct (Hcall (Qualified x sub_name args)) as [n2 Hn2];
    [by cbn; rewrite Hx|].
  destruct (args_code_concat cls tbl args) as [Hcode Hcount].
  exists (n1 + n2). intros production fuel rest out Hp Hle code k.
  assert (Hu : production fuel
      (State (call_tokens (Unqualified name args) ++ rest) out tbl cls)
    = Ok tt (State rest
        (out ++ call_code cls tbl (Unqualified name args)) tbl cls)).
  { destruct (Hn1 fuel rest out tbl cls ltac:(lia)) as [H1 H2].
    by destruct Hp as [-> | ->]. }
  assert (Hq : production fuel
      (State (call_tokens (Qualified x sub_name args) ++ rest) out tbl cls)
    = Ok tt (State rest
        (out ++ call_code cls tbl (Qualified x sub_name args)) tbl cls)).
  { destruct (Hn2 fuel rest out tbl cls ltac:(lia)) as [H1 H2].
    by destruct Hp as [-> | ->]. }
  rewrite call_code_unqualified in Hu. rewrite call_code_qualified in Hq.
  rewrite Hcode, Hcount in Hu, Hq.
  fold code k in Hu, Hq. split; [|split].
  - rewrite Hu. by rewrite (Nat.add_comm k 1).
  - intros kind type Hsc Hkind Htype.
    destruct (name_code_resolved write_push tbl x kind Hsc Hkind)
      as (seg & i & Hseg & Hi & Hnc).
    exists seg, i. split; [done|]. split; [done|].
    rewrite Hq, (kind_of_contains _ _ _ Hkind), Hnc, Htype.
    by rewrite (Nat.add_comm k 1).
  - intros H1 H2. rewrite Hq, H1, H2. done.
Qed.

Lemma class_scoped_init : class_scoped init.
Proof. intros x e. unfold dict_at. cbn. by rewrite lookup_empty. Qed.

Lemma class_scoped_define x ty k tbl :
  wf tbl → k = "static" ∨ k = "field" →
  class_scoped tbl → class_scoped (define x ty k tbl).
Proof.
  intros Hwf Hk Hcs y e.
  destruct (define_addresses x ty k tbl) as [_ ->].
  rewrite dict_at_define by done.
  assert (Htgt : ∃ i, define_target k tbl
                      = Some (class_level_symbol_table tbl, i)).
  { unfold define_target. destruct Hk as [-> | ->]; str_decide; by eexists. }
  destruct Htgt as [i ->]. rewrite decide_True by done.
  rewrite lookup_insert. case_decide; [|apply Hcs].
  intros [= <-]. done.
Qed.

Lemma example_table_scoped : scoped example_table.
Proof.
  apply body_table_scoped.
  - apply wf_define, wf_init.
  - apply class_scoped_define; [apply wf_init|by right|apply class_scoped_init].
Qed.

Lemma subroutine_call_code_witness :
  ∃ n, ∀ fuel rest out,
    n ≤ fuel →
    compile_subroutine_call fuel
      (State (call_tokens
                (Qualified "g" "run"
                   (Args (Expression (IntegerConstant "1") NoOp) NoArgs))
              ++ rest) out example_table "Main")
    = Ok tt (State rest
               (out ++ [write_push "local" (OInt 0);
                        write_push "constant" (OStr "1");
                        write_call "Game.run" 2])
               example_table "Main").
Proof.
  destruct (subroutine_call_code "Main" example_table "draw" "g" "run"
              (Args (Expression (IntegerConstant "1") NoOp) NoArgs)
              eq_refl eq_refl eq_refl) as [_ [n H]].
  exists n. intros fuel rest out Hle.
  destruct (H compile_subroutine_call fuel rest out (or_introl eq_refl) Hle)
    as (_ & H2 & _).
  destruct (H2 "var" "Game" example_table_scoped eq_refl eq_refl)
    as (segment & index & Hs & Hi & Hrun).
  injection Hs as <-. vm_compute in Hi. injection Hi as <-.
  exact Hrun.
Defined.

(** *** Expressions *)

Lemma op_terms_code_concat cls tbl r :
  op_terms_code cls tbl r
  = concat ((λ p, term_code cls tbl p.2 ++ op_code p.1) <$> op_terms_list r).
Proof.
  induction r as [|op t r IH]; [done|].
  simpl. by rewrite IH, <- app_assoc.
Qed.

Lemma op_terms_list_of ops : op_terms_list (op_terms_of ops) = ops.
Proof. induction ops as [|[op t] ops IH]; [done|]. simpl. by rewrite IH. Qed.

Lemma op_terms_ok_snoc ops op t :
  op_terms_ok (op_terms_of (ops ++ [(op, t)])) = true →
  op_terms_ok (op_terms_of ops) = true
  ∧ mem op (keys CALL_BINARY_OP_DICT ++ keys ARITHMETIC_BINARY_OP_DICT) = true
  ∧ term_ok t = true.
Proof.
  induction ops as [|[op' t'] ops IH]; simpl.
  - intros H. split_ok. done.
  - intros H. split_ok. destruct (IH ltac:(done)) as (? & ? & ?).
    repeat split; try done. by repeat (apply andb_true_intro; split).
Qed.

(** C9. Binary operators are compiled from left to right, with no
    precedence: for [t1 op1 t2 ... opn t(n+1)] the engine emits the code of
    [t1], then for each pair the code of the term followed by the command of
    its operator (a call of two arguments for [*] and [/]); this is the code
    it emits for the expression with everything before the last operator in
    parentheses, so [a + b * c] is compiled as [(a + b) * c]. *)
Theorem binary_operators_left_to_right (t : term)
    (ops : list (string * term)) :
  expression_ok (Expression t (op_terms_of ops)) = true →
  ∃ n, ∀ fuel ty v rest out tbl cls,
    n ≤ fuel → expression_follow v →
    let code :=
      term_code cls tbl t
      ++ concat ((λ p, term_code cls tbl p.2 ++ op_code p.1) <$> ops) in
    compile_expression fuel
      (State (expression_tokens (Expression t (op_terms_of ops))
              ++ (ty, v) :: rest) out tbl cls)
    = Ok tt (State ((ty, v) :: rest) (out ++ code) tbl cls)
    ∧ ∀ ops' op t',
        ops = ops' ++ [(op, t')] →
        compile_expression fuel
          (State (expression_tokens
                    (Expression (Parens (Expression t (op_terms_of ops')))
                       (OpTerm op t' NoOp))
                  ++ (ty, v) :: rest) out tbl cls)
        = Ok tt (State ((ty, v) :: rest) (out ++ code) tbl cls).
Proof.
  intros Hok. destruct syntax_runs as (_ & Hexpr & _).
  destruct (Hexpr _ Hok) as [n1 Hn1].
  assert (Hparens : ∃ n2, ∀ ops' op t', ops = ops' ++ [(op, t')] →
    ∀ fuel ty v rest out tbl cls,
      n2 ≤ fuel → expression_follow v →
      compile_expression fuel
        (State (expression_tokens
                  (Expression (Parens (Expression t (op_terms_of ops')))
                     (OpTerm op t' NoOp))
                ++ (ty, v) :: rest) out tbl cls)
      = Ok tt (State ((ty, v) :: rest)
                 (out ++ expression_code cls tbl
                    (Expression (Parens (Expression t (op_terms_of ops')))
                       (OpTerm op t' NoOp))) tbl cls)).
  { destruct ops as [|p ops _] using rev_ind.
    - exists 0. intros ops' op t' H. by destruct ops'.
    - destruct p as [op t']. simpl in Hok. apply andb_prop in Hok as [Ht Hr].
      apply op_terms_ok_snoc in Hr as (Hr & Hop & Ht').
      destruct (Hexpr (Expression (Parens (Expression t (op_terms_of ops)))
                         (OpTerm op t' NoOp))) as [n2 Hn2].
      { change (term_ok t && op_terms_ok (op_terms_of ops)
                && (mem op (keys CALL_BINARY_OP_DICT
                            ++ keys ARITHMETIC_BINARY_OP_DICT)
                    && term_ok t' && true) = true).
        by rewrite Ht, Hr, Hop, Ht'. }
      exists n2. intros ops' op' t'' [-> [= -> ->]]%app_inj_tail. apply Hn2. }
  destruct Hparens as [n2 Hn2].
  exists (n1 + n2). intros fuel ty v rest out tbl cls Hle Hv code.
  assert (Hcode : expression_code cls tbl (Expression t (op_terms_of ops))
                  = code).
  { simpl. by rewrite op_terms_code_concat, op_terms_list_of. }
  split.
  - rewrite Hn1 by (first [lia|done]). by rewrite Hcode.
  - intros ops' op t' ->. rewrite (Hn2 ops' op t') by (first [lia|done]).
    do 3 f_equal. subst code. simpl.
    rewrite op_terms_code_concat, op_terms_list_of, fmap_app, concat_app.
    simpl. by rewrite !app_nil_r, <- !app_assoc.
Qed.

Lemma binary_operators_left_to_right_witness :
  ∃ n, ∀ fuel rest out,
    n ≤ fuel →
    compile_expression fuel
      (State ([identifier "n"; symbol "+"; identifier "game"; symbol "*";
               identifier "g"; symbol ";"] ++ rest) out example_table "Main")
    = Ok tt (State (symbol ";" :: rest)
               (out ++ [write_push "argument" (OInt 1);
                        write_push "this" (OInt 0); write_arithmetic "add";
                        write_push "local" (OInt 0);
                        write_call "Math.multiply" 2])
               example_table "Main").
Proof.
  destruct (binary_operators_left_to_right (VarName "n")
              [("+", VarName "game"); ("*", VarName "g")] eq_refl)
    as [n H].
  exists n. intros fuel rest out Hle.
  destruct (H fuel "symbol" ";" rest out example_table "Main" Hle
              semicolon_follow) as [H1 _].
  exact H1.
Defined.

(** *** Statements *)

(** C7. In the code of the statements of a subroutine no label is placed
    twice, however the statements are nested: the [if] statements take the
    consecutive values of the [if] counter, one each, the [while] statements
    those of the [while] counter, and every value taken names exactly one
    [IF_START] (or [WHILE_START]) label. *)
Theorem labels_pairwise_distinct (ss : statements) :
  statements_ok ss = true →
  ∃ n, ∀ fuel ty v rest out tbl cls,
    n ≤ fuel → statements_follow v →
    ∃ code tbl',
      compile_statements fuel
        (State (statements_tokens ss ++ (ty, v) :: rest) out tbl cls)
      = Ok tt (State ((ty, v) :: rest) (out ++ code) tbl' cls)
      ∧ NoDup (labels code)
      ∧ get_if_counter tbl' = get_if_counter tbl + count_ifs ss
      ∧ get_while_counter tbl' = get_while_counter tbl + count_whiles ss
      ∧ (∀ k, "IF_START" +:+ format_int k ∈ labels code
              ↔ get_if_counter tbl ≤ k < get_if_counter tbl + count_ifs ss)
      ∧ (∀ k, "WHILE_START" +:+ format_int k ∈ labels code
              ↔ get_while_counter tbl ≤ k
                < get_while_counter tbl + count_whiles ss).
Proof.
  intros Hok. destruct statements_all_run as [_ Hrun].
  destruct (Hrun ss Hok) as [n Hn].
  exists n. intros fuel ty v rest out tbl cls Hle Hv.
  exists (statements_code cls ss tbl).1, (statements_code cls ss tbl).2.
  split; [by apply Hn|].
  destruct (statement_counters cls) as [_ Hc].
  destruct (statement_labels_code cls) as [_ Hl].
  destruct statement_labels_NoDup as [_ Hnd].
  destruct statement_labels_range as [_ Hr].
  destruct statement_labels_complete as [_ Hcomplete].
  unfold get_if_counter, get_while_counter.
  destruct (Hc ss tbl) as [-> ->]. rewrite Hl.
  split; [apply (NoDup_fmap_2 label_name), Hnd|].
  split; [done|]. split; [done|].
  split; intros k.
  - change ("IF_START" +:+ format_int k) with (label_name (IfStart, k)).
    rewrite (list_elem_of_fmap_inj label_name). split.
    + intros H. by apply Hr in H.
    + apply Hcomplete.
  - change ("WHILE_START" +:+ format_int k) with (label_name (WhileStart, k)).
    rewrite (list_elem_of_fmap_inj label_name). split.
    + intros H. by apply Hr in H.
    + apply Hcomplete.
Qed.

Lemma labels_pairwise_distinct_witness :
  ∃ n, ∀ fuel rest out,
    n ≤ fuel →
    ∃ code tbl',
      compile_statements fuel
        (State (statements_tokens example_statements ++ symbol "}" :: rest)
           out example_table "Main")
      = Ok tt (State (symbol "}" :: rest) (out ++ code) tbl' "Main")
      ∧ NoDup (labels code)
      ∧ get_if_counter tbl' = 2
      ∧ get_while_counter tbl' = 2.
Proof.
  destruct (labels_pairwise_distinct example_statements eq_refl) as [n H].
  exists n. intros fuel rest out Hle.
  destruct (H fuel "symbol" "}" rest out example_table "Main" Hle brace_follow)
    as (code & tbl' & H1 & H2 & H3 & H4 & _).
  exists code, tbl'. repeat split; assumption.
Defined.

(** C8. [while (x) { let y = 1; }], the first [while] of a subroutine, with
    [x] and [y] in scope, is compiled to [label WHILE_START0], the push of
    [x], [not], [if-goto WHILE_END0], [push constant 1], the pop to [y],
    [goto WHILE_START0], [label WHILE_END0]. *)
Theorem while_statement_code (tbl : SymbolTable.t) (cls x y kind_x kind_y : string) :
  scoped tbl → is_name x = true →
  kind_of x tbl = Some kind_x → kind_of y tbl = Some kind_y →
  get_while_counter tbl = 0 →
  ∃ segment_x index_x segment_y index_y,
    segment_of kind_x = Some segment_x ∧ index_of x tbl = Some index_x
    ∧ segment_of kind_y = Some segment_y ∧ index_of y tbl = Some index_y
    ∧ ∀ fuel rest out,
        7 ≤ fuel →
        compile_while fuel
          (State ([keyword "while"; symbol "("; identifier x; symbol ")";
                   symbol "{"; keyword "let"; identifier y; symbol "=";
                   ("integerConstant", "1"); symbol ";"; symbol "}"] ++ rest)
             out tbl cls)
        = Ok tt (State rest
                   (out ++ [write_label "WHILE_START0";
                            write_push segment_x (OInt index_x);
                            write_arithmetic "not";
                            write_if "WHILE_END0";
                            write_push "constant" (OStr "1");
                            write_pop segment_y (OInt index_y);
                            write_goto "WHILE_START0";
                            write_label "WHILE_END0"])
                   (increment_while_counter tbl) cls).
Proof.
  intros Hsc Hx Hkx Hky Hw.
  destruct (name_code_resolved write_push tbl x kind_x Hsc Hkx)
    as (sx & ix & Hsx & Hix & Hcx).
  destruct (name_code_resolved write_pop tbl y kind_y Hsc Hky)
    as (sy & iy & Hsy & Hiy & Hcy).
  exists sx, ix, sy, iy. repeat (split; [done|]).
  intros fuel rest out Hle. split_ok.
  assert (Hcx' : name_code write_push (increment_while_counter tbl) x
                 = [write_push sx (OInt ix)]) by exact Hcx.
  assert (Hcy' : name_code write_pop (increment_while_counter tbl) y
                 = [write_pop sy (OInt iy)]) by exact Hcy.
  unfold_fuel compile_while. step. rewrite Hw.
  unfold_fuel compile_expression. step.
  unfold_fuel compile_term. step.
  unfold_fuel write_identifier_term. step.
  unfold_fuel write_left_square_bracket. step.
  unfold_fuel write_period_and_array_end. step.
  unfold write_push_name. rewrite write_pop_or_push_run, Hcx'.
  unfold_fuel compile_expression_while. step.
  unfold_fuel compile_statements. step.
  unfold_fuel compile_let. step.
  unfold_fuel write_left_square_bracket. step.
  unfold_fuel compile_expression. step.
  unfold_fuel compile_term. step.
  unfold write_integer_string_keyword_constant. step.
  unfold_fuel compile_expression_while. step.
  unfold write_pop_name. rewrite write_pop_or_push_run, Hcy'. step.
  reflexivity.
Qed.

Lemma while_statement_code_witness :
  compile_while 7
    (State [keyword "while"; symbol "("; identifier "n"; symbol ")";
            symbol "{"; keyword "let"; identifier "game"; symbol "=";
            ("integerConstant", "1"); symbol ";"; symbol "}";
            keyword "return"; symbol ";"]
       [write_function "Main.run" 1] example_table "Main")
  = Ok tt (State [keyword "return"; symbol ";"]
             [write_function "Main.run" 1;
              write_label "WHILE_START0";
              write_push "argument" (OInt 1);
              write_arithmetic "not";
              write_if "WHILE_END0";
              write_push "constant" (OStr "1");
              write_pop "this" (OInt 0);
              write_goto "WHILE_START0";
              write_label "WHILE_END0"]
             (increment_while_counter example_table) "Main").
Proof.
  destruct (while_statement_code example_table "Main" "n" "game" "arg" "field"
              example_table_scoped eq_refl eq_refl eq_refl eq_refl)
    as (sx & ix & sy & iy & Hsx & Hix & Hsy & Hiy & H).
  injection Hsx as <-. injection Hsy as <-.
  vm_compute in Hix. injection Hix as <-.
  vm_compute in Hiy. injection Hiy as <-.
  apply (H 7 [keyword "return"; symbol ";"] [write_function "Main.run" 1]).
  lia.
Defined.

(** C10. For a name of neither scope, [kind_of], [type_of] and [index_of]
    return [None]; reading the name as a term emits nothing, and a [let]
    that assigns to it emits the code of the expression and no [pop]; both
    return normally. *)
Theorem unknown_name_is_silent (tbl : SymbolTable.t) (x : string) :
  current_symbol_table_contains x tbl = false →
  class_level_symbol_table_contains x tbl = false →
  kind_of x tbl = None ∧ type_of x tbl = None ∧ index_of x tbl = None
  ∧ (is_name x = true →
     ∀ fuel ty v rest out cls,
       3 ≤ fuel → term_follow v →
       compile_term fuel
         (State (term_tokens (VarName x) ++ (ty, v) :: rest) out tbl cls)
       = Ok tt (State ((ty, v) :: rest) out tbl cls))
  ∧ (∀ e, expression_ok e = true →
       ∃ n, ∀ fuel rest out cls,
         n ≤ fuel →
         compile_let fuel
           (State (statement_tokens (LetStatement x e) ++ rest) out tbl cls)
         = Ok tt (State rest (out ++ expression_code cls tbl e) tbl cls)).
Proof.
  intros H1 H2.
  destruct (name_code_unknown write_push tbl x H1 H2) as (Hk & Ht & Hi & Hpush).
  destruct (name_code_unknown write_pop tbl x H1 H2) as (_ & _ & _ & Hpop).
  repeat (split; [done|]). split.
  - intros Hx fuel ty v rest out cls Hle Hv. split_ok.
    cbn [term_tokens app].
    unfold_fuel compile_term. step.
    unfold_fuel write_identifier_term. step.
    unfold_fuel write_left_square_bracket. step.
    unfold_fuel write_period_and_array_end. step.
    unfold write_push_name.
    by rewrite write_pop_or_push_run, Hpush, app_nil_r.
  - intros e He. destruct syntax_runs as (_ & Hexpr & _).
    destruct (Hexpr e He) as [n Hn].
    exists (2 + n). intros fuel rest out cls Hle.
    cbn [statement_tokens app].
    unfold_fuel compile_let. step.
    unfold_fuel write_left_square_bracket. step.
    rewrite Hn by side. step.
    unfold write_pop_name.
    by rewrite write_pop_or_push_run, Hpop, app_nil_r.
Qed.

Lemma unknown_name_is_silent_witness :
  kind_of "total" example_table = None
  ∧ type_of "total" example_table = None
  ∧ index_of "total" example_table = None
  ∧ (∀ fuel rest out,
       3 ≤ fuel →
       compile_term fuel
         (State (identifier "total" :: symbol ";" :: rest)
            out example_table "Main")
       = Ok tt (State (symbol ";" :: rest) out example_table "Main")).
Proof.
  destruct (unknown_name_is_silent example_table "total" eq_refl eq_refl)
    as (Hk & Ht & Hi & Hterm & _).
  repeat (split; [assumption|]).
  intros fuel rest out Hle.
  apply (Hterm eq_refl fuel "symbol" ";" rest out "Main" Hle).
  by apply expression_follow_term, semicolon_follow.
Defined.

(** *** Subroutines *)

(** C2. A constructor of a class whose class scope holds n [field]
    symbols emits, right after [function Class.name nLocals] and before the
    code of its statements, [push constant n], [call Memory.alloc 1],
    [pop pointer 0]. *)
Theorem constructor_prologue (cls : string) (d : subroutine_dec)
    (tbl : SymbolTable.t) :
  wf tbl → sd_kind d = "constructor" →
  parameters_ok (sd_parameters d) = true →
  statements_ok (sd_body d) = true →
  ∃ n, ∀ fuel rest out,
    n ≤ fuel →
    compile_subroutine fuel
      (State (subroutine_tokens d ++ rest) out tbl cls)
    = Ok tt (State rest
               (out ++ write_function (cls +:+ "." +:+ sd_name d)
                         (subroutine_level_var_count "var"
                            (body_table cls d tbl))
                    :: write_push "constant"
                         (OInt (symbols_of_kind "field"
                                  (dict_at tbl
                                     (class_level_symbol_table tbl))))
                    :: write_call "Memory.alloc" 1
                    :: write_pop "pointer" (OInt 0)
                    :: (statements_code cls (sd_body d)
                          (body_table cls d tbl)).1)
               (subroutine_table cls d tbl) cls).
Proof.
  intros Hwf Hkind Hps Hss.
  destruct (subroutine_runs d Hps Hss) as [n Hn].
  exists n. intros fuel rest out Hle. rewrite Hn by done.
  do 3 f_equal. unfold subroutine_code, prologue_code. rewrite Hkind.
  cbn [String.eqb Ascii.eqb Bool.eqb app]. do 3 f_equal.
  unfold class_level_var_count. rewrite count_kind_symbols.
  by destruct (in_subroutine_body cls d tbl Hwf) as (_ & _ & _ & -> & _).
Qed.

Lemma constructor_prologue_witness :
  ∃ n, ∀ fuel rest out,
    n ≤ fuel →
    ∃ tbl',
      compile_subroutine fuel
        (State (subroutine_tokens example_constructor ++ rest) out
           example_class_table "Point")
      = Ok tt (State rest
                 (out ++ [write_function "Point.new" 0;
                          write_push "constant" (OInt 2);
                          write_call "Memory.alloc" 1;
                          write_pop "pointer" (OInt 0);
                          write_push "argument" (OInt 0);
                          write_pop "this" (OInt 0);
                          write_push "argument" (OInt 1);
                          write_pop "this" (OInt 1);
                          write_push "pointer" (OInt 0);
                          write_return])
                 tbl' "Point").
Proof.
  destruct (constructor_prologue "Point" example_constructor
              example_class_table
              (wf_define _ _ _ _ (wf_define _ _ _ _ wf_init))
              eq_refl eq_refl eq_refl) as [n H].
  exists n. intros fuel rest out Hle. eexists.
  rewrite (H fuel rest out Hle). vm_compute. reflexivity.
Defined.

(** C3. For a method, the engine defines [this] with kind [arg] and index
    0 before it parses the parameter list, so that the declared parameters
    get the indices 1, 2, ... in declaration order; and the code of the
    method starts, right after the [function] command, with
    [push argument 0], [pop pointer 0]. *)
Theorem method_receiver (cls : string) (d : subroutine_dec)
    (tbl : SymbolTable.t) :
  wf tbl → sd_kind d = "method" →
  parameters_ok (sd_parameters d) = true →
  NoDup ("this" :: (sd_parameters d).*2) →
  statements_ok (sd_body d) = true →
  let name := cls +:+ "." +:+ sd_name d in
  let tbl_this := define "this" "self" "arg" (entered name tbl) in
  let tbl_parameters := parameters_table cls d tbl in
  (kind_of "this" tbl_this = Some "arg" ∧ index_of "this" tbl_this = Some 0)
  ∧ (∀ fuel rest out,
       length (sd_parameters d) < fuel →
       compile_parameter_list fuel "method"
         (State (parameters_tokens (sd_parameters d)
                 ++ ("symbol", ")") :: rest) out (entered name tbl) cls)
       = Ok tt (State (("symbol", ")") :: rest) out tbl_parameters cls))
  ∧ (kind_of "this" tbl_parameters = Some "arg"
     ∧ index_of "this" tbl_parameters = Some 0)
  ∧ (∀ i type x,
       sd_parameters d !! i = Some (type, x) →
       kind_of x tbl_parameters = Some "arg"
       ∧ type_of x tbl_parameters = Some type
       ∧ index_of x tbl_parameters = Some (S i))
  ∧ ∃ n, ∀ fuel rest out,
      n ≤ fuel →
      compile_subroutine fuel
        (State (subroutine_tokens d ++ rest) out tbl cls)
      = Ok tt (State rest
                 (out ++ write_function name
                           (subroutine_level_var_count "var"
                              (body_table cls d tbl))
                      :: write_push "argument" (OInt 0)
                      :: write_pop "pointer" (OInt 0)
                      :: (statements_code cls (sd_body d)
                            (body_table cls d tbl)).1)
                 (subroutine_table cls d tbl) cls).
Proof.
  intros Hwf Hkind Hps Hnd Hss name tbl_this tbl_parameters.
  apply NoDup_cons in Hnd as [Hthis Hnd].
  pose proof (wf_entered name tbl Hwf) as Hwe.
  destruct (define_arg "this" "self" (entered name tbl) Hwe) as [Hd Hc].
  destruct (define_addresses "this" "self" "arg" (entered name tbl))
    as [Hcur _].
  assert (Hd0 : dict_at tbl_this (cur_symbol_table tbl_this) !! "this"
                = Some (Entry "self" "arg" 0)).
  { unfold tbl_this. rewrite Hcur, Hd. by rewrite lookup_insert_eq. }
  assert (Heq : tbl_parameters
                = declare_parameters (sd_parameters d) tbl_this).
  { unfold tbl_parameters, parameters_table, declare_receiver.
    by rewrite Hkind. }
  destruct (parameters_lookup (sd_parameters d) tbl_this
              (wf_define _ _ _ _ Hwe) Hnd) as (Hcur' & Hpar & Hother).
  split; [|split; [|split; [|split]]].
  - by destruct (lookup_cur _ _ _ Hd0) as (? & _ & ?).
  - intros fuel rest out Hle. unfold compile_parameter_list. step.
    rewrite parameters_run by done. by rewrite Heq.
  - rewrite Heq. specialize (Hother "this" Hthis).
    rewrite Hd0, <- Hcur' in Hother.
    by destruct (lookup_cur _ _ _ Hother) as (? & _ & ?).
  - intros i type x Hi. rewrite Heq. specialize (Hpar i type x Hi).
    rewrite <- Hcur' in Hpar. unfold tbl_this in Hpar. rewrite Hc in Hpar.
    destruct (lookup_cur _ _ _ Hpar) as (? & ? & Hidx).
    by repeat split.
  - destruct (subroutine_runs d Hps Hss) as [n Hn].
    exists n. intros fuel rest out Hle. rewrite Hn by done.
    do 3 f_equal. unfold subroutine_code, prologue_code. by rewrite Hkind.
Qed.

Lemma method_receiver_witness :
  (index_of "k" (parameters_table "Point" example_method example_class_table)
   = Some 1
   ∧ index_of "other"
       (parameters_table "Point" example_method example_class_table)
     = Some 2)
  ∧ ∃ n, ∀ fuel rest out,
      n ≤ fuel →
      ∃ tbl',
        compile_subroutine fuel
          (State (subroutine_tokens example_method ++ rest) out
             example_class_table "Point")
        = Ok tt (State rest
                   (out ++ [write_function "Point.scale" 0;
                            write_push "argument" (OInt 0);
                            write_pop "pointer" (OInt 0);
                            write_push "argument" (OInt 2);
                            write_return])
                   tbl' "Point").
Proof.
  assert (Hnd : NoDup ("this" :: (sd_parameters example_method).*2)).
  { apply (bool_decide_unpack _). vm_compute. exact I. }
  destruct (method_receiver "Point" example_method example_class_table
              (wf_define _ _ _ _ (wf_define _ _ _ _ wf_init))
              eq_refl eq_refl Hnd eq_refl) as (_ & _ & _ & Hpar & n & H).
  split.
  - split.
    + by destruct (Hpar 0 "int" "k" eq_refl) as (_ & _ & ?).
    + by destruct (Hpar 1 "Point" "other" eq_refl) as (_ & _ & ?).
  - exists n. intros fuel rest out Hle. eexists.
    rewrite (H fuel rest out Hle). vm_compute. reflexivity.
Defined.

(** * The rest of the engine *)

Import JackClass Hoare.

(** ** Classes *)

Lemma class_var_dec_runs d fuel rest out tbl cls :
  length (cvd_more d) < fuel →
  compile_class_var_dec fuel
    (State (class_var_dec_tokens d ++ rest) out tbl cls)
  = Ok tt (State rest out (declare_class_var_dec d tbl) cls).
Proof.
  intros Hle.
  unfold compile_class_var_dec, class_var_dec_tokens, declare_class_var_dec.
  destruct (word_value (cvd_type d)) as [ty ->]. step.
  rewrite var_dec_while_runs by (first [lia|done]). step. done.
Qed.

Lemma class_var_decs_run ds :
  forallb (λ d, mem (cvd_kind d) ["static"; "field"]) ds = true →
  ∃ n, ∀ fuel ty v rest out tbl cls,
    n ≤ fuel → mem v ["static"; "field"] = false →
    compile_class_var_decs fuel
      (State (concat (map class_var_dec_tokens ds) ++ (ty, v) :: rest)
         out tbl cls)
    = Ok tt (State ((ty, v) :: rest) out (declare_class_vars ds tbl) cls).
Proof.
  induction ds as [|d ds IH]; intros Hok.
  - exists 1. intros fuel ty v rest out tbl cls Hle Hv.
    cbn [map concat app declare_class_vars fold_left].
    unfold_fuel compile_class_var_decs. step. done.
  - cbn [forallb] in Hok. apply andb_prop in Hok as [Hd Hds].
    destruct (IH Hds) as [n Hn].
    exists (2 + n + length (cvd_more d)).
    intros fuel ty v rest out tbl cls Hle Hv.
    cbn [map concat declare_class_vars fold_left].
    unfold_fuel compile_class_var_decs.
    rewrite <- app_assoc.
    assert (Hpeek : ∀ X,
      next_token_value_in ["static"; "field"]
        (State (class_var_dec_tokens d ++ X) out tbl cls)
      = Ok true (State (class_var_dec_tokens d ++ X) out tbl cls)).
    { intros X. unfold class_var_dec_tokens. step. done. }
    erewrite bind_ok by apply Hpeek.
    cbv beta iota.
    erewrite bind_ok by (apply class_var_dec_runs; lia).
    rewrite Hn by (first [lia|done]). done.
Qed.

Lemma subroutine_tokens_head d rest :
  subroutine_tokens d ++ rest
  = ("keyword", sd_kind d)
      :: tl (subroutine_tokens d ++ rest).
Proof. reflexivity. Qed.

Lemma subroutines_run cls ds :
  forallb subroutine_ok ds = true →
  ∃ n, ∀ fuel ty v rest out tbl,
    n ≤ fuel → mem v ["constructor"; "method"; "function"] = false →
    compile_subroutines fuel
      (State (concat (map subroutine_tokens ds) ++ (ty, v) :: rest)
         out tbl cls)
    = Ok tt (State ((ty, v) :: rest) (out ++ (subroutines_code cls ds tbl).1)
               (subroutines_code cls ds tbl).2 cls).
Proof.
  induction ds as [|d ds IH]; intros Hok.
  - exists 1. intros fuel ty v rest out tbl Hle Hv.
    cbn [map concat app subroutines_code fst snd].
    unfold_fuel compile_subroutines. step. by rewrite app_nil_r.
  - cbn [forallb] in Hok. apply andb_prop in Hok as [Hd Hds].
    unfold subroutine_ok in Hd.
    apply andb_prop in Hd as [Hd Hss]. apply andb_prop in Hd as [Hk Hps].
    destruct (IH Hds) as [n1 Hn1].
    destruct (subroutine_runs d Hps Hss) as [n2 Hn2].
    exists (1 + n1 + n2). intros fuel ty v rest out tbl Hle Hv.
    cbn [map concat subroutines_code].
    unfold_fuel compile_subroutines.
    rewrite <- app_assoc.
    assert (Hpeek :
      next_token_value_in ["constructor"; "method"; "function"]
        (State (subroutine_tokens d
                ++ concat (map subroutine_tokens ds) ++ (ty, v) :: rest)
           out tbl cls)
      = Ok true
          (State (subroutine_tokens d
                  ++ concat (map subroutine_tokens ds) ++ (ty, v) :: rest)
             out tbl cls)).
    { rewrite subroutine_tokens_head. step. done. }
    erewrite bind_ok by apply Hpeek.
    cbv beta iota.
    erewrite bind_ok by (apply Hn2; lia).
    rewrite Hn1 by (first [lia|done]).
    destruct (subroutines_code cls ds _). cbn [fst snd]. by norm.
Qed.

Lemma subroutines_head ds rest :
  forallb subroutine_ok ds = true →
  ∃ ty v rest',
    concat (map subroutine_tokens ds) ++ ("symbol", "}") :: rest
    = (ty, v) :: rest'
    ∧ mem v ["static"; "field"] = false.
Proof.
  destruct ds as [|d ds]; cbn [map concat app forallb].
  - by eexists _, _, _.
  - intros Hok. apply andb_prop in Hok as [Hd _].
    unfold subroutine_ok in Hd.
    apply andb_prop in Hd as [Hd _]. apply andb_prop in Hd as [Hk _].
    rewrite <- app_assoc, subroutine_tokens_head.
    eexists _, _, _. split; [reflexivity|].
    generalize dependent (sd_kind d). intros k Hk.
    cases_mem Hk; reflexivity.
Qed.

Theorem class_runs c :
  class_ok c = true →
  ∃ n, ∀ fuel rest out tbl cls,
    n ≤ fuel →
    compile_class fuel (State (class_tokens c ++ rest) out tbl cls)
    = Ok tt (State rest (out ++ (class_code c tbl).1)
               (class_code c tbl).2 (cd_name c)).
Proof.
  intros Hok. unfold class_ok in Hok. apply andb_prop in Hok as [Hvars Hsubs].
  destruct (class_var_decs_run (cd_vars c) Hvars) as [n1 Hn1].
  destruct (subroutines_run (cd_name c) (cd_subroutines c) Hsubs) as [n2 Hn2].
  exists (n1 + n2). intros fuel rest out tbl cls Hle.
  unfold compile_class, class_tokens, class_code. step.
  destruct (subroutines_head (cd_subroutines c) rest Hsubs)
    as (ty & v & rest' & Heq & Hv).
  rewrite Heq, Hn1 by (first [lia|done]). rewrite <- Heq.
  rewrite Hn2 by (first [lia|done]). step. done.
Qed.

(** ** Tables that answer alike *)

Lemma define_counters x ty k tbl :
  static_counter (define x ty k tbl)
  = static_counter tbl + (if decide (k = "static") then 1 else 0)
  ∧ field_counter (define x ty k tbl)
    = field_counter tbl + (if decide (k = "field") then 1 else 0)
  ∧ arg_counter (define x ty k tbl)
    = arg_counter tbl + (if decide (k = "arg") then 1 else 0)
  ∧ var_counter (define x ty k tbl)
    = var_counter tbl + (if decide (k = "var") then 1 else 0)
  ∧ if_counter (define x ty k tbl) = if_counter tbl
  ∧ while_counter (define x ty k tbl) = while_counter tbl.
Proof.
  unfold define.
  destruct (decide (k = "static")) as [->|?];
    [str_decide; cbn; repeat split; lia|].
  destruct (decide (k = "field")) as [->|?];
    [str_decide; cbn; repeat split; lia|].
  destruct (decide (k = "arg")) as [->|?];
    [str_decide; cbn; repeat split; lia|].
  destruct (decide (k = "var")) as [->|?];
    [str_decide; cbn; repeat split; lia|].
  str_decide; cbn; repeat split; lia.
Qed.

Lemma define_target_equiv k tbl tbl' :
  lookup_equiv tbl tbl' →
  match define_target k tbl, define_target k tbl' with
  | Some (b, i), Some (b', i') =>
      i = i'
      ∧ (b = class_level_symbol_table tbl ∧ b' = class_level_symbol_table tbl'
         ∨ b = cur_symbol_table tbl ∧ b' = cur_symbol_table tbl')
  | None, None => True
  | _, _ => False
  end.
Proof.
  intros (_ & _ & _ & _ & _ & Hs & Hf & Ha & Hv & _).
  unfold define_target. repeat case_decide; try done.
  all: split; [done|]; auto.
Qed.

Lemma lookup_equiv_define x ty k tbl tbl' :
  lookup_equiv tbl tbl' →
  lookup_equiv (define x ty k tbl) (define x ty k tbl').
Proof.
  intros Heq.
  pose proof (define_target_equiv k _ _ Heq) as Htgt.
  destruct Heq as (Hwf & Hwf' & Hcur & Hcls & Hiff & Hs & Hf & Ha & Hv & Hi & Hw).
  destruct (define_addresses x ty k tbl) as [Hc1 Hc2].
  destruct (define_addresses x ty k tbl') as [Hc1' Hc2'].
  unfold lookup_equiv.
  destruct (define_counters x ty k tbl) as (-> & -> & -> & -> & -> & ->).
  destruct (define_counters x ty k tbl') as (-> & -> & -> & -> & -> & ->).
  split; [by apply wf_define|]. split; [by apply wf_define|].
  rewrite Hc1, Hc2, Hc1', Hc2', !dict_at_define by done.
  rewrite Hs, Hf, Ha, Hv, Hi, Hw.
  repeat split; try done; try tauto.
  - destruct (define_target k tbl) as [[b i]|],
      (define_target k tbl') as [[b' i']|]; try done.
    destruct Htgt as [<- [[-> ->]|[-> ->]]].
    + rewrite Hcls, Hcur.
      destruct (decide (class_level_symbol_table tbl = cur_symbol_table tbl))
        as [E|E],
        (decide (class_level_symbol_table tbl' = cur_symbol_table tbl'))
        as [E'|E']; try done.
      * exfalso. apply E'. symmetry. by apply Hiff.
      * exfalso. apply E. symmetry. by apply Hiff.
    + rewrite !decide_True by done. by rewrite Hcur.
  - destruct (define_target k tbl) as [[b i]|],
      (define_target k tbl') as [[b' i']|]; try done.
    destruct Htgt as [<- [[-> ->]|[-> ->]]].
    + rewrite !decide_True by done. by rewrite Hcls.
    + rewrite Hcls, Hcur.
      destruct (decide (cur_symbol_table tbl = class_level_symbol_table tbl))
        as [E|E],
        (decide (cur_symbol_table tbl' = class_level_symbol_table tbl'))
        as [E'|E']; try done.
      * exfalso. by apply E', Hiff.
      * exfalso. by apply E, Hiff.
Qed.

Lemma class_equiv_entered name tbl tbl' :
  class_equiv tbl tbl' →
  lookup_equiv (entered name tbl) (entered name tbl').
Proof.
  intros (Hwf & Hwf' & Hcls & Hs & Hf).
  pose proof Hwf as [H1 H2]. pose proof Hwf' as [H1' H2'].
  split; [by apply wf_entered|]. split; [by apply wf_entered|].
  rewrite !dict_at_entered_new.
  change (class_level_symbol_table (entered name tbl))
    with (class_level_symbol_table tbl).
  change (class_level_symbol_table (entered name tbl'))
    with (class_level_symbol_table tbl').
  rewrite !dict_at_entered_old by done.
  repeat split; try done; cbn; lia.
Qed.

Lemma lookup_equiv_lookups tbl tbl' x :
  lookup_equiv tbl tbl' →
  kind_of x tbl = kind_of x tbl'
  ∧ type_of x tbl = type_of x tbl'
  ∧ index_of x tbl = index_of x tbl'
  ∧ current_symbol_table_contains x tbl = current_symbol_table_contains x tbl'
  ∧ class_level_symbol_table_contains x tbl
    = class_level_symbol_table_contains x tbl'.
Proof.
  intros (_ & _ & Hcur & Hcls & _).
  unfold kind_of, type_of, index_of, current_symbol_table_contains,
    class_level_symbol_table_contains.
  by rewrite Hcur, Hcls.
Qed.

Lemma lookup_equiv_name_code method tbl tbl' x :
  lookup_equiv tbl tbl' → name_code method tbl x = name_code method tbl' x.
Proof.
  intros H. unfold name_code.
  by destruct (lookup_equiv_lookups tbl tbl' x H) as (-> & _ & -> & -> & _).
Qed.

Lemma lookup_equiv_syntax cls tbl tbl' :
  lookup_equiv tbl tbl' →
  (∀ t, term_code cls tbl t = term_code cls tbl' t)
  ∧ (∀ e, expression_code cls tbl e = expression_code cls tbl' e)
  ∧ (∀ r, op_terms_code cls tbl r = op_terms_code cls tbl' r)
  ∧ (∀ c, call_code cls tbl c = call_code cls tbl' c)
  ∧ (∀ a, args_code cls tbl a = args_code cls tbl' a).
Proof.
  intros Heq. apply syntax_mutind; simpl; try congruence.
  - intros x. apply (lookup_equiv_name_code _ _ _ _ Heq).
  - intros x i IH. rewrite (lookup_equiv_name_code _ _ _ _ Heq). congruence.
  - intros x sub_name a IH.
    destruct (lookup_equiv_lookups tbl tbl' x Heq) as (_ & -> & _ & -> & ->).
    rewrite (lookup_equiv_name_code _ _ _ _ Heq). by rewrite IH.
Qed.

Lemma lookup_equiv_increment_if tbl tbl' :
  lookup_equiv tbl tbl' →
  lookup_equiv (increment_if_counter tbl) (increment_if_counter tbl').
Proof.
  intros (Hwf & Hwf' & Hcur & Hcls & Hiff & Hs & Hf & Ha & Hv & Hi & Hw).
  repeat split; try done; try apply Hwf; try apply Hwf'; try apply Hiff.
  cbn. by rewrite Hi.
Qed.

Lemma lookup_equiv_increment_while tbl tbl' :
  lookup_equiv tbl tbl' →
  lookup_equiv (increment_while_counter tbl) (increment_while_counter tbl').
Proof.
  intros (Hwf & Hwf' & Hcur & Hcls & Hiff & Hs & Hf & Ha & Hv & Hi & Hw).
  repeat split; try done; try apply Hwf; try apply Hwf'; try apply Hiff.
  cbn. by rewrite Hw.
Qed.

Lemma lookup_equiv_statements cls :
  (∀ s tbl tbl', lookup_equiv tbl tbl' →
     (statement_code cls s tbl).1 = (statement_code cls s tbl').1
     ∧ lookup_equiv (statement_code cls s tbl).2 (statement_code cls s tbl').2)
  ∧ (∀ ss tbl tbl', lookup_equiv tbl tbl' →
       (statements_code cls ss tbl).1 = (statements_code cls ss tbl').1
       ∧ lookup_equiv (statements_code cls ss tbl).2
           (statements_code cls ss tbl').2).
Proof.
  apply statements_mutind.
  - intros x e tbl tbl' Heq. cbn [statement_code fst snd]. split; [|done].
    destruct (lookup_equiv_syntax cls _ _ Heq) as (_ & -> & _).
    by rewrite (lookup_equiv_name_code _ _ _ _ Heq).
  - intros x i e tbl tbl' Heq. cbn [statement_code fst snd]. split; [|done].
    destruct (lookup_equiv_syntax cls _ _ Heq) as (_ & He & _).
    by rewrite !He, (lookup_equiv_name_code _ _ _ _ Heq).
  - intros c body IH tbl tbl' Heq. rewrite !if_code. cbn [fst snd].
    destruct (lookup_equiv_syntax cls _ _ Heq) as (_ & He & _).
    destruct (IH _ _ (lookup_equiv_increment_if _ _ Heq)) as [-> Heq'].
    split; [|done]. rewrite He.
    destruct Heq as (_ & _ & _ & _ & _ & _ & _ & _ & _ & Hi & _).
    unfold get_if_counter. by rewrite Hi.
  - intros c body IH1 else_body IH2 tbl tbl' Heq. rewrite !if_else_code.
    cbn [fst snd].
    destruct (lookup_equiv_syntax cls _ _ Heq) as (_ & He & _).
    destruct (IH1 _ _ (lookup_equiv_increment_if _ _ Heq)) as [-> Heq'].
    destruct (IH2 _ _ Heq') as [-> Heq''].
    split; [|done]. rewrite He.
    destruct Heq as (_ & _ & _ & _ & _ & _ & _ & _ & _ & Hi & _).
    unfold get_if_counter. by rewrite Hi.
  - intros c body IH tbl tbl' Heq. rewrite !while_code. cbn [fst snd].
    pose proof (lookup_equiv_increment_while _ _ Heq) as Heq1.
    destruct (lookup_equiv_syntax cls _ _ Heq1) as (_ & He & _).
    destruct (IH _ _ Heq1) as [-> Heq'].
    split; [|done]. rewrite He.
    destruct Heq as (_ & _ & _ & _ & _ & _ & _ & _ & _ & _ & Hw).
    unfold get_while_counter. by rewrite Hw.
  - intros c tbl tbl' Heq. cbn [statement_code fst snd]. split; [|done].
    by destruct (lookup_equiv_syntax cls _ _ Heq) as (_ & _ & _ & -> & _).
  - intros [e|] tbl tbl' Heq; cbn [statement_code fst snd]; (split; [|done]);
      [|done].
    by destruct (lookup_equiv_syntax cls _ _ Heq) as (_ & -> & _).
  - done.
  - intros s IHs ss IHss tbl tbl' Heq. rewrite !statements_cons_code.
    cbn [fst snd].
    destruct (IHs _ _ Heq) as [-> Heq'].
    destruct (IHss _ _ Heq') as [-> Heq'']. done.
Qed.

Lemma lookup_equiv_fold {A} (f : A → string * string * string) l tbl tbl' :
  lookup_equiv tbl tbl' →
  lookup_equiv
    (fold_left (λ t a, define (f a).1.1 (f a).1.2 (f a).2 t) l tbl)
    (fold_left (λ t a, define (f a).1.1 (f a).1.2 (f a).2 t) l tbl').
Proof.
  revert tbl tbl'. induction l as [|a l IH]; intros tbl tbl' H; [done|].
  cbn. apply IH. by apply lookup_equiv_define.
Qed.

Lemma lookup_equiv_parameters ps tbl tbl' :
  lookup_equiv tbl tbl' →
  lookup_equiv (declare_parameters ps tbl) (declare_parameters ps tbl').
Proof. apply (lookup_equiv_fold (λ p, (p.2, p.1, "arg"))). Qed.

Lemma lookup_equiv_var_dec d tbl tbl' :
  lookup_equiv tbl tbl' →
  lookup_equiv (declare_var_dec d tbl) (declare_var_dec d tbl').
Proof.
  intros H. unfold declare_var_dec.
  apply (lookup_equiv_fold (λ x, (x, vd_type d, "var"))).
  by apply lookup_equiv_define.
Qed.

Lemma lookup_equiv_locals ds tbl tbl' :
  lookup_equiv tbl tbl' →
  lookup_equiv (declare_locals ds tbl) (declare_locals ds tbl').
Proof.
  revert tbl tbl'. induction ds as [|d ds IH]; intros tbl tbl' H; [done|].
  cbn. apply IH. by apply lookup_equiv_var_dec.
Qed.

Lemma class_equiv_body cls d tbl tbl' :
  class_equiv tbl tbl' →
  lookup_equiv (body_table cls d tbl) (body_table cls d tbl').
Proof.
  intros H. unfold body_table, parameters_table.
  apply lookup_equiv_locals, lookup_equiv_parameters.
  unfold declare_receiver. destruct (String.eqb _ _).
  - by apply lookup_equiv_define, class_equiv_entered.
  - by apply class_equiv_entered.
Qed.

(** The code of a subroutine depends on the class scope only. *)
Lemma class_equiv_subroutine_code cls d tbl tbl' :
  class_equiv tbl tbl' →
  subroutine_code cls d tbl = subroutine_code cls d tbl'.
Proof.
  intros H. pose proof (class_equiv_body cls d _ _ H) as Hb.
  unfold subroutine_code. cbv zeta.
  destruct lookup_equiv_statements with (cls := cls) as [_ Hss].
  destruct (Hss (sd_body d) _ _ Hb) as [-> _].
  f_equal.
  - f_equal. unfold subroutine_level_var_count.
    by destruct Hb as (_ & _ & -> & _).
  - f_equal. unfold prologue_code, class_level_var_count.
    by destruct Hb as (_ & _ & _ & -> & _).
Qed.

(** ** What a subroutine leaves of the table *)

Lemma same_scopes_refl tbl : same_scopes tbl tbl.
Proof. repeat split; done. Qed.

Lemma same_scopes_trans t1 t2 t3 :
  same_scopes t1 t2 → same_scopes t2 t3 → same_scopes t1 t3.
Proof.
  intros (H1 & H2 & H3 & H4 & H5 & H6 & H7 & H8 & H9 & H10)
         (G1 & G2 & G3 & G4 & G5 & G6 & G7 & G8 & G9 & G10).
  repeat split; try congruence; lia.
Qed.

Lemma same_scopes_increment_if tbl : same_scopes tbl (increment_if_counter tbl).
Proof. repeat split; cbn; lia. Qed.

Lemma same_scopes_increment_while tbl :
  same_scopes tbl (increment_while_counter tbl).
Proof. repeat split; cbn; lia. Qed.

Lemma statements_code_scopes cls :
  (∀ s tbl, same_scopes tbl (statement_code cls s tbl).2)
  ∧ (∀ ss tbl, same_scopes tbl (statements_code cls ss tbl).2).
Proof.
  apply statements_mutind.
  - intros. apply same_scopes_refl.
  - intros. apply same_scopes_refl.
  - intros c body IH tbl. rewrite if_code. cbn [snd].
    eapply same_scopes_trans; [apply same_scopes_increment_if|apply IH].
  - intros c body IH1 else_body IH2 tbl. rewrite if_else_code. cbn [snd].
    eapply same_scopes_trans; [apply same_scopes_increment_if|].
    eapply same_scopes_trans; [apply IH1|apply IH2].
  - intros c body IH tbl. rewrite while_code. cbn [snd].
    eapply same_scopes_trans; [apply same_scopes_increment_while|apply IH].
  - intros. apply same_scopes_refl.
  - intros [e|] tbl; apply same_scopes_refl.
  - intros. apply same_scopes_refl.
  - intros s IHs ss IHss tbl. rewrite statements_cons_code. cbn [snd].
    eapply same_scopes_trans; [apply IHs|apply IHss].
Qed.

Lemma same_scopes_dict tbl tbl' a :
  same_scopes tbl tbl' → dict_at tbl' a = dict_at tbl a.
Proof. intros (H & _). unfold dict_at. by rewrite H. Qed.

Lemma same_scopes_wf tbl tbl' : same_scopes tbl tbl' → wf tbl → wf tbl'.
Proof.
  intros (H1 & H2 & _ & H4 & _) [? ?]. unfold wf. by rewrite H1, H2, H4.
Qed.

(** The [static] and [field] counters are those of the class scope: the
    declarations of a subroutine do not move them. *)
Lemma fold_define_class_counters {A} (f : A → string * string) k l tbl :
  k = "arg" ∨ k = "var" →
  static_counter (fold_left (λ t a, define (f a).1 (f a).2 k t) l tbl)
  = static_counter tbl
  ∧ field_counter (fold_left (λ t a, define (f a).1 (f a).2 k t) l tbl)
    = field_counter tbl.
Proof.
  intros Hk. revert tbl. induction l as [|a l IH]; intros tbl; [done|].
  cbn. destruct (IH (define (f a).1 (f a).2 k tbl)) as [-> ->].
  destruct (define_counters (f a).1 (f a).2 k tbl) as (-> & -> & _).
  destruct Hk as [-> | ->]; str_decide; lia.
Qed.

Lemma body_table_class_counters cls d tbl :
  static_counter (body_table cls d tbl) = static_counter tbl
  ∧ field_counter (body_table cls d tbl) = field_counter tbl.
Proof.
  unfold body_table, parameters_table.
  assert (Hl : ∀ ds t,
    static_counter (declare_locals ds t) = static_counter t
    ∧ field_counter (declare_locals ds t) = field_counter t).
  { induction ds as [|v ds IH]; intros t; [done|].
    change (declare_locals (v :: ds) t)
      with (declare_locals ds (declare_var_dec v t)).
    destruct (IH (declare_var_dec v t)) as [-> ->].
    unfold declare_var_dec.
    destruct (fold_define_class_counters (λ x, (x, vd_type v)) "var"
                (vd_more v) (define (vd_name v) (vd_type v) "var" t))
      as [Hs Hf]; [by right|].
    cbn [fst snd] in Hs, Hf. rewrite Hs, Hf.
    destruct (define_counters (vd_name v) (vd_type v) "var" t)
      as (-> & -> & _).
    str_decide. lia. }
  destruct (Hl (sd_locals d)
              (declare_parameters (sd_parameters d)
                 (declare_receiver (sd_kind d)
                    (entered (cls +:+ "." +:+ sd_name d) tbl)))) as [-> ->].
  destruct (fold_define_class_counters (λ p : string * string, (p.2, p.1))
              "arg" (sd_parameters d)
              (declare_receiver (sd_kind d)
                 (entered (cls +:+ "." +:+ sd_name d) tbl)))
    as [Hs Hf]; [by left|].
  unfold declare_parameters. cbn [fst snd] in Hs, Hf. rewrite Hs, Hf.
  unfold declare_receiver. destruct (String.eqb _ _); [|done].
  destruct (define_counters "this" "self" "arg"
              (entered (cls +:+ "." +:+ sd_name d) tbl)) as (-> & -> & _).
  str_decide. cbn. lia.
Qed.

(** When a subroutine is compiled the class scope is as it was, and it is
    the current scope again. *)
Lemma subroutine_table_class cls d tbl :
  wf tbl →
  let tbl' := subroutine_table cls d tbl in
  wf tbl'
  ∧ cur_symbol_table tbl' = class_level_symbol_table tbl'
  ∧ dict_at tbl' (class_level_symbol_table tbl')
    = dict_at tbl (class_level_symbol_table tbl)
  ∧ static_counter tbl' = static_counter tbl
  ∧ field_counter tbl' = field_counter tbl.
Proof.
  intros Hwf tbl'.
  destruct (in_subroutine_body cls d tbl Hwf) as (Hwb & Hc & _ & Hd & _).
  destruct (body_table_class_counters cls d tbl) as [Hs Hf].
  destruct (statements_code_scopes cls) as [_ Hss].
  pose proof (Hss (sd_body d) (body_table cls d tbl)) as Hsame.
  pose proof (same_scopes_wf _ _ Hsame Hwb) as [Hw1 Hw2].
  pose proof (same_scopes_dict _ _ (class_level_symbol_table tbl) Hsame) as Hdict.
  destruct Hsame as (H1 & H2 & _ & _ & H5 & H6 & _).
  unfold tbl', subroutine_table. cbv zeta.
  split; [by split|]. split; [done|].
  cbn [class_level_symbol_table set_cur_symbol_table static_counter
       field_counter].
  change (dict_at (set_cur_symbol_table ?a ?t) ?b) with (dict_at t b).
  rewrite H2, Hc, Hdict, H5, H6, Hs, Hf. by rewrite Hc in Hd.
Qed.

Lemma subroutine_table_class_equiv cls d tbl :
  wf tbl → class_equiv tbl (subroutine_table cls d tbl).
Proof.
  intros Hwf.
  destruct (subroutine_table_class cls d tbl Hwf) as (H1 & _ & H3 & H4 & H5).
  split; [done|]. split; [done|]. by rewrite H3, H4, H5.
Qed.

Lemma class_equiv_trans t1 t2 t3 :
  class_equiv t1 t2 → class_equiv t2 t3 → class_equiv t1 t3.
Proof.
  intros (W1 & _ & D & S & F) (_ & W3 & D' & S' & F').
  unfold class_equiv. by rewrite D, S, F.
Qed.

Lemma class_equiv_refl tbl : wf tbl → class_equiv tbl tbl.
Proof. intros H. unfold class_equiv. auto. Qed.

(** The subroutines of a class are compiled independently of one another:
    each one gets the code it would get right after the class-level
    declarations. *)
Lemma subroutines_code_independent cls ds tbl0 tbl :
  class_equiv tbl0 tbl →
  (subroutines_code cls ds tbl).1
  = concat (map (λ d, subroutine_code cls d tbl0) ds)
  ∧ class_equiv tbl0 (subroutines_code cls ds tbl).2.
Proof.
  revert tbl. induction ds as [|d ds IH]; intros tbl Heq; [done|].
  cbn [subroutines_code map concat].
  pose proof Heq as (_ & Hwf & _).
  destruct (IH (subroutine_table cls d tbl)) as [IH1 IH2].
  { eapply class_equiv_trans; [done|]. by apply subroutine_table_class_equiv. }
  destruct (subroutines_code cls ds (subroutine_table cls d tbl)).
  cbn [fst snd] in *. split; [|done].
  by rewrite IH1, (class_equiv_subroutine_code cls d tbl0 tbl Heq).
Qed.

Lemma wf_declare_class_vars ds tbl : wf tbl → wf (declare_class_vars ds tbl).
Proof.
  revert tbl. induction ds as [|d ds IH]; intros tbl H; [done|].
  cbn. apply IH. unfold declare_class_var_dec.
  assert (H' : wf (define (cvd_name d) (cvd_type d) (cvd_kind d) tbl))
    by by apply wf_define.
  revert H'. generalize (define (cvd_name d) (cvd_type d) (cvd_kind d) tbl).
  induction (cvd_more d) as [|x xs IHx]; intros t Ht; [done|].
  cbn. apply IHx. by apply wf_define.
Qed.

(** ** Counting the symbols of a kind *)

Lemma symbols_of_kind_insert k d x e :
  (∀ e', d !! x = Some e' → e_kind e' ≠ k) →
  symbols_of_kind k (<[x := e]> d)
  = symbols_of_kind k d + (if decide (e_kind e = k) then 1 else 0).
Proof.
  intros Hx. unfold symbols_of_kind.
  assert (Hnone : filter (λ kv : string * entry, e_kind kv.2 = k) d !! x = None).
  { apply map_lookup_filter_None. destruct (d !! x) as [e'|] eqn:E.
    - right. intros e'' [= <-]. by apply Hx.
    - by left. }
  case_decide as Hk.
  - rewrite map_filter_insert_True by done.
    rewrite map_size_insert_None by done. lia.
  - rewrite map_filter_insert_False by done.
    rewrite map_filter_delete, delete_id by done. lia.
Qed.

Lemma define_var x ty tbl :
  wf tbl →
  dict_at (define x ty "var" tbl) (cur_symbol_table tbl)
  = <[x := Entry ty "var" (var_counter tbl)]>
      (dict_at tbl (cur_symbol_table tbl))
  ∧ var_counter (define x ty "var" tbl) = var_counter tbl + 1.
Proof.
  intros Hwf. rewrite dict_at_define by done. unfold define_target, define.
  str_decide. done.
Qed.

(** The local variables of a subroutine, as one list of definitions. *)
Lemma declare_var_dec_names d tbl :
  declare_var_dec d tbl
  = fold_left (λ t p, define p.2 p.1 "var" t) (var_dec_names d) tbl.
Proof.
  unfold declare_var_dec, var_dec_names. cbn [fold_left fst snd].
  generalize (define (vd_name d) (vd_type d) "var" tbl).
  induction (vd_more d) as [|x xs IH]; intros t; [done|].
  cbn. apply IH.
Qed.

Lemma declare_locals_names ds tbl :
  declare_locals ds tbl
  = fold_left (λ t p, define p.2 p.1 "var" t) (local_names ds) tbl.
Proof.
  revert tbl. induction ds as [|d ds IH]; intros tbl; [done|].
  change (declare_locals (d :: ds) tbl)
    with (declare_locals ds (declare_var_dec d tbl)).
  unfold local_names. cbn [map concat]. rewrite fold_left_app.
  by rewrite IH, declare_var_dec_names.
Qed.

Lemma locals_lookup ps :
  ∀ tbl, wf tbl → NoDup ps.*2 →
    (∀ x e, x ∈ ps.*2 → dict_at tbl (cur_symbol_table tbl) !! x = Some e →
            e_kind e ≠ "var") →
    let tbl' := fold_left (λ t p, define p.2 p.1 "var" t) ps tbl in
    cur_symbol_table tbl' = cur_symbol_table tbl
    ∧ symbols_of_kind "var" (dict_at tbl' (cur_symbol_table tbl))
      = symbols_of_kind "var" (dict_at tbl (cur_symbol_table tbl)) + length ps
    ∧ (∀ i ty nm, ps !! i = Some (ty, nm) →
         dict_at tbl' (cur_symbol_table tbl) !! nm
         = Some (Entry ty "var" (var_counter tbl + i)))
    ∧ (∀ x, x ∉ ps.*2 →
         dict_at tbl' (cur_symbol_table tbl) !! x
         = dict_at tbl (cur_symbol_table tbl) !! x).
Proof.
  induction ps as [|[ty0 nm0] ps IH]; intros tbl Hwf Hnd Hfresh; cbv zeta.
  - cbn [fold_left length]. rewrite Nat.add_0_r. repeat split; done.
  - cbn in Hnd. apply NoDup_cons in Hnd as [Hnm0 Hnd].
    cbn [fold_left fst snd length].
    destruct (define_addresses nm0 ty0 "var" tbl) as [Hcur _].
    destruct (define_var nm0 ty0 tbl Hwf) as [Hd Hc].
    destruct (IH (define nm0 ty0 "var" tbl) (wf_define _ _ _ _ Hwf) Hnd)
      as (IH1 & IH2 & IH3 & IH4).
    { intros x e Hx. rewrite Hcur, Hd.
      rewrite lookup_insert_ne by (intros ->; done).
      apply Hfresh. cbn. by right. }
    rewrite Hcur in *. split; [done|]. split; [|split].
    + rewrite IH2, Hd, symbols_of_kind_insert.
      * cbn. rewrite decide_True by done. lia.
      * intros e'. apply Hfresh. cbn. by left.
    + intros [|i] ty nm Hi; cbn in Hi.
      * injection Hi as <- <-. rewrite IH4 by done.
        rewrite Hd, lookup_insert_eq. do 2 f_equal. lia.
      * rewrite (IH3 _ _ _ Hi). do 2 f_equal. lia.
    + intros x Hx. cbn in Hx. apply not_elem_of_cons in Hx as [Hx1 Hx2].
      rewrite IH4 by done. rewrite Hd. by rewrite lookup_insert_ne.
Qed.

(** In the table of a subroutine, before its local variables are declared,
    the subroutine scope holds arguments only and the [var] counter is 0. *)
Lemma parameters_table_args cls d tbl :
  wf tbl →
  let tbl' := parameters_table cls d tbl in
  wf tbl'
  ∧ var_counter tbl' = 0
  ∧ ∀ x e, dict_at tbl' (cur_symbol_table tbl') !! x = Some e →
           e_kind e = "arg".
Proof.
  intros Hwf. cbv zeta. unfold parameters_table.
  set (t0 := declare_receiver (sd_kind d)
               (entered (cls +:+ "." +:+ sd_name d) tbl)).
  assert (H0 : wf t0 ∧ var_counter t0 = 0
               ∧ ∀ x e, dict_at t0 (cur_symbol_table t0) !! x = Some e →
                        e_kind e = "arg").
  { unfold t0, declare_receiver. destruct (String.eqb _ _).
    - pose proof (wf_entered (cls +:+ "." +:+ sd_name d) tbl Hwf) as Hwe.
      split; [by apply wf_define|]. split; [done|].
      destruct (define_addresses "this" "self" "arg"
                  (entered (cls +:+ "." +:+ sd_name d) tbl)) as [-> _].
      destruct (define_arg "this" "self" _ Hwe) as [-> _].
      rewrite dict_at_entered_new. intros x e.
      rewrite lookup_insert. case_decide; [by intros [= <-]|].
      by rewrite lookup_empty.
    - split; [by apply wf_entered|]. split; [done|].
      rewrite dict_at_entered_new. intros x e. by rewrite lookup_empty. }
  clearbody t0. revert t0 H0. unfold declare_parameters.
  induction (sd_parameters d) as [|[ty nm] ps IH]; intros t0 H0; [done|].
  cbn [fold_left fst snd]. apply IH.
  destruct H0 as (Hw & Hv & Hk).
  split; [by apply wf_define|]. split.
  - destruct (define_counters nm ty "arg" t0) as (_ & _ & _ & -> & _).
    str_decide. lia.
  - destruct (define_addresses nm ty "arg" t0) as [-> _].
    destruct (define_arg nm ty t0 Hw) as [-> _].
    intros x e. rewrite lookup_insert. case_decide; [by intros [= <-]|].
    apply Hk.
Qed.

(** The local variables of a subroutine get the indices 0, 1, 2, ... in
    declaration order, and they are as many as [n_locals] says. *)
Lemma body_table_locals cls d tbl :
  wf tbl → NoDup (local_names (sd_locals d)).*2 →
  subroutine_level_var_count "var" (body_table cls d tbl)
  = length (local_names (sd_locals d))
  ∧ ∀ i ty x, local_names (sd_locals d) !! i = Some (ty, x) →
      kind_of x (body_table cls d tbl) = Some "var"
      ∧ type_of x (body_table cls d tbl) = Some ty
      ∧ index_of x (body_table cls d tbl) = Some i.
Proof.
  intros Hwf Hnd.
  destruct (parameters_table_args cls d tbl Hwf) as (Hwp & Hv & Hk).
  unfold body_table. rewrite declare_locals_names.
  destruct (locals_lookup (local_names (sd_locals d))
              (parameters_table cls d tbl) Hwp Hnd)
    as (Hcur & Hcount & Hidx & _).
  { intros x e _ He. by rewrite (Hk _ _ He). }
  split.
  - unfold subroutine_level_var_count. rewrite count_kind_symbols.
    rewrite Hcur, Hcount.
    assert (H0 : symbols_of_kind "var"
                   (dict_at (parameters_table cls d tbl)
                      (cur_symbol_table (parameters_table cls d tbl))) = 0).
    { unfold symbols_of_kind. apply map_size_empty_iff, map_empty_filter_2.
      intros x e He. cbn. by rewrite (Hk _ _ He). }
    lia.
  - intros i ty x Hi. specialize (Hidx i ty x Hi).
    rewrite <- Hcur, Hv in Hidx.
    by destruct (lookup_cur _ _ _ Hidx) as (? & ? & ?).
Qed.

(** ** The class-level declarations *)

Lemma declare_class_var_dec_names d tbl :
  declare_class_var_dec d tbl
  = fold_left (λ t p, define p.2 p.1.2 p.1.1 t) (class_var_dec_names d) tbl.
Proof.
  unfold declare_class_var_dec, class_var_dec_names. cbn [fold_left fst snd].
  generalize (define (cvd_name d) (cvd_type d) (cvd_kind d) tbl).
  induction (cvd_more d) as [|x xs IH]; intros t; [done|].
  cbn. apply IH.
Qed.

Lemma declare_class_vars_names ds tbl :
  declare_class_vars ds tbl
  = fold_left (λ t p, define p.2 p.1.2 p.1.1 t) (class_var_names ds) tbl.
Proof.
  revert tbl. induction ds as [|d ds IH]; intros tbl; [done|].
  change (declare_class_vars (d :: ds) tbl)
    with (declare_class_vars ds (declare_class_var_dec d tbl)).
  unfold class_var_names. cbn [map concat]. rewrite fold_left_app.
  by rewrite IH, declare_class_var_dec_names.
Qed.

Lemma class_vars_count defs :
  ∀ tbl k, wf tbl →
    Forall (λ p, p.1.1 = "static" ∨ p.1.1 = "field") defs →
    NoDup defs.*2 →
    (∀ x, x ∈ defs.*2 →
          dict_at tbl (class_level_symbol_table tbl) !! x = None) →
    let tbl' := fold_left (λ t p, define p.2 p.1.2 p.1.1 t) defs tbl in
    class_level_symbol_table tbl' = class_level_symbol_table tbl
    ∧ symbols_of_kind k (dict_at tbl' (class_level_symbol_table tbl))
      = symbols_of_kind k (dict_at tbl (class_level_symbol_table tbl))
        + count_kind_names k defs.
Proof.
  induction defs as [|[[k0 ty0] nm0] defs IH];
    intros tbl k Hwf Hkinds Hnd Hfresh; cbv zeta.
  - cbn. split; [done|]. unfold count_kind_names. cbn. lia.
  - cbn in Hnd. apply NoDup_cons in Hnd as [Hnm0 Hnd].
    apply Forall_cons in Hkinds as [Hk0 Hkinds]. cbn in Hk0.
    cbn [fold_left fst snd].
    destruct (define_addresses nm0 ty0 k0 tbl) as [_ Hcls].
    assert (Hd : ∃ i, dict_at (define nm0 ty0 k0 tbl)
                        (class_level_symbol_table tbl)
                      = <[nm0 := Entry ty0 k0 i]>
                          (dict_at tbl (class_level_symbol_table tbl))).
    { rewrite dict_at_define by done. unfold define_target.
      destruct Hk0 as [-> | ->]; str_decide; by eexists. }
    destruct Hd as [i Hd].
    destruct (IH (define nm0 ty0 k0 tbl) k (wf_define _ _ _ _ Hwf) Hkinds Hnd)
      as (IH1 & IH2).
    { intros x Hx. rewrite Hcls, Hd.
      rewrite lookup_insert_ne by (intros ->; done).
      apply Hfresh. cbn. by right. }
    rewrite Hcls in *. split; [done|].
    rewrite IH2, Hd, symbols_of_kind_insert.
    + unfold count_kind_names. rewrite filter_cons. cbn [fst snd e_kind].
      case_decide; cbn [length]; lia.
    + intros e'. rewrite Hfresh; [done|]. cbn. by left.
Qed.

(** ** What the productions leave as it was, on every input *)

Lemma appends_refl s : appends s s.
Proof. split; [exists []; by rewrite app_nil_r|by exists []]. Qed.

Lemma appends_trans s1 s2 s3 : appends s1 s2 → appends s2 s3 → appends s1 s3.
Proof.
  intros [[c1 H1] [t1 G1]] [[c2 H2] [t2 G2]]. split.
  - exists (c1 ++ c2). by rewrite H2, H1, app_assoc.
  - exists (t1 ++ t2). by rewrite G1, G2, app_assoc.
Qed.

#[global] Instance expression_frame_preorder : PreOrder expression_frame.
Proof.
  split.
  - intros s. split; [apply appends_refl|done].
  - intros s1 s2 s3 (H1 & H2 & H3) (G1 & G2 & G3).
    split; [by eapply appends_trans|]. split; congruence.
Qed.

#[global] Instance statement_frame_preorder : PreOrder statement_frame.
Proof.
  split.
  - intros s. split; [apply appends_refl|].
    split; [apply same_scopes_refl|done].
  - intros s1 s2 s3 (H1 & H2 & H3) (G1 & G2 & G3).
    split; [by eapply appends_trans|].
    split; [by eapply same_scopes_trans|congruence].
Qed.

Lemma expression_statement_frame s s' :
  expression_frame s s' → statement_frame s s'.
Proof.
  intros (H1 & H2 & H3). split; [done|]. split; [|done].
  rewrite H2. apply same_scopes_refl.
Qed.

Section Keeps.

Context (R : state → state → Prop) `{!PreOrder R}.

Lemma keeps_ret {A} (a : A) : keeps R (ret a).
Proof. intros s a' s' [= _ <-]. reflexivity. Qed.

Lemma keeps_raise {A} e : keeps R (raise e : M A).
Proof. intros s a' s' [=]. Qed.

Lemma keeps_bind {A B} (m : M A) (k : A → M B) :
  keeps R m → (∀ a, keeps R (k a)) → keeps R (bind m k).
Proof.
  intros Hm Hk s b s'. unfold bind.
  destruct (m s) as [a s1|e] eqn:E; [|done].
  intros H. transitivity s1; [by eapply Hm|by eapply Hk].
Qed.

Lemma keeps_next_token_tuple : keeps R next_token_tuple.
Proof.
  intros s a s'. unfold next_token_tuple.
  destruct (input_tokenizer s); [done|]. intros [= _ <-]. reflexivity.
Qed.

Lemma keeps_table {A} (f : SymbolTable.t → A) : keeps R (table f).
Proof. intros s a s' [= _ <-]. reflexivity. Qed.

Lemma keeps_get_class_name : keeps R get_class_name.
Proof. intros s a s' [= _ <-]. reflexivity. Qed.

End Keeps.

Lemma keeps_weaken {A} (R R' : state → state → Prop) (m : M A) :
  (∀ s s', R s s' → R' s s') → keeps R m → keeps R' m.
Proof. intros H Hm s a s' E. by eapply H, Hm. Qed.

Lemma keeps_advance : keeps expression_frame advance.
Proof.
  intros s a s'. unfold advance.
  destruct (input_tokenizer s) as [|tok rest] eqn:E; [done|].
  intros [= _ <-]. split; [|done]. split; cbn.
  - exists []. by rewrite app_nil_r.
  - exists [tok]. by rewrite E.
Qed.

Lemma keeps_emit c : keeps expression_frame (emit c).
Proof.
  intros s [] s' [= <-]. split; [|done]. split; cbn.
  - by exists [c].
  - by exists [].
Qed.

Lemma keeps_increment_if :
  keeps statement_frame (update_table increment_if_counter).
Proof.
  intros s [] s' [= <-]. split; [apply (appends_refl s)|].
  split; [apply same_scopes_increment_if|done].
Qed.

Lemma keeps_increment_while :
  keeps statement_frame (update_table increment_while_counter).
Proof.
  intros s [] s' [= <-]. split; [apply (appends_refl s)|].
  split; [apply same_scopes_increment_while|done].
Qed.

(** One step of the proof that a production keeps a relation. *)
Ltac keeps_step :=
  first
    [ assumption
    | apply keeps_ret; tc_solve
    | apply keeps_raise
    | apply keeps_next_token_tuple; tc_solve
    | apply keeps_table; tc_solve
    | apply keeps_get_class_name; tc_solve
    | apply keeps_advance
    | apply keeps_emit
    | apply (keeps_weaken expression_frame statement_frame);
        [apply expression_statement_frame|];
        first [assumption | apply keeps_advance | apply keeps_emit]
    | apply keeps_increment_if
    | apply keeps_increment_while
    | apply keeps_bind; [try tc_solve..|intros ?]
    | match goal with
      | |- keeps _ (if ?b then _ else _) => destruct b
      | |- keeps _ (match ?o with Some _ => _ | None => _ end) => destruct o
      | H : ∀ _, keeps _ _ |- keeps _ _ => apply H
      | H : ∀ _ _, keeps _ _ |- keeps _ _ => apply H
      end ].

Ltac keeps_tac := repeat keeps_step.

Section Helpers.

Context (R : state → state → Prop) `{!PreOrder R}.
Context (R_advance : keeps R advance) (R_emit : ∀ c, keeps R (emit c)).

Lemma keeps_next_token_type_in l : keeps R (next_token_type_in l).
Proof. unfold next_token_type_in. keeps_tac. Qed.

Lemma keeps_next_token_value_in l : keeps R (next_token_value_in l).
Proof. unfold next_token_value_in. keeps_tac. Qed.

Lemma keeps_or_else a b : keeps R a → keeps R b → keeps R (or_else a b).
Proof. intros Ha Hb. unfold or_else. keeps_tac. Qed.

Lemma keeps_write_pop_or_push name method :
  keeps R (write_pop_or_push name method).
Proof. unfold write_pop_or_push. keeps_tac. Qed.

Lemma keeps_append_chars s : keeps R (append_chars s).
Proof. induction s as [|c s IH]; cbn [append_chars]; keeps_tac. Qed.

Lemma keeps_write_integer_string_keyword_constant :
  keeps R write_integer_string_keyword_constant.
Proof.
  pose proof keeps_next_token_type_in. pose proof keeps_next_token_value_in.
  pose proof keeps_append_chars.
  unfold write_integer_string_keyword_constant. keeps_tac.
Qed.

Lemma keeps_write_precise_subroutine_name name :
  keeps R (write_precise_subroutine_name name).
Proof.
  pose proof keeps_write_pop_or_push.
  unfold write_precise_subroutine_name, write_push_name. keeps_tac.
Qed.

Lemma keeps_write_pointer_update function_type :
  keeps R (write_pointer_update function_type).
Proof. unfold write_pointer_update. keeps_tac. Qed.

End Helpers.

Ltac frame_side :=
  first [tc_solve | exact keeps_advance | exact keeps_emit].

Lemma expressions_keep fuel :
  keeps expression_frame (compile_expression fuel)
  ∧ keeps expression_frame (compile_expression_while fuel)
  ∧ keeps expression_frame (compile_term fuel)
  ∧ keeps expression_frame (compile_expression_list fuel)
  ∧ (∀ k, keeps expression_frame (compile_expression_list_while fuel k))
  ∧ keeps expression_frame (compile_subroutine_call fuel)
  ∧ keeps expression_frame (write_identifier_term fuel)
  ∧ (∀ b x, keeps expression_frame (write_period_and_array_end fuel b x))
  ∧ (∀ x, keeps expression_frame (write_left_square_bracket fuel x)).
Proof.
  assert (Hty : ∀ l, keeps expression_frame (next_token_type_in l))
    by (intros; apply keeps_next_token_type_in; frame_side).
  assert (Hval : ∀ l, keeps expression_frame (next_token_value_in l))
    by (intros; apply keeps_next_token_value_in; frame_side).
  assert (Hpp : ∀ x m, keeps expression_frame (write_pop_or_push x m))
    by (intros; apply keeps_write_pop_or_push; frame_side).
  assert (Hconst : keeps expression_frame write_integer_string_keyword_constant)
    by (apply keeps_write_integer_string_keyword_constant; frame_side).
  assert (Hprecise : ∀ x,
            keeps expression_frame (write_precise_subroutine_name x))
    by (intros; apply keeps_write_precise_subroutine_name; frame_side).
  assert (Hstarts : ∀ l1 l2,
    keeps expression_frame
      (or_else (next_token_type_in l1) (next_token_value_in l2)))
    by (intros; apply keeps_or_else; first [frame_side | done]).
  induction fuel as [|fuel (IH1 & IH2 & IH3 & IH4 & IH5 & IH6 & IH7 & IH8 & IH9)].
  - split_and!; intros; apply keeps_raise.
  - split_and!; intros; simpl; unfold write_push_name; keeps_tac.
Qed.

Lemma statements_keep fuel :
  keeps statement_frame (compile_statements fuel)
  ∧ keeps statement_frame (compile_do fuel)
  ∧ keeps statement_frame (compile_let fuel)
  ∧ keeps statement_frame (compile_while fuel)
  ∧ keeps statement_frame (compile_return fuel)
  ∧ (∀ b, keeps statement_frame (compile_return_while fuel b))
  ∧ keeps statement_frame (compile_if fuel)
  ∧ (∀ n l, keeps statement_frame (write_if_else fuel n l)).
Proof.
  assert (Hadv : keeps statement_frame advance)
    by (eapply keeps_weaken;
        [apply expression_statement_frame|apply keeps_advance]).
  assert (Hemit : ∀ c, keeps statement_frame (emit c))
    by (intros; eapply keeps_weaken;
        [apply expression_statement_frame|apply keeps_emit]).
  assert (Hty : ∀ l, keeps statement_frame (next_token_type_in l))
    by (intros; apply keeps_next_token_type_in; tc_solve).
  assert (Hval : ∀ l, keeps statement_frame (next_token_value_in l))
    by (intros; apply keeps_next_token_value_in; tc_solve).
  assert (Hpp : ∀ x m, keeps statement_frame (write_pop_or_push x m))
    by (intros; apply keeps_write_pop_or_push; first [tc_solve|done]).
  assert (Hstarts : ∀ l1 l2,
    keeps statement_frame
      (or_else (next_token_type_in l1) (next_token_value_in l2)))
    by (intros; apply keeps_or_else; first [tc_solve | done]).
  assert (Hexpr : ∀ fuel,
    keeps statement_frame (compile_expression fuel)
    ∧ keeps statement_frame (compile_subroutine_call fuel)
    ∧ ∀ x, keeps statement_frame (write_left_square_bracket fuel x)).
  { intros n.
    destruct (expressions_keep n) as (H1 & _ & _ & _ & _ & H6 & _ & _ & H9).
    split_and!; intros; eapply keeps_weaken;
      first [apply expression_statement_frame | done]. }
  induction fuel as [|fuel (IH1 & IH2 & IH3 & IH4 & IH5 & IH6 & IH7 & IH8)].
  - split_and!; intros; apply keeps_raise.
  - destruct (Hexpr fuel) as (He & Hcall & Hbracket).
    split_and!; intros; simpl; unfold write_pop_name; keeps_tac.
Qed.

(** ** Where the loops of the engine stop *)

Lemma hoare_bind {A B} P (m : M A) Q (k : A → M B) R :
  hoare P m Q → (∀ a, hoare (Q a) (k a) R) → hoare P (bind m k) R.
Proof.
  intros Hm Hk s b s' Hs. unfold bind.
  destruct (m s) as [a s1|e] eqn:E; [|done].
  intros H. eapply Hk; [|done]. by eapply Hm.
Qed.

(** Only the last action of a sequence decides a property of the final
    state alone. *)
Lemma hoare_last {A B} P (m : M A) (k : A → M B) R :
  (∀ a, hoare (λ _, True) (k a) R) → hoare P (bind m k) R.
Proof.
  intros Hk. apply (hoare_bind P m (λ _ _, True)); [done|]. apply Hk.
Qed.

Lemma hoare_raise {A} P e Q : hoare P (raise e : M A) Q.
Proof. intros s a s' _ [=]. Qed.

Lemma hoare_peek l :
  hoare (λ _, True) (next_token_value_in l)
    (λ b s, ∃ tok rest, input_tokenizer s = tok :: rest ∧ mem tok.2 l = b).
Proof.
  intros s b s' _. unfold next_token_value_in, next_token_tuple, bind, ret.
  destruct (input_tokenizer s) as [|tok rest] eqn:E; [done|].
  intros [= <- <-]. by exists tok, rest.
Qed.

Lemma hoare_stop l :
  hoare (λ s, ∃ tok rest, input_tokenizer s = tok :: rest
                          ∧ mem tok.2 l = false)
    (ret tt) (λ _, stops_before l).
Proof. intros s [] s' H [= <-]. exact H. Qed.

Lemma expression_while_stops fuel :
  hoare (λ _, True) (compile_expression_while fuel)
    (λ _, stops_before
            (keys CALL_BINARY_OP_DICT ++ keys ARITHMETIC_BINARY_OP_DICT)).
Proof.
  induction fuel as [|fuel IH]; [apply hoare_raise|].
  simpl. eapply hoare_bind; [apply hoare_peek|].
  intros [|]; [|apply hoare_stop].
  do 3 (apply hoare_last; intros ?). apply IH.
Qed.

Lemma expression_list_while_stops fuel k :
  hoare (λ _, True) (compile_expression_list_while fuel k)
    (λ _, stops_before [","]).
Proof.
  revert k. induction fuel as [|fuel IH]; intros k; [apply hoare_raise|].
  simpl. eapply hoare_bind; [apply hoare_peek|].
  intros [|].
  - do 2 (apply hoare_last; intros ?). apply IH.
  - intros s a s' H [= _ <-]. exact H.
Qed.

Lemma statements_stop fuel :
  hoare (λ _, True) (compile_statements fuel)
    (λ _, stops_before statements_dict_keys).
Proof.
  induction fuel as [|fuel IH]; [apply hoare_raise|].
  simpl. eapply hoare_bind; [apply hoare_peek|].
  intros [|]; [|apply hoare_stop].
  do 2 (apply hoare_last; intros ?). apply IH.
Qed.

(** ** Jumps *)

Lemma targets_app c1 c2 : targets (c1 ++ c2) = targets c1 ++ targets c2.
Proof. apply omap_app. Qed.

Lemma targets_cons c code :
  targets (c :: code)
  = match target_of c with
    | Some l => l :: targets code
    | None => targets code
    end.
Proof. reflexivity. Qed.

Lemma targets_nil : targets [] = [].
Proof. reflexivity. Qed.

Lemma targets_name_code_push tbl x : targets (name_code write_push tbl x) = [].
Proof.
  unfold name_code.
  destruct (current_symbol_table_contains x tbl);
    by destruct (kind_of x tbl ≫= _).
Qed.

Lemma targets_name_code_pop tbl x : targets (name_code write_pop tbl x) = [].
Proof.
  unfold name_code.
  destruct (current_symbol_table_contains x tbl);
    by destruct (kind_of x tbl ≫= _).
Qed.

Lemma targets_chars_code s : targets (chars_code s) = [].
Proof. induction s; [done|]. cbn. apply IHs. Qed.

Lemma targets_op_code op : targets (op_code op) = [].
Proof.
  unfold op_code. destruct (getitem CALL_BINARY_OP_DICT op); [done|].
  by destruct (getitem ARITHMETIC_BINARY_OP_DICT op).
Qed.

Lemma targets_unary_code op : targets (unary_code op) = [].
Proof. unfold unary_code. by destruct (getitem UNARY_OP_DICT op). Qed.

Lemma targets_keyword_code v : targets (keyword_code v) = [].
Proof.
  unfold keyword_code. destruct (String.eqb v "this"); [done|].
  by destruct (String.eqb v "true").
Qed.

Ltac no_targets :=
  repeat (progress (rewrite ?targets_app, ?targets_cons, ?targets_nil;
                    cbn [target_of]));
  rewrite ?targets_name_code_push, ?targets_name_code_pop,
    ?targets_chars_code, ?targets_op_code, ?targets_unary_code,
    ?targets_keyword_code;
  repeat match goal with H : targets _ = [] |- _ => rewrite H end;
  try done.

Lemma targets_syntax cls tbl :
  (∀ t, targets (term_code cls tbl t) = [])
  ∧ (∀ e, targets (expression_code cls tbl e) = [])
  ∧ (∀ r, targets (op_terms_code cls tbl r) = [])
  ∧ (∀ c, targets (call_code cls tbl c) = [])
  ∧ (∀ a, targets (args_code cls tbl a) = []).
Proof.
  apply syntax_mutind; intros; simpl; try (by no_targets).
  destruct (_ || _); by no_targets.
Qed.

(** Every label of the code of a statement is the target of exactly one
    jump of that code, and every jump goes to one of these labels. *)
Lemma statement_targets_labels cls :
  (∀ s tbl,
     targets (statement_code cls s tbl).1 ≡ₚ labels (statement_code cls s tbl).1)
  ∧ (∀ ss tbl,
       targets (statements_code cls ss tbl).1
       ≡ₚ labels (statements_code cls ss tbl).1).
Proof.
  pose proof (λ tbl, proj1 (proj2 (targets_syntax cls tbl))) as Hexpr.
  pose proof (λ tbl, proj1 (proj2 (proj2 (proj2 (targets_syntax cls tbl)))))
    as Hcall.
  pose proof (λ tbl, proj1 (proj2 (labels_syntax cls tbl))) as Lexpr.
  pose proof (λ tbl, proj1 (proj2 (proj2 (proj2 (labels_syntax cls tbl)))))
    as Lcall.
  apply statements_mutind.
  - intros x e tbl. cbn [statement_code fst].
    by rewrite targets_app, labels_app, Hexpr, Lexpr, targets_name_code_pop,
      labels_name_code_pop.
  - intros x i e tbl. cbn [statement_code fst].
    rewrite !targets_app, !labels_app, targets_cons, labels_cons,
      !targets_app, !labels_app, !Hexpr, !Lexpr, targets_name_code_push,
      labels_name_code_push. done.
  - intros c body IH tbl. rewrite if_code. cbn [fst].
    rewrite targets_app, labels_app, Hexpr, Lexpr, !targets_cons, !labels_cons.
    cbn [target_of label_of app].
    rewrite targets_app, labels_app, (IH (increment_if_counter tbl)).
    cbn [targets labels omap target_of label_of]. rewrite app_nil_r.
    apply Permutation_skip, Permutation_cons_append.
  - intros c body IH1 else_body IH2 tbl. rewrite if_else_code. cbn [fst].
    rewrite targets_app, labels_app, Hexpr, Lexpr, !targets_cons, !labels_cons.
    cbn [target_of label_of app].
    rewrite targets_app, labels_app, (IH1 (increment_if_counter tbl)).
    rewrite !targets_cons, !labels_cons. cbn [target_of label_of].
    rewrite targets_app, labels_app, (IH2 _).
    cbn [targets labels omap target_of label_of]. rewrite app_nil_r.
    apply Permutation_skip.
    rewrite Permutation_middle. apply Permutation_app_head.
    apply Permutation_skip, Permutation_cons_append.
  - intros c body IH tbl. rewrite while_code. cbn [fst].
    rewrite targets_cons, labels_cons. cbn [target_of label_of].
    rewrite targets_app, labels_app, Hexpr, Lexpr, !targets_cons, !labels_cons.
    cbn [target_of label_of app].
    rewrite targets_app, labels_app, (IH (increment_while_counter tbl)).
    rewrite !targets_cons, !labels_cons, targets_nil, labels_nil.
    cbn [target_of label_of].
    rewrite <- !Permutation_cons_append. apply perm_swap.
  - intros c tbl. cbn [statement_code fst].
    by rewrite targets_app, labels_app, Hcall, Lcall.
  - intros [e|] tbl; cbn [statement_code fst]; [|done].
    by rewrite targets_app, labels_app, Hexpr, Lexpr.
  - done.
  - intros s IHs ss IHss tbl. rewrite statements_cons_code. cbn [fst].
    by rewrite targets_app, labels_app, IHs, IHss.
Qed.

(** ** Further properties of the engine *)

(** *** Classes *)

(** X1. [compile_class], run on the tokens of a class, consumes them, sets
    the class name and sends to the writer the code of the subroutines in
    order; the code of each subroutine is the one it gets in the table of
    the class-level declarations alone, whatever was compiled before it.
    The class scope is afterwards as the declarations left it. *)
Theorem class_compiles (c : class_dec) (tbl : SymbolTable.t) :
  wf tbl → class_ok c = true →
  ∃ n, ∀ fuel rest out cls,
    n ≤ fuel →
    ∃ tbl',
      compile_class fuel (State (class_tokens c ++ rest) out tbl cls)
      = Ok tt (State rest
                 (out ++ concat
                           (map (λ d, subroutine_code (cd_name c) d
                                        (declare_class_vars (cd_vars c) tbl))
                              (cd_subroutines c)))
                 tbl' (cd_name c))
      ∧ class_equiv (declare_class_vars (cd_vars c) tbl) tbl'.
Proof.
  intros Hwf Hok. destruct (class_runs c Hok) as [n Hn].
  exists n. intros fuel rest out cls Hle.
  exists (class_code c tbl).2. rewrite Hn by done.
  destruct (subroutines_code_independent (cd_name c) (cd_subroutines c)
              (declare_class_vars (cd_vars c) tbl)
              (declare_class_vars (cd_vars c) tbl)) as [H1 H2].
  { by apply class_equiv_refl, wf_declare_class_vars. }
  unfold class_code. by rewrite H1.
Qed.

Lemma class_compiles_witness :
  ∃ n, ∀ fuel,
    n ≤ fuel →
    ∃ tbl',
      compile_class fuel (new (class_tokens example_class))
      = Ok tt (State []
                 [write_function "Point.new" 0;
                  write_push "constant" (OInt 2);
                  write_call "Memory.alloc" 1;
                  write_pop "pointer" (OInt 0);
                  write_push "argument" (OInt 0);
                  write_pop "this" (OInt 0);
                  write_push "argument" (OInt 1);
                  write_pop "this" (OInt 1);
                  write_push "pointer" (OInt 0);
                  write_return;
                  write_function "Point.scale" 0;
                  write_push "argument" (OInt 0);
                  write_pop "pointer" (OInt 0);
                  write_push "argument" (OInt 2);
                  write_return]
                 tbl' "Point").
Proof.
  destruct (class_compiles example_class init) as [n H].
  { split; cbn; lia. }
  { reflexivity. }
  exists n. intros fuel Hle.
  destruct (H fuel [] [] "" Hle) as (tbl' & Hrun & _).
  exists tbl'. unfold new. rewrite <- (app_nil_r (class_tokens example_class)).
  rewrite Hrun. vm_compute. reflexivity.
Defined.

(** X2. The class-level declarations emit no code, and they add to the
    class scope as many symbols of each kind as they declare names of that
    kind, when the names are pairwise distinct and new to the class scope;
    so [class_level_var_count "field"], the size a constructor allocates,
    is the number of declared fields. *)
Theorem class_var_decs_counted (ds : list class_var_dec)
    (tbl : SymbolTable.t) :
  wf tbl →
  forallb (λ d, mem (cvd_kind d) ["static"; "field"]) ds = true →
  NoDup (class_var_names ds).*2 →
  (∀ x, x ∈ (class_var_names ds).*2 →
        class_level_symbol_table_contains x tbl = false) →
  ∃ n, ∀ fuel ty v rest out cls,
    n ≤ fuel → mem v ["static"; "field"] = false →
    compile_class_var_decs fuel
      (State (concat (map class_var_dec_tokens ds) ++ (ty, v) :: rest)
         out tbl cls)
    = Ok tt (State ((ty, v) :: rest) out (declare_class_vars ds tbl) cls)
    ∧ ∀ k, class_level_var_count k (declare_class_vars ds tbl)
           = class_level_var_count k tbl
             + count_kind_names k (class_var_names ds).
Proof.
  intros Hwf Hok Hnd Hfresh.
  destruct (class_var_decs_run ds Hok) as [n Hn].
  exists n. intros fuel ty v rest out cls Hle Hv.
  split; [by apply Hn|]. intros k.
  rewrite declare_class_vars_names.
  destruct (class_vars_count (class_var_names ds) tbl k Hwf) as [Hc Hcount];
    [|done|..].
  - apply Forall_forall. intros [[k0 ty0] x0] Hin. cbn.
    unfold class_var_names in Hin. apply list_elem_of_In in Hin.
    apply in_concat in Hin as (l & Hl & Hin).
    apply in_map_iff in Hl as (d & <- & Hd).
    rewrite forallb_forall in Hok. specialize (Hok d Hd).
    assert (Hk : k0 = cvd_kind d).
    { unfold class_var_dec_names in Hin. destruct Hin as [[= <- _ _]|Hin];
        [done|]. by apply in_map_iff in Hin as (? & [= <- _ _] & _). }
    subst k0. generalize dependent (cvd_kind d). intros k0 Hk0.
    cases_mem Hk0; auto.
  - intros x Hx. specialize (Hfresh x Hx).
    unfold class_level_symbol_table_contains in Hfresh.
    apply bool_decide_eq_false in Hfresh.
    destruct (dict_at tbl (class_level_symbol_table tbl) !! x); [|done].
    by destruct Hfresh.
  - unfold class_level_var_count. rewrite !count_kind_symbols.
    cbv zeta in Hc, Hcount. by rewrite Hc, Hcount.
Qed.

Lemma class_var_decs_counted_witness :
  ∃ n, ∀ fuel rest,
    n ≤ fuel →
    ∃ tbl',
      compile_class_var_decs fuel
        (State (concat (map class_var_dec_tokens (cd_vars example_class))
                ++ symbol "}" :: rest) [] init "Point")
      = Ok tt (State (symbol "}" :: rest) [] tbl' "Point")
      ∧ class_level_var_count "field" tbl' = 2
      ∧ class_level_var_count "static" tbl' = 1.
Proof.
  destruct (class_var_decs_counted (cd_vars example_class) init) as [n H].
  { split; cbn; lia. }
  { reflexivity. }
  { apply (bool_decide_unpack _). vm_compute. exact I. }
  { intros x _. reflexivity. }
  exists n. intros fuel rest Hle.
  destruct (H fuel "symbol" "}" rest [] "Point" Hle eq_refl) as [Hrun Hcount].
  eexists. split; [exact Hrun|]. split.
  - rewrite (Hcount "field"). reflexivity.
  - rewrite (Hcount "static"). reflexivity.
Defined.

(** *** Subroutines *)

Lemma fold_define_label_counters {A} (f : A → string * string * string) l tbl :
  if_counter
    (fold_left (λ t a, define (f a).1.1 (f a).1.2 (f a).2 t) l tbl)
  = if_counter tbl
  ∧ while_counter
      (fold_left (λ t a, define (f a).1.1 (f a).1.2 (f a).2 t) l tbl)
    = while_counter tbl.
Proof.
  revert tbl. induction l as [|a l IH]; intros tbl; [done|].
  cbn [fold_left]. destruct (IH (define (f a).1.1 (f a).1.2 (f a).2 tbl))
    as [-> ->].
  by destruct (define_counters (f a).1.1 (f a).1.2 (f a).2 tbl)
    as (_ & _ & _ & _ & -> & ->).
Qed.

Lemma body_table_label_counters cls d tbl :
  if_counter (body_table cls d tbl) = 0
  ∧ while_counter (body_table cls d tbl) = 0.
Proof.
  unfold body_table. rewrite declare_locals_names.
  pose proof (fold_define_label_counters
                (λ p : string * string, (p.2, p.1, "var"))
                (local_names (sd_locals d)) (parameters_table cls d tbl))
    as [H1 H2].
  cbn [fst snd] in H1, H2. rewrite H1, H2. clear H1 H2.
  unfold parameters_table, declare_parameters.
  pose proof (fold_define_label_counters
                (λ p : string * string, (p.2, p.1, "arg"))
                (sd_parameters d)
                (declare_receiver (sd_kind d)
                   (entered (cls +:+ "." +:+ sd_name d) tbl)))
    as [H1 H2].
  cbn [fst snd] in H1, H2. rewrite H1, H2. clear H1 H2.
  unfold declare_receiver. destruct (String.eqb _ _); [|done].
  by destruct (define_counters "this" "self" "arg"
                 (entered (cls +:+ "." +:+ sd_name d) tbl))
    as (_ & _ & _ & _ & -> & ->).
Qed.

Lemma labels_prologue_code kind tbl : labels (prologue_code kind tbl) = [].
Proof.
  unfold prologue_code. destruct (String.eqb kind "constructor"); [done|].
  by destruct (String.eqb kind "method").
Qed.

(** X3. A [function] has no receiver: its parameters, when their names are
    pairwise distinct, get the indices 0, 1, 2, ... in declaration order,
    and its code is the [function] command followed at once by the code of
    its statements. *)
Theorem function_has_no_receiver (cls : string) (d : subroutine_dec)
    (tbl : SymbolTable.t) :
  wf tbl → sd_kind d = "function" →
  parameters_ok (sd_parameters d) = true →
  NoDup (sd_parameters d).*2 →
  statements_ok (sd_body d) = true →
  (∀ i type x,
     sd_parameters d !! i = Some (type, x) →
     kind_of x (parameters_table cls d tbl) = Some "arg"
     ∧ type_of x (parameters_table cls d tbl) = Some type
     ∧ index_of x (parameters_table cls d tbl) = Some i)
  ∧ ∃ n, ∀ fuel rest out,
      n ≤ fuel →
      compile_subroutine fuel
        (State (subroutine_tokens d ++ rest) out tbl cls)
      = Ok tt (State rest
                 (out ++ write_function (cls +:+ "." +:+ sd_name d)
                           (subroutine_level_var_count "var"
                              (body_table cls d tbl))
                      :: (statements_code cls (sd_body d)
                            (body_table cls d tbl)).1)
                 (subroutine_table cls d tbl) cls).
Proof.
  intros Hwf Hkind Hps Hnd Hss. split.
  - intros i type x Hi. unfold parameters_table, declare_receiver.
    rewrite Hkind. cbn [String.eqb Ascii.eqb Bool.eqb].
    set (name := cls +:+ "." +:+ sd_name d).
    destruct (parameters_lookup (sd_parameters d) (entered name tbl)
                (wf_entered name tbl Hwf) Hnd) as (Hcur & Hpar & _).
    specialize (Hpar i type x Hi). rewrite <- Hcur in Hpar.
    by destruct (lookup_cur _ _ _ Hpar) as (? & ? & ?).
  - destruct (subroutine_runs d Hps Hss) as [n Hn].
    exists n. intros fuel rest out Hle. rewrite Hn by done.
    do 3 f_equal. unfold subroutine_code, prologue_code. by rewrite Hkind.
Qed.

Lemma function_has_no_receiver_witness :
  (index_of "a" (parameters_table "Main" example_function init) = Some 0
   ∧ index_of "b" (parameters_table "Main" example_function init) = Some 1)
  ∧ ∃ n, ∀ fuel rest out,
      n ≤ fuel →
      ∃ tbl',
        compile_subroutine fuel
          (State (subroutine_tokens example_function ++ rest) out init "Main")
        = Ok tt (State rest
                   (out ++ [write_function "Main.sum" 3;
                            write_push "argument" (OInt 0);
                            write_push "argument" (OInt 1);
                            write_arithmetic "add";
                            write_pop "local" (OInt 0);
                            write_push "local" (OInt 0);
                            write_return])
                   tbl' "Main").
Proof.
  assert (Hnd : NoDup (sd_parameters example_function).*2).
  { apply (bool_decide_unpack _). vm_compute. exact I. }
  destruct (function_has_no_receiver "Main" example_function init
              ltac:(split; cbn; lia) eq_refl eq_refl Hnd eq_refl)
    as (Hpar & n & H).
  split.
  - split.
    + by destruct (Hpar 0 "int" "a" eq_refl) as (_ & _ & ?).
    + by destruct (Hpar 1 "int" "b" eq_refl) as (_ & _ & ?).
  - exists n. intros fuel rest out Hle. eexists.
    rewrite (H fuel rest out Hle). vm_compute. reflexivity.
Defined.

(** X4. The local variables of a subroutine, when their names are pairwise
    distinct, get the indices 0, 1, 2, ... in declaration order, across the
    [var] declarations; and the number of locals in the [function] command
    is the number of declared names. *)
Theorem locals_indexed (cls : string) (d : subroutine_dec)
    (tbl : SymbolTable.t) :
  wf tbl → NoDup (local_names (sd_locals d)).*2 →
  parameters_ok (sd_parameters d) = true →
  statements_ok (sd_body d) = true →
  (∀ i type x,
     local_names (sd_locals d) !! i = Some (type, x) →
     kind_of x (body_table cls d tbl) = Some "var"
     ∧ type_of x (body_table cls d tbl) = Some type
     ∧ index_of x (body_table cls d tbl) = Some i)
  ∧ ∃ n, ∀ fuel rest out,
      n ≤ fuel →
      compile_subroutine fuel
        (State (subroutine_tokens d ++ rest) out tbl cls)
      = Ok tt (State rest
                 (out ++ write_function (cls +:+ "." +:+ sd_name d)
                           (length (local_names (sd_locals d)))
                      :: prologue_code (sd_kind d) (body_table cls d tbl)
                      ++ (statements_code cls (sd_body d)
                            (body_table cls d tbl)).1)
                 (subroutine_table cls d tbl) cls).
Proof.
  intros Hwf Hnd Hps Hss.
  destruct (body_table_locals cls d tbl Hwf Hnd) as [Hcount Hidx].
  split; [exact Hidx|].
  destruct (subroutine_runs d Hps Hss) as [n Hn].
  exists n. intros fuel rest out Hle. rewrite Hn by done.
  unfold subroutine_code. cbv zeta. by rewrite Hcount.
Qed.

Lemma locals_indexed_witness :
  (index_of "s" (body_table "Main" example_function init) = Some 0
   ∧ index_of "t" (body_table "Main" example_function init) = Some 1
   ∧ index_of "f" (body_table "Main" example_function init) = Some 2
   ∧ type_of "f" (body_table "Main" example_function init) = Some "boolean")
  ∧ ∃ n, ∀ fuel rest out,
      n ≤ fuel →
      ∃ code tbl',
        compile_subroutine fuel
          (State (subroutine_tokens example_function ++ rest) out init "Main")
        = Ok tt (State rest (out ++ write_function "Main.sum" 3 :: code)
                   tbl' "Main").
Proof.
  assert (Hnd : NoDup (local_names (sd_locals example_function)).*2).
  { apply (bool_decide_unpack _). vm_compute. exact I. }
  destruct (locals_indexed "Main" example_function init
              ltac:(split; cbn; lia) Hnd eq_refl eq_refl)
    as (Hidx & n & H).
  split.
  - destruct (Hidx 0 "int" "s" eq_refl) as (_ & _ & ?).
    destruct (Hidx 1 "int" "t" eq_refl) as (_ & _ & ?).
    destruct (Hidx 2 "boolean" "f" eq_refl) as (_ & ? & ?).
    done.
  - exists n. intros fuel rest out Hle. eexists _, _.
    exact (H fuel rest out Hle).
Defined.

(** X5. When a subroutine is compiled the class scope is current again and
    is as it was before: the same class-level symbols and the same
    [static] and [field] counters; the symbols of the subroutine are no
    longer found by the lookups. *)
Theorem subroutine_leaves_class_scope (cls : string) (d : subroutine_dec)
    (tbl : SymbolTable.t) :
  wf tbl →
  parameters_ok (sd_parameters d) = true →
  statements_ok (sd_body d) = true →
  ∃ n, ∀ fuel rest out,
    n ≤ fuel →
    ∃ code tbl',
      compile_subroutine fuel
        (State (subroutine_tokens d ++ rest) out tbl cls)
      = Ok tt (State rest (out ++ code) tbl' cls)
      ∧ cur_symbol_table tbl' = class_level_symbol_table tbl'
      ∧ dict_at tbl' (class_level_symbol_table tbl')
        = dict_at tbl (class_level_symbol_table tbl)
      ∧ static_counter tbl' = static_counter tbl
      ∧ field_counter tbl' = field_counter tbl
      ∧ ∀ x,
          kind_of x tbl'
          = e_kind <$> dict_at tbl (class_level_symbol_table tbl) !! x
          ∧ type_of x tbl'
            = e_type <$> dict_at tbl (class_level_symbol_table tbl) !! x
          ∧ index_of x tbl'
            = e_index <$> dict_at tbl (class_level_symbol_table tbl) !! x.
Proof.
  intros Hwf Hps Hss.
  destruct (subroutine_runs d Hps Hss) as [n Hn].
  exists n. intros fuel rest out Hle.
  exists (subroutine_code cls d tbl), (subroutine_table cls d tbl).
  split; [by apply Hn|].
  destruct (subroutine_table_class cls d tbl Hwf)
    as (_ & Hcur & Hdict & Hs & Hf).
  repeat (split; [done|]).
  intros x. unfold kind_of, type_of, index_of. rewrite Hcur, Hdict.
  by destruct (dict_at tbl (class_level_symbol_table tbl) !! x).
Qed.

Lemma subroutine_leaves_class_scope_witness :
  ∃ n, ∀ fuel rest out,
    n ≤ fuel →
    ∃ code tbl',
      compile_subroutine fuel
        (State (subroutine_tokens example_method ++ rest) out
           example_class_table "Point")
      = Ok tt (State rest (out ++ code) tbl' "Point")
      ∧ kind_of "k" tbl' = None
      ∧ kind_of "x" tbl' = Some "field"
      ∧ index_of "y" tbl' = Some 1.
Proof.
  destruct (subroutine_leaves_class_scope "Point" example_method
              example_class_table ltac:(split; vm_compute; lia) eq_refl eq_refl)
    as [n H].
  exists n. intros fuel rest out Hle.
  destruct (H fuel rest out Hle) as (code & tbl' & Hrun & _ & _ & _ & _ & Hx).
  exists code, tbl'. split; [exact Hrun|].
  destruct (Hx "k") as (-> & _). destruct (Hx "x") as (-> & _).
  destruct (Hx "y") as (_ & _ & ->). done.
Defined.

(** X6. The labels of a subroutine are numbered from 0, whatever was
    compiled before it: they are the labels of its statements for the
    counters 0 and 0, and no two of them are equal.  Two subroutines with
    the same statements get the same labels. *)
Theorem labels_restart_per_subroutine (cls : string) (d : subroutine_dec)
    (tbl : SymbolTable.t) :
  parameters_ok (sd_parameters d) = true →
  statements_ok (sd_body d) = true →
  ∃ n, ∀ fuel rest out,
    n ≤ fuel →
    ∃ code tbl',
      compile_subroutine fuel
        (State (subroutine_tokens d ++ rest) out tbl cls)
      = Ok tt (State rest (out ++ code) tbl' cls)
      ∧ labels code = label_name <$> statements_labels (sd_body d) 0 0
      ∧ NoDup (labels code).
Proof.
  intros Hps Hss.
  destruct (subroutine_runs d Hps Hss) as [n Hn].
  exists n. intros fuel rest out Hle.
  exists (subroutine_code cls d tbl), (subroutine_table cls d tbl).
  split; [by apply Hn|].
  assert (Hl : labels (subroutine_code cls d tbl)
               = label_name <$> statements_labels (sd_body d) 0 0).
  { unfold subroutine_code. cbv zeta.
    rewrite labels_cons. cbn [label_of].
    rewrite labels_app, labels_prologue_code. cbn [app].
    destruct (statement_labels_code cls) as [_ ->].
    by destruct (body_table_label_counters cls d tbl) as [-> ->]. }
  split; [done|]. rewrite Hl.
  apply (NoDup_fmap_2 label_name), statement_labels_NoDup.
Qed.

Lemma labels_restart_per_subroutine_witness :
  ∃ n, ∀ fuel rest out,
    n ≤ fuel →
    ∃ code tbl',
      compile_subroutine fuel
        (State (subroutine_tokens example_procedure ++ rest) out
           (increment_if_counter (increment_while_counter example_table))
           "Main")
      = Ok tt (State rest (out ++ code) tbl' "Main")
      ∧ labels code
        = ["IF_START0"; "WHILE_START0"; "IF_START1"; "ELSE1"; "IF_END1";
           "WHILE_END0"; "ELSE0"; "WHILE_START1"; "WHILE_END1"].
Proof.
  destruct (labels_restart_per_subroutine "Main" example_procedure
              (increment_if_counter (increment_while_counter example_table))
              eq_refl eq_refl) as [n H].
  exists n. intros fuel rest out Hle.
  destruct (H fuel rest out Hle) as (code & tbl' & Hrun & Hl & _).
  exists code, tbl'. split; [exact Hrun|]. rewrite Hl. vm_compute. reflexivity.
Defined.

(** *** Statements *)

(** X7. [return;] pushes the constant 0 before it returns; [return e;]
    emits the code of [e] and returns. *)
Theorem return_statement_code (e : expression) :
  expression_ok e = true →
  ∃ n, ∀ fuel rest out tbl cls,
    n ≤ fuel →
    compile_return fuel
      (State (keyword "return" :: symbol ";" :: rest) out tbl cls)
    = Ok tt (State rest
               (out ++ [write_push "constant" (OInt 0); write_return])
               tbl cls)
    ∧ compile_return fuel
        (State (keyword "return" :: expression_tokens e ++ symbol ";" :: rest)
           out tbl cls)
      = Ok tt (State rest (out ++ expression_code cls tbl e ++ [write_return])
                 tbl cls).
Proof.
  intros Hok. destruct syntax_runs as (_ & Hexpr & _).
  destruct (Hexpr e Hok) as [n Hn].
  exists (3 + n). intros fuel rest out tbl cls Hle. split.
  - unfold_fuel compile_return. step.
    unfold_fuel compile_return_while. fold starts_expression.
    erewrite bind_ok by apply starts_expression_semicolon.
    step. done.
  - unfold_fuel compile_return. step.
    unfold_fuel compile_return_while. fold starts_expression.
    erewrite bind_ok by (by apply starts_expression_run).
    step. rewrite Hn by side. step.
    unfold_fuel compile_return_while. fold starts_expression.
    erewrite bind_ok by apply starts_expression_semicolon.
    step. done.
Qed.

Lemma return_statement_code_witness :
  ∃ n, ∀ fuel rest out,
    n ≤ fuel →
    compile_return fuel
      (State (keyword "return" :: symbol ";" :: rest) out example_table "Main")
    = Ok tt (State rest
               (out ++ [write_push "constant" (OInt 0); write_return])
               example_table "Main")
    ∧ compile_return fuel
        (State (keyword "return" :: identifier "g" :: symbol ";" :: rest)
           out example_table "Main")
      = Ok tt (State rest
                 (out ++ [write_push "local" (OInt 0); write_return])
                 example_table "Main").
Proof.
  destruct (return_statement_code (Expression (VarName "g") NoOp) eq_refl)
    as [n H].
  exists n. intros fuel rest out Hle.
  exact (H fuel rest out example_table "Main" Hle).
Defined.

(** X8. [let x[i] = e;] emits the code of [i], the push of [x], [add], the
    code of [e], and then [pop temp 0], [pop pointer 1], [push temp 0],
    [pop that 0]: the value is parked in [temp 0] while [pointer 1] is set
    to the address. *)
Theorem let_array_code (tbl : SymbolTable.t) (x kind : string)
    (i e : expression) :
  scoped tbl → kind_of x tbl = Some kind →
  expression_ok i = true → expression_ok e = true →
  ∃ segment index,
    segment_of kind = Some segment ∧ index_of x tbl = Some index
    ∧ ∃ n, ∀ fuel rest out cls,
        n ≤ fuel →
        compile_let fuel
          (State (statement_tokens (LetArrayStatement x i e) ++ rest)
             out tbl cls)
        = Ok tt (State rest
                   (out ++ expression_code cls tbl i
                        ++ [write_push segment (OInt index);
                            write_arithmetic "add"]
                        ++ expression_code cls tbl e
                        ++ [write_pop "temp" (OInt 0);
                            write_pop "pointer" (OInt 1);
                            write_push "temp" (OInt 0);
                            write_pop "that" (OInt 0)])
                   tbl cls).
Proof.
  intros Hsc Hk Hi He.
  destruct (name_code_resolved write_push tbl x kind Hsc Hk)
    as (seg & idx & Hseg & Hidx & Hcode).
  exists seg, idx. split; [done|]. split; [done|].
  destruct syntax_runs as (_ & Hexpr & _).
  destruct (Hexpr i Hi) as [n1 Hn1]. destruct (Hexpr e He) as [n2 Hn2].
  exists (2 + n1 + n2). intros fuel rest out cls Hle.
  cbn [statement_tokens app].
  unfold_fuel compile_let. step.
  unfold_fuel write_left_square_bracket. step.
  rewrite Hn1 by side. step.
  unfold write_push_name. rewrite write_pop_or_push_run, Hcode. step.
  rewrite Hn2 by side. step. done.
Qed.

Lemma let_array_code_witness :
  ∃ n, ∀ fuel rest out,
    n ≤ fuel →
    compile_let fuel
      (State ([keyword "let"; identifier "g"; symbol "[";
               ("integerConstant", "2"); symbol "]"; symbol "=";
               identifier "n"; symbol ";"] ++ rest) out example_table "Main")
    = Ok tt (State rest
               (out ++ [write_push "constant" (OStr "2");
                        write_push "local" (OInt 0);
                        write_arithmetic "add";
                        write_push "argument" (OInt 1);
                        write_pop "temp" (OInt 0);
                        write_pop "pointer" (OInt 1);
                        write_push "temp" (OInt 0);
                        write_pop "that" (OInt 0)])
               example_table "Main").
Proof.
  destruct (let_array_code example_table "g" "var"
              (Expression (IntegerConstant "2") NoOp)
              (Expression (VarName "n") NoOp)
              example_table_scoped eq_refl eq_refl eq_refl)
    as (seg & idx & Hseg & Hidx & n & H).
  injection Hseg as <-. vm_compute in Hidx. injection Hidx as <-.
  exists n. intros fuel rest out Hle.
  exact (H fuel rest out "Main" Hle).
Defined.

(** X9. The term [x[i]] emits the code of [i], the push of [x], [add],
    [pop pointer 1] and [push that 0]. *)
Theorem array_entry_code (tbl : SymbolTable.t) (x kind : string)
    (i : expression) :
  scoped tbl → kind_of x tbl = Some kind →
  is_name x = true → expression_ok i = true →
  ∃ segment index,
    segment_of kind = Some segment ∧ index_of x tbl = Some index
    ∧ ∃ n, ∀ fuel ty v rest out cls,
        n ≤ fuel → term_follow v →
        compile_term fuel
          (State (term_tokens (ArrayEntry x i) ++ (ty, v) :: rest)
             out tbl cls)
        = Ok tt (State ((ty, v) :: rest)
                   (out ++ expression_code cls tbl i
                        ++ [write_push segment (OInt index);
                            write_arithmetic "add";
                            write_pop "pointer" (OInt 1);
                            write_push "that" (OInt 0)])
                   tbl cls).
Proof.
  intros Hsc Hk Hx Hi.
  destruct (name_code_resolved write_push tbl x kind Hsc Hk)
    as (seg & idx & Hseg & Hidx & Hcode).
  exists seg, idx. split; [done|]. split; [done|].
  destruct syntax_runs as (Hterm & _).
  destruct (Hterm (ArrayEntry x i)) as [n Hn].
  { cbn [term_ok]. by rewrite Hx, Hi. }
  exists n. intros fuel ty v rest out cls Hle Hv.
  rewrite Hn by done. cbn [term_code]. by rewrite Hcode.
Qed.

Lemma array_entry_code_witness :
  ∃ n, ∀ fuel rest out,
    n ≤ fuel →
    compile_term fuel
      (State ([identifier "g"; symbol "["; identifier "n"; symbol "]";
               symbol ";"] ++ rest) out example_table "Main")
    = Ok tt (State (symbol ";" :: rest)
               (out ++ [write_push "argument" (OInt 1);
                        write_push "local" (OInt 0);
                        write_arithmetic "add";
                        write_pop "pointer" (OInt 1);
                        write_push "that" (OInt 0)])
               example_table "Main").
Proof.
  destruct (array_entry_code example_table "g" "var"
              (Expression (VarName "n") NoOp)
              example_table_scoped eq_refl eq_refl eq_refl)
    as (seg & idx & Hseg & Hidx & n & H).
  injection Hseg as <-. vm_compute in Hidx. injection Hidx as <-.
  exists n. intros fuel rest out Hle.
  apply (H fuel "symbol" ";" rest out "Main" Hle).
  by apply expression_follow_term, semicolon_follow.
Defined.

(** X10. An [if] statement emits the code of the condition, [if-goto
    IF_STARTk], [goto ELSEk], [label IF_STARTk] and the code of the body;
    then, without [else], [label ELSEk]; with [else], [goto IF_ENDk],
    [label ELSEk], the code of the [else] body and [label IF_ENDk].  Here
    [k] is the value of the [if] counter, taken after the condition is
    compiled. *)
Theorem if_statement_code (c : expression) (body else_body : statements) :
  expression_ok c = true → statements_ok body = true →
  statements_ok else_body = true →
  ∃ n, ∀ fuel ty v rest out tbl cls,
    n ≤ fuel → mem v ["else"] = false →
    let k := format_int (get_if_counter tbl) in
    let r := statements_code cls body (increment_if_counter tbl) in
    let r' := statements_code cls else_body r.2 in
    compile_if fuel
      (State (statement_tokens (IfStatement c body) ++ (ty, v) :: rest)
         out tbl cls)
    = Ok tt (State ((ty, v) :: rest)
               (out ++ expression_code cls tbl c
                    ++ [write_if ("IF_START" +:+ k);
                        write_goto ("ELSE" +:+ k);
                        write_label ("IF_START" +:+ k)]
                    ++ r.1 ++ [write_label ("ELSE" +:+ k)])
               r.2 cls)
    ∧ compile_if fuel
        (State (statement_tokens (IfElseStatement c body else_body)
                ++ (ty, v) :: rest) out tbl cls)
      = Ok tt (State ((ty, v) :: rest)
                 (out ++ expression_code cls tbl c
                      ++ [write_if ("IF_START" +:+ k);
                          write_goto ("ELSE" +:+ k);
                          write_label ("IF_START" +:+ k)]
                      ++ r.1
                      ++ [write_goto ("IF_END" +:+ k);
                          write_label ("ELSE" +:+ k)]
                      ++ r'.1 ++ [write_label ("IF_END" +:+ k)])
                 r'.2 cls).
Proof.
  intros Hc Hb He. destruct statements_all_run as [Hrun _].
  destruct (Hrun (IfStatement c body)) as [n1 Hn1].
  { cbn [statement_ok]. by rewrite Hc, Hb. }
  destruct (Hrun (IfElseStatement c body else_body)) as [n2 Hn2].
  { cbn [statement_ok]. by rewrite Hc, Hb, He. }
  exists (n1 + n2). intros fuel ty v rest out tbl cls Hle Hv k r r'.
  cbn [handler] in Hn1, Hn2. split.
  - rewrite Hn1 by (first [lia|done]). rewrite if_code.
    cbn [fst snd]. by norm.
  - rewrite Hn2 by (first [lia|done]). rewrite if_else_code.
    cbn [fst snd]. by norm.
Qed.

Lemma if_statement_code_witness :
  ∃ n, ∀ fuel rest out,
    n ≤ fuel →
    compile_if fuel
      (State ([keyword "if"; symbol "("; identifier "n"; symbol ")";
               symbol "{"; keyword "return"; symbol ";"; symbol "}";
               keyword "else"; symbol "{"; symbol "}"; symbol "}"] ++ rest)
         out example_table "Main")
    = Ok tt (State (symbol "}" :: rest)
               (out ++ [write_push "argument" (OInt 1);
                        write_if "IF_START0"; write_goto "ELSE0";
                        write_label "IF_START0";
                        write_push "constant" (OInt 0); write_return;
                        write_goto "IF_END0"; write_label "ELSE0";
                        write_label "IF_END0"])
               (increment_if_counter example_table) "Main").
Proof.
  destruct (if_statement_code (Expression (VarName "n") NoOp)
              (Statements (ReturnStatement None) NoStatement) NoStatement
              eq_refl eq_refl eq_refl) as [n H].
  exists n. intros fuel rest out Hle.
  destruct (H fuel "symbol" "}" rest out example_table "Main" Hle eq_refl)
    as [_ H2].
  exact H2.
Defined.

(** X11. A [do] statement emits the code of the call and then [pop temp 0],
    which drops the value the call returns. *)
Theorem do_statement_code (c : subroutine_call) :
  call_ok c = true →
  ∃ n, ∀ fuel rest out tbl cls,
    n ≤ fuel →
    compile_do fuel
      (State (keyword "do" :: call_tokens c ++ symbol ";" :: rest)
         out tbl cls)
    = Ok tt (State rest
               (out ++ call_code cls tbl c ++ [write_pop "temp" (OInt 0)])
               tbl cls).
Proof.
  intros Hok. destruct syntax_runs as (_ & _ & _ & Hcall & _).
  destruct (Hcall c Hok) as [n Hn].
  exists (1 + n). intros fuel rest out tbl cls Hle.
  unfold_fuel compile_do. step.
  destruct (Hn fuel (("symbol", ";") :: rest) out tbl cls) as [-> _]; [lia|].
  step. done.
Qed.

Lemma do_statement_code_witness :
  ∃ n, ∀ fuel rest out,
    n ≤ fuel →
    compile_do fuel
      (State ([keyword "do"; identifier "Output"; symbol ".";
               identifier "println"; symbol "("; symbol ")"; symbol ";"]
              ++ rest) out example_table "Main")
    = Ok tt (State rest
               (out ++ [write_call "Output.println" 0;
                        write_pop "temp" (OInt 0)])
               example_table "Main").
Proof.
  destruct (do_statement_code (Qualified "Output" "println" NoArgs) eq_refl)
    as [n H].
  exists n. intros fuel rest out Hle.
  exact (H fuel rest out example_table "Main" Hle).
Defined.

(** *** Terms *)

Lemma chars_code_concat v :
  chars_code v
  = concat
      (map (λ c, [write_push "constant" (OInt (Ascii.nat_of_ascii c));
                  write_call "String.appendChar" 2])
         (String.list_ascii_of_string v)).
Proof. induction v as [|c v IH]; [done|]. cbn. by rewrite IH. Qed.

(** X12. A string constant of n characters pushes n, calls [String.new]
    with one argument and then, for each character in order, pushes its
    code and calls [String.appendChar] with two arguments; the token after
    the constant is not looked at. *)
Theorem string_constant_code (fuel : nat) (v : string) (rest : list token)
    (out : list vm_command) (tbl : SymbolTable.t) (cls : string) :
  compile_term (S fuel) (State (("stringConstant", v) :: rest) out tbl cls)
  = Ok tt (State rest
             (out ++ write_push "constant" (OInt (String.length v))
                  :: write_call "String.new" 1
                  :: concat
                       (map (λ c, [write_push "constant"
                                     (OInt (Ascii.nat_of_ascii c));
                                   write_call "String.appendChar" 2])
                          (String.list_ascii_of_string v)))
             tbl cls).
Proof.
  unfold_fuel compile_term. step.
  unfold write_integer_string_keyword_constant. step.
  rewrite append_chars_run, chars_code_concat. by norm.
Qed.

(** X13. An integer constant is pushed as the text of its token; [true] is
    [push constant 0] followed by [not]; [false] and [null] are
    [push constant 0]; [this] is [push pointer 0]. *)
Theorem constant_terms_code (fuel : nat) (v : string) (rest : list token)
    (out : list vm_command) (tbl : SymbolTable.t) (cls : string) :
  compile_term (S fuel) (State (("integerConstant", v) :: rest) out tbl cls)
  = Ok tt (State rest (out ++ [write_push "constant" (OStr v)]) tbl cls)
  ∧ compile_term (S fuel) (State (keyword "true" :: rest) out tbl cls)
    = Ok tt (State rest
               (out ++ [write_push "constant" (OInt 0); write_arithmetic "not"])
               tbl cls)
  ∧ compile_term (S fuel) (State (keyword "false" :: rest) out tbl cls)
    = Ok tt (State rest (out ++ [write_push "constant" (OInt 0)]) tbl cls)
  ∧ compile_term (S fuel) (State (keyword "null" :: rest) out tbl cls)
    = Ok tt (State rest (out ++ [write_push "constant" (OInt 0)]) tbl cls)
  ∧ compile_term (S fuel) (State (keyword "this" :: rest) out tbl cls)
    = Ok tt (State rest (out ++ [write_push "pointer" (OInt 0)]) tbl cls).
Proof.
  split_and!; unfold_fuel compile_term; step;
    unfold write_integer_string_keyword_constant; step; by norm.
Qed.

(** X14. A unary operator is applied after its operand: [op t] emits the
    code of [t] and then the command of [op], which is [neg] for [-],
    [not] for [~], [shiftleft] for [^] and [shiftright] for [#]. *)
Theorem unary_operator_code (op : string) (t : term) :
  mem op (keys UNARY_OP_DICT) = true → term_ok t = true →
  ∃ command,
    getitem UNARY_OP_DICT op = Some command
    ∧ (op, command) ∈ [("-", "neg"); ("~", "not"); ("^", "shiftleft");
                        ("#", "shiftright")]
    ∧ ∃ n, ∀ fuel ty v rest out tbl cls,
        n ≤ fuel → term_follow v →
        compile_term fuel
          (State (symbol op :: term_tokens t ++ (ty, v) :: rest) out tbl cls)
        = Ok tt (State ((ty, v) :: rest)
                   (out ++ term_code cls tbl t ++ [write_arithmetic command])
                   tbl cls).
Proof.
  intros Hop Ht.
  assert (Hcmd : ∃ command,
    getitem UNARY_OP_DICT op = Some command
    ∧ (op, command) ∈ [("-", "neg"); ("~", "not"); ("^", "shiftleft");
                        ("#", "shiftright")]).
  { pose proof Hop as H. cases_mem H; eexists; (split; [reflexivity|]).
    - by left.
    - right. by left.
    - do 2 right. by left.
    - do 3 right. by left. }
  destruct Hcmd as (command & Hget & Hin).
  exists command. split; [done|]. split; [done|].
  destruct syntax_runs as (Hterm & _).
  destruct (Hterm (Unary op t)) as [n Hn].
  { cbn [term_ok]. by rewrite Hop, Ht. }
  exists n. intros fuel ty v rest out tbl cls Hle Hv.
  change (symbol op :: term_tokens t ++ (ty, v) :: rest)
    with (term_tokens (Unary op t) ++ (ty, v) :: rest).
  rewrite Hn by done. cbn [term_code]. unfold unary_code. by rewrite Hget.
Qed.

Lemma unary_operator_code_witness :
  ∃ n, ∀ fuel rest out,
    n ≤ fuel →
    compile_term fuel
      (State ([symbol "-"; identifier "n"; symbol "+"; identifier "g"] ++ rest)
         out example_table "Main")
    = Ok tt (State (symbol "+" :: identifier "g" :: rest)
               (out ++ [write_push "argument" (OInt 1);
                        write_arithmetic "neg"])
               example_table "Main").
Proof.
  destruct (unary_operator_code "-" (VarName "n") eq_refl eq_refl)
    as (command & Hget & _ & n & H).
  injection Hget as <-.
  exists n. intros fuel rest out Hle.
  apply (H fuel "symbol" "+" (identifier "g" :: rest) out example_table
           "Main" Hle).
  repeat split.
Defined.

Lemma mem_false_sub a l l' :
  (∀ x, In x l' → In x l) → mem a l = false → mem a l' = false.
Proof.
  intros Hsub H. destruct (mem a l') eqn:E; [|done].
  apply mem_In, Hsub, mem_In in E. congruence.
Qed.

(** X15. The engine reports no syntax error: on a token that starts no
    term, [compile_term] returns normally, having consumed and emitted
    nothing; so does [compile_expression] when the token is no binary
    operator either. *)
Theorem no_term_is_accepted (fuel : nat) (ty v : string) (rest : list token)
    (out : list vm_command) (tbl : SymbolTable.t) (cls : string) :
  mem ty ["integerConstant"; "stringConstant"; "identifier"] = false →
  mem v ("(" :: KEYWORD_CONSTANT ++ keys UNARY_OP_DICT) = false →
  compile_term (S fuel) (State ((ty, v) :: rest) out tbl cls)
  = Ok tt (State ((ty, v) :: rest) out tbl cls)
  ∧ (mem v (keys CALL_BINARY_OP_DICT ++ keys ARITHMETIC_BINARY_OP_DICT)
     = false →
     compile_expression (S (S fuel)) (State ((ty, v) :: rest) out tbl cls)
     = Ok tt (State ((ty, v) :: rest) out tbl cls)).
Proof.
  intros Hty Hv.
  assert (H1 : mem ty ["integerConstant"; "stringConstant"] = false).
  { eapply mem_false_sub; [|exact Hty]. intros x. cbn. tauto. }
  assert (H2 : mem ty ["identifier"] = false).
  { eapply mem_false_sub; [|exact Hty]. intros x. cbn. tauto. }
  assert (H3 : mem v KEYWORD_CONSTANT = false).
  { eapply mem_false_sub; [|exact Hv]. intros x. cbv. tauto. }
  assert (H4 : mem v (keys UNARY_OP_DICT) = false).
  { eapply mem_false_sub; [|exact Hv]. intros x. cbv. tauto. }
  assert (H5 : mem v ["("] = false).
  { eapply mem_false_sub; [|exact Hv]. intros x. cbv. tauto. }
  assert (Hterm : ∀ n, compile_term (S n) (State ((ty, v) :: rest) out tbl cls)
                       = Ok tt (State ((ty, v) :: rest) out tbl cls)).
  { intros n. unfold_fuel compile_term. step. done. }
  split; [apply Hterm|]. intros Hop.
  remember (S fuel) as n eqn:En.
  unfold_fuel compile_expression. step.
  destruct n as [|n]; [discriminate En|]. rewrite Hterm.
  unfold_fuel compile_expression_while. step. done.
Qed.

Lemma no_term_is_accepted_witness :
  compile_term 1 (State [symbol ";"] [] init "Main")
  = Ok tt (State [symbol ";"] [] init "Main")
  ∧ compile_expression 2 (State [symbol ";"] [] init "Main")
    = Ok tt (State [symbol ";"] [] init "Main").
Proof.
  destruct (no_term_is_accepted 0 "symbol" ";" [] [] init "Main"
              eq_refl eq_refl) as [H1 H2].
  split; [exact H1|exact (H2 eq_refl)].
Defined.

(** *** Inputs that end *)

(** X16. On an empty token list the productions raise [IndexError]: the
    engine reads a token before it does anything else. *)
Theorem empty_input_raises (fuel : nat) (out : list vm_command)
    (tbl : SymbolTable.t) (cls : string) :
  compile_class fuel (State [] out tbl cls) = Raise IndexError
  ∧ compile_subroutine fuel (State [] out tbl cls) = Raise IndexError
  ∧ compile_statements (S fuel) (State [] out tbl cls) = Raise IndexError
  ∧ compile_expression (S (S fuel)) (State [] out tbl cls) = Raise IndexError
  ∧ compile_term (S fuel) (State [] out tbl cls) = Raise IndexError
  ∧ compile_subroutine_call (S fuel) (State [] out tbl cls) = Raise IndexError.
Proof. split_and!; reflexivity. Qed.

(** X17. The loops of the engine look one token ahead: when
    [compile_statements] returns, a token is left and it starts no
    statement; when [compile_expression] returns, a token is left and it is
    no binary operator; when [compile_expression_list] returns, a token is
    left and it is no comma.  None of them returns at the end of the
    input. *)
Theorem loops_stop_at_other_token (fuel : nat) (s s' : state) :
  (compile_statements fuel s = Ok tt s' →
   stops_before statements_dict_keys s')
  ∧ (compile_expression fuel s = Ok tt s' →
     stops_before
       (keys CALL_BINARY_OP_DICT ++ keys ARITHMETIC_BINARY_OP_DICT) s')
  ∧ (∀ n, compile_expression_list fuel s = Ok n s' → stops_before [","] s').
Proof.
  split_and!.
  - by apply (statements_stop fuel s tt s').
  - destruct fuel as [|fuel]; [done|]. simpl.
    by apply (hoare_last (λ _, True) _ _ _
                (λ _, expression_while_stops fuel) s tt s').
  - intros n. destruct fuel as [|fuel]; [done|]. simpl. intros Hrun.
    refine (hoare_last (λ _, True) _ _ (λ _, stops_before [","]) _
              s n s' I Hrun).
    intros b. apply hoare_last. intros k. apply expression_list_while_stops.
Qed.

Lemma loops_stop_at_other_token_witness :
  stops_before (keys CALL_BINARY_OP_DICT ++ keys ARITHMETIC_BINARY_OP_DICT)
    (State [symbol ")"; symbol ";"] [write_push "argument" (OInt 1)]
       example_table "Main").
Proof.
  apply (proj1 (proj2
           (loops_stop_at_other_token 5
              (State [identifier "n"; symbol ")"; symbol ";"] []
                 example_table "Main")
              (State [symbol ")"; symbol ";"] [write_push "argument" (OInt 1)]
                 example_table "Main")))).
  vm_compute. reflexivity.
Defined.

(** *** What the productions leave as it was *)

(** X18. Compiling an expression, a term, a call or an argument list never
    changes the symbol table or the class name, on any input; it only
    appends to the output and consumes tokens from the front. *)
Theorem expressions_keep_table (fuel : nat) (s s' : state) :
  compile_expression fuel s = Ok tt s' ∨ compile_term fuel s = Ok tt s'
  ∨ compile_subroutine_call fuel s = Ok tt s'
  ∨ (∃ n, compile_expression_list fuel s = Ok n s') →
  symbol_table s' = symbol_table s
  ∧ class_name s' = class_name s
  ∧ (∃ code, output_vm_writer s' = output_vm_writer s ++ code)
  ∧ (∃ toks, input_tokenizer s = toks ++ input_tokenizer s').
Proof.
  destruct (expressions_keep fuel)
    as (H1 & _ & H3 & H4 & _ & H6 & _).
  assert (Hframe : expression_frame s s' →
    symbol_table s' = symbol_table s ∧ class_name s' = class_name s
    ∧ (∃ code, output_vm_writer s' = output_vm_writer s ++ code)
    ∧ (∃ toks, input_tokenizer s = toks ++ input_tokenizer s')).
  { by intros ([? ?] & ? & ?). }
  intros [H|[H|[H|[n H]]]]; apply Hframe.
  - by apply (H1 s tt s').
  - by apply (H3 s tt s').
  - by apply (H6 s tt s').
  - by apply (H4 s n s').
Qed.

Lemma expressions_keep_table_witness :
  symbol_table
    (State [symbol ";"] [write_push "argument" (OInt 1)] example_table "Main")
  = example_table.
Proof.
  apply (expressions_keep_table 5
           (State [identifier "n"; symbol ";"] [] example_table "Main")
           (State [symbol ";"] [write_push "argument" (OInt 1)]
              example_table "Main")).
  left. vm_compute. reflexivity.
Defined.

Lemma same_scopes_lookups tbl tbl' x :
  same_scopes tbl tbl' →
  kind_of x tbl' = kind_of x tbl ∧ type_of x tbl' = type_of x tbl
  ∧ index_of x tbl' = index_of x tbl.
Proof.
  intros H. pose proof (λ a, same_scopes_dict tbl tbl' a H) as Hd.
  destruct H as (_ & H2 & _ & H4 & _).
  unfold kind_of, type_of, index_of. by rewrite H2, H4, !Hd.
Qed.

(** X19. Compiling statements never defines or removes a symbol, on any
    input: the dicts, the current scope and the four index counters are as
    they were, the label counters have not decreased, the class name is
    unchanged, and every name resolves as before. *)
Theorem statements_keep_scopes (fuel : nat) (s s' : state) :
  compile_statements fuel s = Ok tt s' →
  same_scopes (symbol_table s) (symbol_table s')
  ∧ class_name s' = class_name s
  ∧ (∃ code, output_vm_writer s' = output_vm_writer s ++ code)
  ∧ (∃ toks, input_tokenizer s = toks ++ input_tokenizer s')
  ∧ ∀ x, kind_of x (symbol_table s') = kind_of x (symbol_table s)
         ∧ type_of x (symbol_table s') = type_of x (symbol_table s)
         ∧ index_of x (symbol_table s') = index_of x (symbol_table s).
Proof.
  intros Hrun. destruct (statements_keep fuel) as (H1 & _).
  destruct (H1 s tt s' Hrun) as ([Hout Hin] & Hsame & Hcls).
  repeat (split; [done|]). intros x. by apply same_scopes_lookups.
Qed.

Lemma statements_keep_scopes_witness :
  kind_of "game"
    (symbol_table
       (State [symbol "}"]
          [write_label "WHILE_START0"; write_push "argument" (OInt 1);
           write_arithmetic "not"; write_if "WHILE_END0";
           write_goto "WHILE_START0"; write_label "WHILE_END0"]
          (increment_while_counter example_table) "Main"))
  = kind_of "game" example_table.
Proof.
  destruct (statements_keep_scopes 8
              (State [keyword "while"; symbol "("; identifier "n"; symbol ")";
                      symbol "{"; symbol "}"; symbol "}"] [] example_table
                 "Main")
              (State [symbol "}"]
                 [write_label "WHILE_START0"; write_push "argument" (OInt 1);
                  write_arithmetic "not"; write_if "WHILE_END0";
                  write_goto "WHILE_START0"; write_label "WHILE_END0"]
                 (increment_while_counter example_table) "Main"))
    as (_ & _ & _ & _ & H).
  { vm_compute. reflexivity. }
  by destruct (H "game") as (? & _).
Defined.

(** *** Jumps *)

(** X20. In the code of a statement sequence every [goto] and [if-goto]
    goes to a label placed in that code, and every label placed is the
    target of exactly one jump: the targets are a permutation of the
    labels, and no target occurs twice. *)
Theorem jumps_reach_labels (ss : statements) :
  statements_ok ss = true →
  ∃ n, ∀ fuel ty v rest out tbl cls,
    n ≤ fuel → statements_follow v →
    ∃ code tbl',
      compile_statements fuel
        (State (statements_tokens ss ++ (ty, v) :: rest) out tbl cls)
      = Ok tt (State ((ty, v) :: rest) (out ++ code) tbl' cls)
      ∧ targets code ≡ₚ labels code
      ∧ NoDup (targets code)
      ∧ ∀ l, l ∈ targets code → l ∈ labels code.
Proof.
  intros Hok. destruct statements_all_run as [_ Hrun].
  destruct (Hrun ss Hok) as [n Hn].
  exists n. intros fuel ty v rest out tbl cls Hle Hv.
  exists (statements_code cls ss tbl).1, (statements_code cls ss tbl).2.
  split; [by apply Hn|].
  destruct (statement_targets_labels cls) as [_ Hperm].
  destruct (statement_labels_code cls) as [_ Hl].
  destruct statement_labels_NoDup as [_ Hnd].
  split; [apply Hperm|]. split.
  - rewrite Hperm, Hl. apply (NoDup_fmap_2 label_name), Hnd.
  - intros l. by rewrite Hperm.
Qed.

Lemma jumps_reach_labels_witness :
  ∃ n, ∀ fuel rest out,
    n ≤ fuel →
    ∃ code tbl',
      compile_statements fuel
        (State (statements_tokens example_statements ++ symbol "}" :: rest)
           out example_table "Main")
      = Ok tt (State (symbol "}" :: rest) (out ++ code) tbl' "Main")
      ∧ targets code ≡ₚ labels code.
Proof.
  destruct (jumps_reach_labels example_statements eq_refl) as [n H].
  exists n. intros fuel rest out Hle.
  destruct (H fuel "symbol" "}" rest out example_table "Main" Hle brace_follow)
    as (code & tbl' & H1 & H2 & _).
  by exists code, tbl'.
Defined.

(** *** The symbol table *)

(** X21. [start_subroutine] alone does not change the scope: after it every
    lookup answers as before, and the symbols of the scope that was current
    are still counted; only [set_cur_level_symbol_table] makes the new,
    empty dict current. *)
Theorem start_subroutine_keeps_lookups (name : string) (tbl : SymbolTable.t)
    (x : string) :
  wf tbl →
  kind_of x (start_subroutine name tbl) = kind_of x tbl
  ∧ type_of x (start_subroutine name tbl) = type_of x tbl
  ∧ index_of x (start_subroutine name tbl) = index_of x tbl
  ∧ current_symbol_table_contains x (start_subroutine name tbl)
    = current_symbol_table_contains x tbl
  ∧ class_level_symbol_table_contains x (start_subroutine name tbl)
    = class_level_symbol_table_contains x tbl
  ∧ ∀ kind, subroutine_level_var_count kind (start_subroutine name tbl)
            = subroutine_level_var_count kind tbl.
Proof.
  intros [H1 H2].
  assert (Hd : ∀ a, a < length (store tbl) →
                    dict_at (start_subroutine name tbl) a = dict_at tbl a).
  { intros a Ha. unfold dict_at. cbn. by rewrite lookup_app_l. }
  unfold kind_of, type_of, index_of, current_symbol_table_contains,
    class_level_symbol_table_contains, subroutine_level_var_count.
  cbn [cur_symbol_table class_level_symbol_table start_subroutine].
  by rewrite !Hd.
Qed.

Lemma start_subroutine_keeps_lookups_witness :
  kind_of "g" (start_subroutine "Main.next" example_table) = Some "var"
  ∧ index_of "n" (start_subroutine "Main.next" example_table) = Some 1.
Proof.
  destruct (start_subroutine_keeps_lookups "Main.next" example_table "g"
              ltac:(split; vm_compute; lia)) as (Hk & _).
  destruct (start_subroutine_keeps_lookups "Main.next" example_table "n"
              ltac:(split; vm_compute; lia)) as (_ & _ & Hi & _).
  rewrite Hk, Hi. split; reflexivity.
Defined.

(** ** The engine terminates, and raises nothing but [IndexError] *)

Lemma wp_ret {A} (a : A) Q s : Q a s → wp (ret a) Q s.
Proof. done. Qed.

Lemma wp_bind {A B} (m : M A) (k : A → M B) Q s :
  wp m (λ a s', wp (k a) Q s') s → wp (bind m k) Q s.
Proof. unfold wp, bind. by destruct (m s). Qed.

Lemma wp_mono {A} (m : M A) (Q Q' : A → state → Prop) s :
  wp m Q s → (∀ a s', Q a s' → Q' a s') → wp m Q' s.
Proof. unfold wp. destruct (m s); auto. Qed.

Lemma wp_index_error {A} Q s : wp (raise IndexError : M A) Q s.
Proof. done. Qed.

Lemma wp_advance Q toks out tbl cls :
  (∀ ty v rest, toks = (ty, v) :: rest → Q v (State rest out tbl cls)) →
  wp advance Q (State toks out tbl cls).
Proof.
  intros H. destruct toks as [|[ty v] rest]; [done|].
  exact (H ty v rest eq_refl).
Qed.

Lemma wp_next_token_tuple Q toks out tbl cls :
  (∀ ty v rest, toks = (ty, v) :: rest →
                Q (ty, v) (State toks out tbl cls)) →
  wp next_token_tuple Q (State toks out tbl cls).
Proof.
  intros H. destruct toks as [|[ty v] rest]; [done|].
  exact (H ty v rest eq_refl).
Qed.

Lemma wp_next_token_value_in l Q toks out tbl cls :
  (∀ ty v rest, toks = (ty, v) :: rest →
                Q (mem v l) (State toks out tbl cls)) →
  wp (next_token_value_in l) Q (State toks out tbl cls).
Proof.
  intros H. destruct toks as [|[ty v] rest]; [done|].
  exact (H ty v rest eq_refl).
Qed.

Lemma wp_next_token_type_in l Q toks out tbl cls :
  (∀ ty v rest, toks = (ty, v) :: rest →
                Q (mem ty l) (State toks out tbl cls)) →
  wp (next_token_type_in l) Q (State toks out tbl cls).
Proof.
  intros H. destruct toks as [|[ty v] rest]; [done|].
  exact (H ty v rest eq_refl).
Qed.

Lemma wp_emit c Q toks out tbl cls :
  Q tt (State toks (out ++ [c]) tbl cls) →
  wp (emit c) Q (State toks out tbl cls).
Proof. done. Qed.

Lemma wp_table {A} (f : SymbolTable.t → A) Q toks out tbl cls :
  Q (f tbl) (State toks out tbl cls) →
  wp (table f) Q (State toks out tbl cls).
Proof. done. Qed.

Lemma wp_update_table f Q toks out tbl cls :
  Q tt (State toks out (f tbl) cls) →
  wp (update_table f) Q (State toks out tbl cls).
Proof. done. Qed.

Lemma wp_get_class_name Q toks out tbl cls :
  Q cls (State toks out tbl cls) →
  wp get_class_name Q (State toks out tbl cls).
Proof. done. Qed.

Lemma wp_set_class_name name Q toks out tbl cls :
  Q tt (State toks out tbl name) →
  wp (set_class_name name) Q (State toks out tbl cls).
Proof. done. Qed.

Lemma mem_not_In x l : mem x l = false → ¬ In x l.
Proof. intros H Hin. apply mem_In in Hin. congruence. Qed.

Lemma getitem_keys d k : mem k (keys d) = true → getitem d k ≠ None.
Proof.
  unfold mem, keys. induction d as [|[k' v] d IH]; [by cbv|].
  change (getitem ((k', v) :: d) k)
    with (if String.eqb k k' then Some v else getitem d k).
  cbn [map existsb fst]. destruct (String.eqb k k'); [done|].
  apply IH.
Qed.

(** Facts about membership in the sets of the engine, as propositions. *)
Ltac mem_props :=
  repeat match goal with
  | H : mem _ _ = true |- _ => apply mem_In in H
  | H : mem _ _ = false |- _ => apply mem_not_In in H
  | H : String.eqb _ _ = true |- _ => apply String.eqb_eq in H
  | H : String.eqb _ _ = false |- _ => apply String.eqb_neq in H
  end;
  unfold keys, KEYWORD_CONSTANT, UNARY_OP_DICT, CALL_BINARY_OP_DICT,
    ARITHMETIC_BINARY_OP_DICT, statements_dict_keys in *;
  cbn [In map fst app] in *.

Ltac mem_contra := exfalso; mem_props; intuition congruence.

(** The length bookkeeping of the proofs below. *)
Ltac len_simpl :=
  unfold shrinks, consumes, consumes_start, len in *;
  cbn [length input_tokenizer] in *.

Ltac starts_solve :=
  unfold starts; cbn [input_tokenizer];
  do 3 eexists; (split; [reflexivity|]);
  first [left; assumption | right; assumption].

Ltac starts_absurd :=
  match goal with
  | H : starts _ |- _ =>
      let Heq := fresh in
      destruct H as (? & ? & ? & Heq & [?|?]);
      cbn [input_tokenizer] in Heq; simplify_eq; mem_contra
  end.

Ltac starts_apply :=
  repeat match goal with
  | H : starts ?s → _, H' : starts ?s |- _ => specialize (H H')
  end.

Ltac len_solve :=
  len_simpl;
  first [ lia
        | split; [lia|intros; starts_apply; first [lia | starts_absurd]] ].

(** One step of symbolic execution. *)
Ltac wp_prim :=
  lazymatch goal with
  | |- wp (bind _ _) _ _ => apply wp_bind
  | |- wp (ret _) _ _ => apply wp_ret
  | |- wp (raise IndexError) _ _ => apply wp_index_error
  | |- wp (raise KeyError) _ _ =>
      first [ exfalso; eapply getitem_keys; eassumption | mem_contra ]
  | |- wp advance _ _ =>
      apply wp_advance; intros ? ? ? ?; simplify_eq
  | |- wp next_token_tuple _ _ =>
      apply wp_next_token_tuple; intros ? ? ? ?; simplify_eq
  | |- wp (next_token_value_in _) _ _ =>
      apply wp_next_token_value_in; intros ? ? ? ?; simplify_eq
  | |- wp (next_token_type_in _) _ _ =>
      apply wp_next_token_type_in; intros ? ? ? ?; simplify_eq
  | |- wp (or_else _ _) _ _ => unfold or_else
  | |- wp (emit _) _ _ => apply wp_emit
  | |- wp (table _) _ _ => apply wp_table
  | |- wp (update_table _) _ _ => apply wp_update_table
  | |- wp (symbol_table_define _ _ _) _ _ =>
      unfold symbol_table_define; apply wp_update_table
  | |- wp get_class_name _ _ => apply wp_get_class_name
  | |- wp (set_class_name _) _ _ => apply wp_set_class_name
  | |- wp (if ?b then _ else _) _ _ => destruct b eqn:?
  | |- wp (match ?o with Some _ => _ | None => _ end) _ _ => destruct o eqn:?
  end; cbv beta; cbn [fst snd].

(** A call of a production whose behaviour is known: the hypothesis is
    found by unification, its side condition on the fuel is arithmetic. *)
Ltac wp_call :=
  match goal with
  | H : _ |- wp _ _ _ =>
      eapply wp_mono;
        [ eapply H;
          first [len_solve | starts_solve | by left | by right]
        | intros ? [? ? ? ?] ?; cbv beta; len_simpl;
          repeat match goal with
                 | H' : _ ∧ _ |- _ => destruct H'
                 end;
          repeat match goal with
                 | H' : starts _ → _ |- _ =>
                     specialize (H' ltac:(starts_solve))
                 end ]
  end.

Ltac wp_run := repeat first [wp_prim | wp_call].

Lemma wp_write_pop_or_push name method s :
  wp (write_pop_or_push name method) (shrinks s) s.
Proof.
  destruct s as [toks out tbl cls]. unfold write_pop_or_push.
  wp_run; len_solve.
Qed.

Lemma wp_append_chars v s : wp (append_chars v) (shrinks s) s.
Proof.
  destruct s as [toks out tbl cls]. revert out.
  induction v as [|c v IH]; intros out; cbn [append_chars].
  - wp_run. len_solve.
  - do 4 wp_prim. eapply wp_mono; [apply IH|]. intros a [? ? ? ?] H.
    len_solve.
Qed.

Lemma wp_write_pointer_update kind s :
  wp (write_pointer_update kind) (shrinks s) s.
Proof.
  destruct s as [toks out tbl cls]. unfold write_pointer_update.
  wp_run; len_solve.
Qed.

Lemma wp_write_precise_subroutine_name name s :
  wp (write_precise_subroutine_name name) (shrinks s) s.
Proof.
  pose proof wp_write_pop_or_push as Hpp.
  destruct s as [toks out tbl cls].
  unfold write_precise_subroutine_name, write_push_name.
  wp_run; len_solve.
Qed.

(** A constant consumes its token. *)
Lemma wp_write_integer_string_keyword_constant ty v rest out tbl cls :
  mem ty ["integerConstant"; "stringConstant"] = true
  ∨ mem v KEYWORD_CONSTANT = true →
  wp write_integer_string_keyword_constant
    (consumes (State ((ty, v) :: rest) out tbl cls))
    (State ((ty, v) :: rest) out tbl cls).
Proof.
  intros Hstart. pose proof wp_append_chars as Hchars.
  unfold write_integer_string_keyword_constant.
  wp_run; try len_solve.
  destruct Hstart; mem_contra.
Qed.

(** With fuel above four times the number of tokens left (plus the rank of
    the production), a production returns or raises [IndexError]; it
    consumes tokens as its kind requires. *)
Lemma productions_total fuel :
  (∀ s, 4 * len s + 1 < fuel → wp (compile_statements fuel) (shrinks s) s)
  ∧ (∀ s, 4 * len s < fuel → wp (compile_do fuel) (consumes s) s)
  ∧ (∀ s, 4 * len s < fuel → wp (compile_let fuel) (consumes s) s)
  ∧ (∀ s, 4 * len s < fuel → wp (compile_while fuel) (consumes s) s)
  ∧ (∀ s, 4 * len s < fuel → wp (compile_return fuel) (consumes s) s)
  ∧ (∀ b s, 4 * len s + 3 < fuel →
            wp (compile_return_while fuel b) (shrinks s) s)
  ∧ (∀ s, 4 * len s < fuel → wp (compile_if fuel) (consumes s) s)
  ∧ (∀ n l s, 4 * len s < fuel → wp (write_if_else fuel n l) (shrinks s) s)
  ∧ (∀ s, 4 * len s + 2 < fuel →
          wp (compile_expression fuel) (consumes_start s) s)
  ∧ (∀ s, 4 * len s < fuel →
          wp (compile_expression_while fuel) (shrinks s) s)
  ∧ (∀ s, 4 * len s + 1 < fuel → wp (compile_term fuel) (consumes_start s) s)
  ∧ (∀ s, 4 * len s + 3 < fuel →
          wp (compile_expression_list fuel) (shrinks s) s)
  ∧ (∀ k s, 4 * len s < fuel →
            wp (compile_expression_list_while fuel k) (shrinks s) s)
  ∧ (∀ s, 4 * len s < fuel → wp (compile_subroutine_call fuel) (consumes s) s)
  ∧ (∀ s, 4 * len s < fuel → wp (write_identifier_term fuel) (consumes s) s)
  ∧ (∀ b x s, 4 * len s < fuel →
              wp (write_period_and_array_end fuel b x) (shrinks s) s)
  ∧ (∀ x s, 4 * len s < fuel →
            wp (write_left_square_bracket fuel x) (shrinks s) s).
Proof.
  pose proof wp_write_pop_or_push as Hpp.
  pose proof wp_write_precise_subroutine_name as Hprecise.
  pose proof wp_write_integer_string_keyword_constant as Hconst.
  induction fuel as [|fuel (IHstmts & IHdo & IHlet & IHwhile & IHreturn
    & IHreturn_while & IHif & IHelse & IHexpr & IHexpr_while & IHterm
    & IHlist & IHlist_while & IHcall & IHident & IHperiod & IHbracket)].
  { split_and!; intros; lia. }
  split_and!.
  - intros [toks out tbl cls] Hpre. unfold_fuel compile_statements.
    wp_run; try len_solve.
  - intros [toks out tbl cls] Hpre. unfold_fuel compile_do.
    wp_run; try len_solve.
  - intros [toks out tbl cls] Hpre. unfold_fuel compile_let.
    unfold write_pop_name. wp_run; try len_solve.
  - intros [toks out tbl cls] Hpre. unfold_fuel compile_while.
    wp_run; try len_solve.
  - intros [toks out tbl cls] Hpre. unfold_fuel compile_return.
    wp_run; try len_solve.
  - intros b [toks out tbl cls] Hpre. unfold_fuel compile_return_while.
    wp_run; try len_solve.
  - intros [toks out tbl cls] Hpre. unfold_fuel compile_if.
    wp_run; try len_solve.
  - intros n l [toks out tbl cls] Hpre. unfold_fuel write_if_else.
    wp_run; try len_solve.
  - intros [toks out tbl cls] Hpre. unfold_fuel compile_expression.
    wp_run; try len_solve.
  - intros [toks out tbl cls] Hpre. unfold_fuel compile_expression_while.
    wp_run; try len_solve.
  - intros [toks out tbl cls] Hpre. unfold_fuel compile_term.
    wp_run; try len_solve.
  - intros [toks out tbl cls] Hpre. unfold_fuel compile_expression_list.
    wp_run; try len_solve.
  - intros k [toks out tbl cls] Hpre. unfold_fuel compile_expression_list_while.
    wp_run; try len_solve.
  - intros [toks out tbl cls] Hpre. unfold_fuel compile_subroutine_call.
    wp_run; try len_solve.
  - intros [toks out tbl cls] Hpre. unfold_fuel write_identifier_term.
    wp_run; try len_solve.
  - intros b x [toks out tbl cls] Hpre. unfold_fuel write_period_and_array_end.
    unfold write_push_name. wp_run; try len_solve.
  - intros x [toks out tbl cls] Hpre. unfold_fuel write_left_square_bracket.
    unfold write_push_name. wp_run; try len_solve.
Qed.

(** The two table switches of [__compile_subroutine] and
    [__compile_subroutine_body] find their dict. *)
Lemma wp_set_cur_level_class Q toks out tbl cls :
  (∀ tbl', Q tt (State toks out tbl' cls)) →
  wp (symbol_table_set_cur_level "class") Q (State toks out tbl cls).
Proof. intros H. apply H. Qed.

Lemma wp_set_cur_level_started name Q toks out tbl cls :
  (∀ tbl', Q tt (State toks out tbl' cls)) →
  wp (symbol_table_set_cur_level name) Q
    (State toks out (start_subroutine name tbl) cls).
Proof.
  intros H. unfold wp, symbol_table_set_cur_level, set_cur_level_symbol_table.
  cbn [symbol_table start_subroutine subroutine_symbol_table].
  destruct (decide (name = "class")); [apply H|].
  rewrite lookup_insert_eq. apply H.
Qed.

Ltac wp_level :=
  first [ apply wp_set_cur_level_class; intros ?
        | apply wp_set_cur_level_started; intros ? ].

Ltac wp_all := repeat first [wp_prim | wp_level | wp_call].

Lemma wp_compile_var_dec_while fuel type kind s :
  len s < fuel → wp (compile_var_dec_while fuel type kind) (shrinks s) s.
Proof.
  revert s. induction fuel as [|fuel IH]; intros [toks out tbl cls] Hpre;
    [lia|].
  cbn [compile_var_dec_while]. wp_all; try len_solve.
Qed.

Lemma wp_compile_class_var_dec fuel s :
  len s < fuel → wp (compile_class_var_dec fuel) (consumes s) s.
Proof.
  pose proof wp_compile_var_dec_while as Hwhile.
  destruct s as [toks out tbl cls]. intros Hpre.
  unfold compile_class_var_dec. wp_all; try len_solve.
Qed.

Lemma wp_compile_var_dec fuel s :
  len s < fuel → wp (compile_var_dec fuel) (consumes s) s.
Proof.
  pose proof wp_compile_var_dec_while as Hwhile.
  destruct s as [toks out tbl cls]. intros Hpre.
  unfold compile_var_dec. wp_all; try len_solve.
Qed.

Lemma wp_compile_parameter_list_while fuel s :
  len s < fuel → wp (compile_parameter_list_while fuel) (shrinks s) s.
Proof.
  revert s. induction fuel as [|fuel IH]; intros [toks out tbl cls] Hpre;
    [lia|].
  cbn [compile_parameter_list_while]. wp_all; try len_solve.
Qed.

Lemma wp_compile_parameter_list fuel function_type s :
  len s < fuel →
  wp (compile_parameter_list fuel function_type) (shrinks s) s.
Proof.
  pose proof wp_compile_parameter_list_while as Hwhile.
  destruct s as [toks out tbl cls]. intros Hpre.
  unfold compile_parameter_list. wp_all; try len_solve.
Qed.

Lemma wp_compile_subroutine_body_while fuel s :
  len s + 1 < fuel → wp (compile_subroutine_body_while fuel) (shrinks s) s.
Proof.
  pose proof wp_compile_var_dec as Hdec.
  revert s. induction fuel as [|fuel IH]; intros [toks out tbl cls] Hpre;
    [lia|].
  cbn [compile_subroutine_body_while]. wp_all; try len_solve.
Qed.

Lemma wp_compile_subroutine_body fuel function_type cur_name s :
  4 * len s + 1 < fuel →
  wp (compile_subroutine_body fuel function_type cur_name) (consumes s) s.
Proof.
  pose proof wp_compile_subroutine_body_while as Hwhile.
  pose proof wp_write_pointer_update as Hpointer.
  destruct (productions_total fuel) as [Hstatements _].
  destruct s as [toks out tbl cls]. intros Hpre.
  unfold compile_subroutine_body. wp_all; try len_solve.
Qed.

Lemma wp_compile_subroutine fuel s :
  4 * len s + 1 < fuel → wp (compile_subroutine fuel) (consumes s) s.
Proof.
  pose proof wp_compile_parameter_list as Hparameters.
  pose proof wp_compile_subroutine_body as Hbody.
  destruct s as [toks out tbl cls]. intros Hpre.
  unfold compile_subroutine. wp_all; try len_solve.
Qed.

Lemma wp_compile_class_var_decs fuel s :
  len s + 1 < fuel → wp (compile_class_var_decs fuel) (shrinks s) s.
Proof.
  pose proof wp_compile_class_var_dec as Hdec.
  revert s. induction fuel as [|fuel IH]; intros [toks out tbl cls] Hpre;
    [lia|].
  cbn [compile_class_var_decs]. wp_all; try len_solve.
Qed.

Lemma wp_compile_subroutines fuel s :
  4 * len s + 2 < fuel → wp (compile_subroutines fuel) (shrinks s) s.
Proof.
  pose proof wp_compile_subroutine as Hsub.
  revert s. induction fuel as [|fuel IH]; intros [toks out tbl cls] Hpre;
    [lia|].
  cbn [compile_subroutines]. wp_all; try len_solve.
Qed.

Lemma wp_compile_class fuel s :
  4 * len s < fuel → wp (compile_class fuel) (consumes s) s.
Proof.
  pose proof wp_compile_class_var_decs as Hvars.
  pose proof wp_compile_subroutines as Hsubs.
  destruct s as [toks out tbl cls]. intros Hpre.
  unfold compile_class. wp_all; try len_solve.
Qed.

(** X22. [compile_class] terminates on every input and in every state, and
    the only exception it raises is [IndexError], when the tokens run out:
    with more fuel than four times the number of tokens it returns, having
    consumed tokens, or raises [IndexError].  No lookup in the operator
    dicts or in the table of the subroutine scopes raises [KeyError], and
    no loop runs forever. *)
Theorem compile_class_terminates (fuel : nat) (s : state) :
  4 * length (input_tokenizer s) < fuel →
  (∃ s', compile_class fuel s = Ok tt s'
         ∧ length (input_tokenizer s') < length (input_tokenizer s))
  ∨ compile_class fuel s = Raise IndexError.
Proof.
  intros Hfuel. pose proof (wp_compile_class fuel s Hfuel) as H.
  unfold wp, consumes, len in H.
  destruct (compile_class fuel s) as [[] s'|e]; [left|right].
  - by exists s'.
  - by rewrite H.
Qed.

Lemma compile_class_terminates_witness :
  (∃ s', compile_class 400 (new (class_tokens example_class)) = Ok tt s'
         ∧ length (input_tokenizer s')
           < length (input_tokenizer (new (class_tokens example_class))))
  ∨ compile_class 400 (new (class_tokens example_class)) = Raise IndexError.
Proof. apply compile_class_terminates. vm_compute. lia. Defined.
